(** * maksttc_cutts: the spike time tiling coefficient over a sweep of delta-t

    A shallow embedding of [maksttc_cutts.c] and the properties of its four
    functions [run_P], [run_T], [run_sttc] and [mexFunction].

    Data model.
    - C [double] is IEEE-754 binary64, that is Rocq's primitive [float]; every
      arithmetic operator of the source is one correctly rounded binary64
      operation (no extended precision, no fused multiply-add), in the order
      the C expression associates them.  Equality of results is equality of
      binary64 values, NaN being one value.
    - An array handed over as (count, pointer) is a [list float]; the pointer
      of a loop that walks a buffer is the part of the buffer from the current
      position on, so that reading it when nothing is left is a read past the
      end of the buffer.
    - [int] counters are natural numbers (element counts are taken to fit
      [int]); the [unsigned int] number of steps comes out of a conversion
      from [double], which is partial and modelled as such.
    - A read outside a buffer and a conversion whose value does not fit are
      undefined behaviour: [None] in the kernel, [Undefined] at the gateway.

    Contents: the program; the definitions the statements need; binary64
    arithmetic through the exact values of the numbers (order, rounding of
    sums and differences, [ceil] and the conversions, quotients by 1000);
    the properties of the kernel, of the window clipping, of the sweep and
    of the input validation; then further properties: the bounds, the cost
    and the growth of the count of [run_P], the coefficient of a train
    against itself and at a delta-t of zero, what a clipping that stays in
    bounds returns, and where the behaviour of a call is undefined. *)

From Stdlib Require Import String ZArith List Bool Lia Floats Uint63.
Import ListNotations.

Set Warnings "-inexact-float".

Local Open Scope float_scope.

(** ** C conversions and <math.h> *)

(** [(double) n] for a non-negative [int] or [unsigned int]. *)
Definition double_of_nat (n : nat) : float :=
  of_uint63 (Uint63.of_Z (Z.of_nat n)).

(** [fabs] *)
Definition fabs (x : float) : float := abs x.

(** [mxGetNaN ( )] *)
Definition mxGetNaN : float := nan.

(** [ceil]: the least integral value not below [x]; infinities, NaN, zeros
    and the values without fractional bits are returned as they are, and a
    value in (-1, 0) gives -0. *)
Definition ceil (x : float) : float :=
  match Prim2SF x with
  | S754_finite s m e =>
      if (e <? 0)%Z then
        if s then - of_uint63 (Uint63.of_Z (Zpos m / 2 ^ (- e)))
        else of_uint63 (Uint63.of_Z (- (Zneg m / 2 ^ (- e))))
      else x
  | _ => x
  end.

(** Conversion of a [double] to [unsigned int]: the fractional part is
    discarded, and the behaviour is undefined when the integral part is not
    in [0, 2^32). *)
Definition uint_of_double (x : float) : option Z :=
  match Prim2SF x with
  | S754_zero _ => Some 0%Z
  | S754_finite s m e =>
      let t := (if (0 <=? e)%Z then Zpos m * 2 ^ e else Zpos m / 2 ^ (- e))%Z in
      if s then (if (t =? 0)%Z then Some 0%Z else None)
      else if (t <? 2 ^ 32)%Z then Some t else None
  | _ => None
  end.

(** ** Cutts' code block *)

(** The inner [while ( j < N2 )] of [run_P] for one spike [t1i] of train 1.
    The cursor [j] is the list of the spikes of train 2 from [j] on.  Returns
    whether the spike was counted, and the cursor the loop leaves behind. *)
Fixpoint run_P_scan (dt t1i : float) (cursor : list float) : bool * list float :=
  match cursor with
  | [] => (false, [])
  | t2j :: rest =>
      if fabs (t1i - t2j) <=? dt then (true, cursor)
      else if t1i <? t2j then (false, cursor)
      else run_P_scan dt t1i rest
  end.

(** The [for] loop of [run_P] over the spikes of train 1, with the counter
    [Nab] and the cursor into train 2 carried along. *)
Fixpoint run_P_loop (dt : float) (spike_times_1 cursor : list float) (Nab : nat) : nat :=
  match spike_times_1 with
  | [] => Nab
  | t1i :: rest1 =>
      let '(hit, cursor') := run_P_scan dt t1i cursor in
      run_P_loop dt rest1 cursor' (if hit then S Nab else Nab)
  end.

(** [run_P]: the count [Nab], returned as a [double]. *)
Definition run_P (dt : float) (spike_times_1 spike_times_2 : list float) : float :=
  double_of_nat (run_P_loop dt spike_times_1 spike_times_2 0).

(** The [while ( i < ( N1 - 1 ) )] of [run_T]: one step per adjacent pair. *)
Fixpoint run_T_overlap (dt : float) (spike_times_1 : list float) (time_A : float) : float :=
  match spike_times_1 with
  | ti :: ((ti1 :: _) as rest) =>
      let diff := ti1 - ti in
      run_T_overlap dt rest (if diff <? 2 * dt then time_A - 2 * dt + diff else time_A)
  | _ => time_A
  end.

(** [run_T].  With no spike at all the [else] branch reads
    [spike_times_1[ 0 ]], which is outside the buffer. *)
Definition run_T (dtv startv endv : float) (spike_times_1 : list float) : option float :=
  let time_A := 2 * double_of_nat (length spike_times_1) * dtv in
  match spike_times_1 with
  | [] => None
  | [t0] =>
      Some (if t0 - startv <? dtv then time_A - startv + t0 - dtv
            else if endv <? t0 + dtv then time_A - t0 - dtv + endv
            else time_A)
  | t0 :: _ =>
      let time_A := run_T_overlap dtv spike_times_1 time_A in
      let time_A := if t0 - startv <? dtv then time_A - startv + t0 - dtv else time_A in
      let tN := last spike_times_1 t0 in
      Some (if endv - tN <? dtv then time_A - tN - dtv + endv else time_A)
  end.

(** The last statement of [run_sttc]. *)
Definition sttc_formula (TA TB PA PB : float) : float :=
  0.5 * (PA - TB) / (1 - TB * PA) + 0.5 * (PB - TA) / (1 - TA * PB).

(** [run_sttc]: the value stored through [index]. *)
Definition run_sttc (dt : float) (Time : float * float)
    (spike_times_1 spike_times_2 : list float) : option float :=
  let N1 := length spike_times_1 in
  let N2 := length spike_times_2 in
  if (N1 =? 0)%nat || (N2 =? 0)%nat then Some mxGetNaN
  else
    let T := snd Time - fst Time in
    match run_T dt (fst Time) (snd Time) spike_times_1 with
    | None => None
    | Some TA =>
        let TA := TA / T in
        match run_T dt (fst Time) (snd Time) spike_times_2 with
        | None => None
        | Some TB =>
            let TB := TB / T in
            let PA := run_P dt spike_times_1 spike_times_2 / double_of_nat N1 in
            let PB := run_P dt spike_times_2 spike_times_1 / double_of_nat N2 in
            Some (sttc_formula TA TB PA PB)
        end
    end.

(** ** MEX gateway function *)

Inductive mxClassID := mxDOUBLE_CLASS | mxOTHER_CLASS.

(** A host array: its class, its two dimensions and its data buffer, which
    the host keeps [mxM * mxN] elements long. *)
Record mxArray := {
  mxClass : mxClassID;
  mxM : nat;
  mxN : nat;
  mxPr : list float
}.

Definition mxIsDouble (a : mxArray) : bool :=
  match mxClass a with mxDOUBLE_CLASS => true | mxOTHER_CLASS => false end.

Definition mxGetNumberOfElements (a : mxArray) : nat := length (mxPr a).

Definition mxIsScalar (a : mxArray) : bool := (mxGetNumberOfElements a =? 1)%nat.

Definition NARGIN : nat := 4.
Definition NARGOUT : nat := 2.

(** What a call comes to: an error raised by [mexErrMsgIdAndTxt] (which does
    not return), undefined behaviour, or the outputs [sttc] and, when
    [1 < nlhs], [DT]. *)
Inductive outcome :=
| Rejected (id : string)
| Undefined
| Returned (sttc : list float) (DT : option (list float)).

(** [while ( *A < win[ 0 ]  &&  Na ) { A++ ; Na-- ; }].  The guard reads [*A]
    first and looks at [Na] second. *)
Fixpoint skip_before (win0 : float) (A : list float) (Na : nat) : option (list float * nat) :=
  match A with
  | [] => None
  | a :: A' =>
      if (a <? win0) && negb (Na =? 0)%nat then skip_before win0 A' (Na - 1)
      else Some (A, Na)
  end.

(** [for ( i = 0 ; i < Na && A[ i ] <= win[ 1 ] ; i++ ) ;] where [A] is the
    buffer from index [i] on.  Returns the final [i]. *)
Fixpoint last_within (win1 : float) (A : list float) (Na i : nat) {struct A} : option nat :=
  match A with
  | [] => if (i <? Na)%nat then None else Some i
  | a :: A' =>
      if (i <? Na)%nat && (a <=? win1) then last_within win1 A' Na (S i)
      else Some i
  end.

(** Window clipping of one train: both loops, then [Na -= ( Na - i )].  The
    clipped train is what [run_sttc] is given: the first [Na] elements at the
    advanced pointer. *)
Definition clip (win0 win1 : float) (A : list float) : option (list float) :=
  match skip_before win0 A (length A) with
  | None => None
  | Some (A', Na) =>
      match last_within win1 A' Na 0 with
      | None => None
      | Some i => Some (firstn (Na - (Na - i)) A')
      end
  end.

(** The delta-t of step [i]: [( double ) i / 1000.0]. *)
Definition dt_of_step (i : nat) : float := double_of_nat i / 1000.

(** The loop over all delta-t values, from step [i] on for [n] steps. *)
Fixpoint sweep (win : float * float) (A B : list float) (i n : nat) : option (list float) :=
  match n with
  | O => Some []
  | S n' =>
      match run_sttc (dt_of_step i) win A B with
      | None => None
      | Some c =>
          match sweep win A B (S i) n' with
          | None => None
          | Some cs => Some (c :: cs)
          end
      end
  end.

Definition mexFunction (nlhs : nat) (prhs : list mxArray) : outcome :=
  match prhs with
  | [pWIN; pDT; pA; pB] =>
      if (NARGOUT <? nlhs)%nat then Rejected "MAK:maksttc_cutts:nargsout"
      else if negb (mxIsDouble pWIN) || negb (mxGetNumberOfElements pWIN =? 2)%nat
      then Rejected "MAK:maksttc_cutts:win"
      else if negb (mxIsDouble pDT) || negb (mxIsScalar pDT)
      then Rejected "MAK:maksttc_cutts:dt"
      else if negb (mxIsDouble pA) || negb (mxIsDouble pB)
      then Rejected "MAK:maksttc_cutts:AB"
      else
        match mxPr pDT, mxPr pWIN with
        | dtv :: _, [win0; win1] =>
            if dtv <? 0 then Rejected "MAK:maksttc_cutts:neg_dt"
            else
              match uint_of_double (ceil (dtv / 0.001) + 1) with
              | None => Undefined
              | Some dtn =>
                  if win1 <=? win0 then Rejected "MAK:maksttc_cutts:winlim"
                  else
                    match clip win0 win1 (mxPr pA), clip win0 win1 (mxPr pB) with
                    | Some A, Some B =>
                        match sweep (win0, win1) A B 0 (Z.to_nat dtn) with
                        | Some sttc =>
                            Returned sttc
                              (if (1 <? nlhs)%nat
                               then Some (map dt_of_step (seq 0 (Z.to_nat dtn)))
                               else None)
                        | None => Undefined
                        end
                    | _, _ => Undefined
                    end
              end
        | _, _ => Undefined
        end
  | _ => Rejected "MAK:maksttc_cutts:nargsin"
  end.

(** ** Definitions for the statements *)

Definition double_array (data : list float) : mxArray :=
  {| mxClass := mxDOUBLE_CLASS; mxM := 1; mxN := length data; mxPr := data |}.

(** A vector: one row or one column. *)
Definition is_vector (a : mxArray) : bool := (mxM a =? 1)%nat || (mxN a =? 1)%nat.

(** Invalid input as the specification lists it: a negative maximum
    delta-t, a window that does not end after it starts, or an argument of the
    wrong shape or type. *)
Definition invalid_input (prhs : list mxArray) : bool :=
  match prhs with
  | [pWIN; pDT; pA; pB] =>
      negb (mxIsDouble pWIN && (mxGetNumberOfElements pWIN =? 2)%nat)
      || negb (mxIsDouble pDT && mxIsScalar pDT)
      || negb (mxIsDouble pA && is_vector pA)
      || negb (mxIsDouble pB && is_vector pB)
      || match mxPr pDT, mxPr pWIN with
         | dtv :: _, [win0; win1] => (dtv <? 0) || (win1 <=? win0)
         | _, _ => true
         end
  | _ => true
  end.

(** A spike inside the analysis window, ends included. *)
Definition in_window (win0 win1 t : float) : bool := (win0 <=? t) && (t <=? win1).

(** A train in chronological order: no spike is before the one it follows. *)
Fixpoint nondecreasing (train : list float) : bool :=
  match train with
  | a :: ((b :: _) as rest) => (a <=? b) && nondecreasing rest
  | _ => true
  end.

(** The number of spikes of [train1] with at least one spike of [train2] at
    a distance of [dt] at most, each spike counted once. *)
Definition count_coincident (dt : float) (train1 train2 : list float) : nat :=
  length (filter (fun a => existsb (fun b => fabs (a - b) <=? dt) train2) train1).

(** The number of passes through the body of [while ( j < N2 )] that [run_P]
    makes for one spike of train 1, each pass evaluating the distance test
    once: the pass that counts the spike, the pass that finds train 2 ahead,
    or a pass that moves the cursor and goes on. *)
Fixpoint run_P_scan_passes (dt t1i : float) (cursor : list float) : nat :=
  match cursor with
  | [] => 0
  | t2j :: rest =>
      if fabs (t1i - t2j) <=? dt then 1
      else if t1i <? t2j then 1
      else S (run_P_scan_passes dt t1i rest)
  end.

(** The passes of a whole call of [run_P], the cursor carried along as in
    [run_P_loop]. *)
Fixpoint run_P_passes (dt : float) (spike_times_1 cursor : list float) : nat :=
  match spike_times_1 with
  | [] => 0
  | t1i :: rest1 =>
      (run_P_scan_passes dt t1i cursor
       + run_P_passes dt rest1 (snd (run_P_scan dt t1i cursor)))%nat
  end.

(** ** The value of a binary64 number *)

Section Values.

Local Open Scope Z_scope.

(** The value of a binary64 number in units of 2^-1074, the infinities at
    +-2^2098, beyond every finite value. *)
Definition Vinf : Z := 2 ^ 2098.

(** The largest finite value. *)
Definition Vmax : Z := (2 ^ 53 - 1) * 2 ^ 2045.

Definition SF2Z (x : spec_float) : Z :=
  match x with
  | S754_zero _ => 0
  | S754_nan => 0
  | S754_infinity s => cond_Zopp s Vinf
  | S754_finite s m e => cond_Zopp s (Zpos m * 2 ^ (e + 1074))
  end.

Definition SFis_nan (x : spec_float) : bool :=
  match x with S754_nan => true | _ => false end.

Definition SFis_finite (x : spec_float) : bool :=
  match x with S754_zero _ | S754_finite _ _ _ => true | _ => false end.

(** [M] without its [n] low bits, rounded to nearest, ties to even. *)
Definition rne (M n : Z) : Z :=
  let q := M / 2 ^ n in
  match 2 * (M mod 2 ^ n) ?= 2 ^ n with
  | Lt => q
  | Eq => if Z.even q then q else q + 1
  | Gt => q + 1
  end.

Definition cap (v : Z) : Z := if v <? Vinf then v else Vinf.

(** [x] is the number of sign [s] and magnitude [v], or the infinity of
    that sign when [v] is out of range. *)
Definition rounds_to (s : bool) (v : Z) (x : spec_float) : Prop :=
  SF2Z x = cond_Zopp s (cap v) /\ SFis_nan x = false.

(** Rounding of a positive value (in units of 2^-1074) to binary64. *)
Definition rnd_pos (X : Z) : Z :=
  let n := Z.max (Z.log2 X - 52) 0 in cap (rne X n * 2 ^ n).

(** Rounding of any value. *)
Definition rnd (X : Z) : Z :=
  if 0 <? X then rnd_pos X else if X <? 0 then - rnd_pos (- X) else 0.

End Values.

Definition F2Z (x : float) : Z := SF2Z (Prim2SF x).
Definition is_nanb (x : float) : bool := SFis_nan (Prim2SF x).
Definition finiteb (x : float) : bool := SFis_finite (Prim2SF x).

(** The distance test of [run_P]. *)
Definition within (dt a b : float) : bool := abs (a - b) <=? dt.

(** The least integer not below the value of [x]. *)
Definition Zceil (x : float) : Z := (- (- F2Z x / 2 ^ 1074))%Z.



(** The count of coincident spikes with the distance taken exactly, on the
    values of the numbers: the spikes of [train1] with a spike of [train2]
    at |a - b| <= dt. *)
Definition count_exact (dt : float) (train1 train2 : list float) : nat :=
  length (filter (fun a => existsb (fun b => (Z.abs (F2Z a - F2Z b) <=? F2Z dt)%Z) train2)
            train1).

(** A sequence of delta-t values that grows strictly. *)
Fixpoint increasing (l : list float) : bool :=
  match l with
  | a :: ((b :: _) as rest) => (a <? b) && increasing rest
  | _ => true
  end.

(** * Binary64 arithmetic through the values *)

Section ValueTheory.

Local Open Scope Z_scope.

Lemma digits2_pos_size (m : positive) : digits2_pos m = Pos.size m.
Proof. induction m; cbn; congruence. Qed.

Lemma digits2_pos_bounds (m : positive) :
  2 ^ (Zpos (digits2_pos m) - 1) <= Zpos m < 2 ^ Zpos (digits2_pos m).
Proof.
  rewrite digits2_pos_size.
  assert (Zpos (Pos.size m) = Z.log2 (Zpos m) + 1) as ->.
  { destruct m; cbn [Z.log2 Pos.size]; try rewrite Pos2Z.inj_succ; lia. }
  pose proof (Z.log2_spec (Zpos m) ltac:(lia)) as H.
  replace (Z.log2 (Zpos m) + 1 - 1) with (Z.log2 (Zpos m)) by lia.
  replace (Z.log2 (Zpos m) + 1) with (Z.succ (Z.log2 (Zpos m))) by lia. exact H.
Qed.

Lemma digits2_pos_log2 (m : positive) : Zpos (digits2_pos m) = Z.log2 (Zpos m) + 1.
Proof.
  rewrite digits2_pos_size.
  destruct m; cbn [Z.log2 Pos.size]; try rewrite Pos2Z.inj_succ; lia.
Qed.

Lemma bounded_spec (m : positive) (e : Z) :
  bounded prec emax m e = true <->
  Z.max (Zpos (digits2_pos m) + e - 53) (-1074) = e /\ e <= 971.
Proof.
  unfold bounded, canonical_mantissa, fexp, SpecFloat.emin, prec, emax.
  rewrite andb_true_iff, Z.eqb_eq, Z.leb_le. reflexivity.
Qed.

Lemma pow2_pos (k : Z) : 0 <= k -> 0 < 2 ^ k.
Proof. intros. apply Z.pow_pos_nonneg; lia. Qed.

Lemma pow2_split (a b : Z) : 0 <= a -> 0 <= b -> 2 ^ (a + b) = 2 ^ a * 2 ^ b.
Proof. intros. apply Z.pow_add_r; lia. Qed.

Lemma pow2_le (a b : Z) : 0 <= a <= b -> 2 ^ a <= 2 ^ b.
Proof. intros. apply Z.pow_le_mono_r; lia. Qed.

(** A valid finite number lies strictly between the infinities. *)
Lemma bounded_lt_Vinf (m : positive) (e : Z) :
  bounded prec emax m e = true -> 0 < Zpos m * 2 ^ (e + 1074) < Vinf.
Proof.
  rewrite bounded_spec. intros [Hc He].
  pose proof (digits2_pos_bounds m) as [_ Hm].
  assert (Zpos (digits2_pos m) <= 53) by lia.
  assert (-1074 <= e) by lia.
  pose proof (pow2_le (Zpos (digits2_pos m)) 53 ltac:(lia)).
  pose proof (pow2_le (e + 1074) 2045 ltac:(lia)).
  pose proof (pow2_pos (e + 1074) ltac:(lia)).
  unfold Vinf. replace 2098 with (53 + 2045) by lia. rewrite (pow2_split 53 2045) by lia.
  split; [apply Z.mul_pos_pos; lia|].
  apply Z.le_lt_trans with (Zpos m * 2 ^ 2045).
  - apply Z.mul_le_mono_nonneg_l; lia.
  - apply Z.mul_lt_mono_pos_r; [apply pow2_pos|]; lia.
Qed.

(** On valid numbers the order of [SFcompare] is the order of the values. *)
Lemma bounded_compare (m1 m2 : positive) (e1 e2 : Z) :
  bounded prec emax m1 e1 = true -> bounded prec emax m2 e2 = true ->
  match e1 ?= e2 with
  | Lt => Lt
  | Gt => Gt
  | Eq => Pos.compare_cont Eq m1 m2
  end = (Zpos m1 * 2 ^ (e1 + 1074) ?= Zpos m2 * 2 ^ (e2 + 1074)).
Proof.
  assert (forall m1 m2 e1 e2,
    bounded prec emax m1 e1 = true -> bounded prec emax m2 e2 = true -> e1 < e2 ->
    Zpos m1 * 2 ^ (e1 + 1074) < Zpos m2 * 2 ^ (e2 + 1074)) as Hlt.
  { clear. intros m1 m2 e1 e2 H1 H2 Hlt.
    rewrite bounded_spec in H1, H2. destruct H1 as [H1 _], H2 as [H2 _].
    pose proof (digits2_pos_bounds m1) as [_ Hm1].
    pose proof (digits2_pos_bounds m2) as [Hm2 _].
    assert (Zpos (digits2_pos m1) <= 53) by lia.
    assert (Zpos (digits2_pos m2) = 53) as E2 by lia.
    rewrite E2 in Hm2.
    pose proof (pow2_le (Zpos (digits2_pos m1)) 53 ltac:(lia)).
    replace (e2 + 1074) with ((e1 + 1074) + 1 + (e2 - e1 - 1)) by lia.
    rewrite (pow2_split (e1 + 1074 + 1) (e2 - e1 - 1)), (pow2_split (e1 + 1074) 1) by lia.
    pose proof (pow2_pos (e1 + 1074) ltac:(lia)).
    pose proof (pow2_pos (e2 - e1 - 1) ltac:(lia)).
    change (2 ^ 1) with 2. change (2 ^ (53 - 1)) with 4503599627370496 in Hm2.
    change (2 ^ 53) with 9007199254740992 in *.
    set (P := 2 ^ (e1 + 1074)) in *. set (Q := 2 ^ (e2 - e1 - 1)) in *.
    assert (Zpos m1 * P < 9007199254740992 * P) by (apply Z.mul_lt_mono_pos_r; lia).
    assert (P * 2 <= P * 2 * Q) by nia.
    assert (4503599627370496 * (P * 2 * Q) <= Zpos m2 * (P * 2 * Q))
      by (apply Z.mul_le_mono_nonneg_r; lia).
    lia. }
  intros H1 H2. destruct (Z.compare_spec e1 e2) as [E|E|E].
  - subst e2. rewrite Pos.compare_cont_spec.
    rewrite bounded_spec in H1.
    pose proof (pow2_pos (e1 + 1074) ltac:(lia)).
    rewrite <- (Zmult_compare_compat_r (Zpos m1) (Zpos m2) (2 ^ (e1 + 1074))) by lia.
    change (Zpos m1 ?= Zpos m2) with (Pos.compare m1 m2).
    destruct (Pos.compare m1 m2); reflexivity.
  - symmetry. apply Z.compare_lt_iff. auto.
  - symmetry. apply Z.compare_gt_iff. auto.
Qed.

Lemma SFcompare_val (x y : spec_float) :
  valid_binary x = true -> valid_binary y = true ->
  SFis_nan x = false -> SFis_nan y = false ->
  SFcompare x y = Some (SF2Z x ?= SF2Z y).
Proof.
  assert (0 < Vinf) as HV by (apply pow2_pos; lia).
  destruct x as [sx|sx| |sx mx ex], y as [sy|sy| |sy my ey];
    cbn [valid_binary SFis_nan SFcompare SF2Z]; intros Hx Hy Nx Ny; try discriminate;
    try (pose proof (bounded_lt_Vinf _ _ Hx)); try (pose proof (bounded_lt_Vinf _ _ Hy)).
  9: { destruct sx, sy; cbn [cond_Zopp]; f_equal.
        - rewrite Z.compare_opp. rewrite <- (bounded_compare _ _ _ _ Hy Hx).
          rewrite (Z.compare_antisym ey ex), (Pos.compare_cont_antisym).
          destruct (ey ?= ex); reflexivity.
        - symmetry. apply Z.compare_lt_iff; lia.
        - symmetry. apply Z.compare_gt_iff; lia.
        - apply bounded_compare; assumption. }
  all: try (destruct sx); try (destruct sy); cbn [cond_Zopp]; f_equal; symmetry;
    try reflexivity;
    try (apply Z.compare_lt_iff; lia); try (apply Z.compare_gt_iff; lia);
    try (apply Z.compare_eq_iff; lia).
Qed.

(** ** Rounding *)

Lemma rne_0 (M : Z) : rne M 0 = M.
Proof.
  unfold rne. change (2 ^ 0) with 1. rewrite Z.mod_1_r, Z.div_1_r. reflexivity.
Qed.

Lemma rne_bounds (M n : Z) : M / 2 ^ n <= rne M n <= M / 2 ^ n + 1.
Proof.
  unfold rne. destruct (_ ?= _); [destruct (Z.even _)| |]; lia.
Qed.

Lemma shr_1_nonneg (m : Z) (r s : bool) :
  0 <= m ->
  shr_1 (Build_shr_record m r s) = Build_shr_record (m / 2) (Z.odd m) (r || s).
Proof.
  intros Hm. rewrite <- Z.div2_div.
  destruct m as [|p|p]; [reflexivity| |lia].
  destruct p; reflexivity.
Qed.

Lemma iter_pos_nat {A : Type} (f : A -> A) (p : positive) (x : A) :
  iter_pos f p x = Nat.iter (Pos.to_nat p) f x.
Proof.
  unfold Nat.iter. rewrite <- Pos2Nat.inj_iter.
  revert x. induction p as [p IH|p IH|]; intros x; cbn [iter_pos Pos.iter].
  - rewrite !IH, !Pos.iter_swap. reflexivity.
  - rewrite !IH. reflexivity.
  - reflexivity.
Qed.

Lemma mod_pow2_succ (M k : Z) :
  0 <= k ->
  M mod 2 ^ (k + 1) = M mod 2 ^ k + 2 ^ k * Z.b2z (Z.testbit M k).
Proof.
  intros Hk. rewrite Z.testbit_spec' by lia.
  rewrite Z.pow_add_r by lia. change (2 ^ 1) with 2.
  apply Z.rem_mul_r; [|lia]. pose proof (pow2_pos k Hk). lia.
Qed.

(** [n >= 1] right shifts of an exact record: the quotient, the last bit
    shifted out, and whether a bit before it was set. *)
Lemma shr_iter (M : Z) (n : nat) :
  0 <= M ->
  Nat.iter (S n) shr_1 (Build_shr_record M false false) =
    Build_shr_record (M / 2 ^ Z.of_nat (S n)) (Z.testbit M (Z.of_nat n))
      (negb (M mod 2 ^ Z.of_nat n =? 0)).
Proof.
  intros HM. induction n as [|n IH].
  - cbn [Nat.iter]. rewrite shr_1_nonneg by lia.
    change (2 ^ Z.of_nat 1) with 2. change (2 ^ Z.of_nat 0) with 1.
    rewrite Z.mod_1_r, Z.bit0_odd. reflexivity.
  - rewrite Nat.iter_succ, IH.
    rewrite shr_1_nonneg by (apply Z.div_pos; [lia | apply pow2_pos; lia]).
    f_equal.
    + rewrite Z.div_div by (try apply pow2_pos; lia).
      rewrite (Nat2Z.inj_succ (S n)), Z.pow_succ_r by lia. f_equal. lia.
    + rewrite (Z.testbit_odd M (Z.of_nat (S n))), Z.shiftr_div_pow2 by lia. reflexivity.
    + rewrite (Nat2Z.inj_succ n). unfold Z.succ.
      rewrite mod_pow2_succ by lia.
      pose proof (Z.mod_pos_bound M (2 ^ Z.of_nat n) (pow2_pos (Z.of_nat n) ltac:(lia))).
      pose proof (pow2_pos (Z.of_nat n) ltac:(lia)).
      destruct (Z.testbit M (Z.of_nat n)); cbn [Z.b2z orb].
      * symmetry. apply negb_true_iff, Z.eqb_neq. lia.
      * rewrite Z.mul_0_r, Z.add_0_r. reflexivity.
Qed.

(** Rounding after the shift is [rne]. *)
Lemma round_after_shr (M : Z) (n : nat) :
  0 <= M ->
  let mrs := Nat.iter (S n) shr_1 (Build_shr_record M false false) in
  round_nearest_even (shr_m mrs) (loc_of_shr_record mrs) = rne M (Z.of_nat (S n)).
Proof.
  intros HM mrs. subst mrs. rewrite shr_iter by assumption.
  cbn [shr_m]. unfold rne.
  rewrite (Nat2Z.inj_succ n). unfold Z.succ.
  rewrite mod_pow2_succ by lia.
  rewrite (pow2_split (Z.of_nat n) 1) by lia. change (2 ^ 1) with 2.
  pose proof (Z.mod_pos_bound M (2 ^ Z.of_nat n) (pow2_pos (Z.of_nat n) ltac:(lia))).
  pose proof (pow2_pos (Z.of_nat n) ltac:(lia)).
  set (P := 2 ^ Z.of_nat n) in *. set (low := M mod P) in *.
  destruct (Z.testbit M (Z.of_nat n)); cbn [Z.b2z];
    destruct (Z.eqb_spec low 0) as [E|E]; cbn [negb loc_of_shr_record round_nearest_even].
  - rewrite E. replace (2 * (0 + P * 1) ?= P * 2) with Eq; [reflexivity|].
    symmetry. apply Z.compare_eq_iff. lia.
  - replace (2 * (low + P * 1) ?= P * 2) with Gt; [reflexivity|].
    symmetry. apply Z.compare_gt_iff. lia.
  - replace (2 * (low + P * 0) ?= P * 2) with Lt; [reflexivity|].
    symmetry. apply Z.compare_lt_iff. lia.
  - replace (2 * (low + P * 0) ?= P * 2) with Lt; [reflexivity|].
    symmetry. apply Z.compare_lt_iff. lia.
Qed.

Lemma digits2_pos_unique (p : positive) (k : Z) :
  2 ^ (k - 1) <= Zpos p < 2 ^ k -> Zpos (digits2_pos p) = k.
Proof.
  intros [Hl Hu]. rewrite digits2_pos_log2.
  assert (0 < k).
  { destruct (Z.ltb_spec 0 k); [assumption|].
    destruct (Z.eq_dec k 0) as [->|]; [cbn in Hu; lia|].
    rewrite Z.pow_neg_r in Hu by lia. lia. }
  rewrite (Z.log2_unique (Zpos p) (k - 1)); [lia|lia|].
  replace (Z.succ (k - 1)) with k by lia. auto.
Qed.

Lemma Vinf_pos : 0 < Vinf.
Proof. apply pow2_pos. lia. Qed.

Lemma cap_le (v : Z) : cap v <= Vinf.
Proof. unfold cap. destruct (Z.ltb_spec v Vinf); lia. Qed.

Lemma cap_mono (v w : Z) : v <= w -> cap v <= cap w.
Proof. unfold cap. intros. destruct (Z.ltb_spec v Vinf), (Z.ltb_spec w Vinf); lia. Qed.

(** The overflow test of [binary_round_aux] on a mantissa of at most 53
    digits, of exactly 53 when the exponent is large. *)
Lemma finite_cap (s : bool) (m : positive) (e : Z) :
  -1074 <= e -> Zpos (digits2_pos m) <= 53 ->
  Zpos (digits2_pos m) = 53 \/ e <= 971 ->
  rounds_to s (Zpos m * 2 ^ (e + 1074))
    (if e <=? emax - prec then S754_finite s m e else S754_infinity s).
Proof.
  intros He Hd Hn. split; [|destruct (e <=? emax - prec); reflexivity].
  change (emax - prec) with 971.
  pose proof (digits2_pos_bounds m) as [Hl Hu].
  pose proof (pow2_le (Zpos (digits2_pos m)) 53 ltac:(lia)).
  pose proof (pow2_pos (e + 1074) ltac:(lia)).
  unfold cap, Vinf.
  destruct (Z.leb_spec e 971) as [E|E]; cbn [SF2Z]; f_equal.
  - pose proof (pow2_le (e + 1074) 2045 ltac:(lia)).
    replace 2098 with (53 + 2045) by lia. rewrite (pow2_split 53 2045) by lia.
    assert (Zpos m * 2 ^ (e + 1074) < 2 ^ 53 * 2 ^ 2045) as Hlt.
    { apply Z.le_lt_trans with (Zpos m * 2 ^ 2045).
      - apply Z.mul_le_mono_nonneg_l; lia.
      - apply Z.mul_lt_mono_pos_r; [apply pow2_pos|]; lia. }
    apply Z.ltb_lt in Hlt. rewrite Hlt. reflexivity.
  - destruct Hn as [Hn|Hn]; [|lia]. rewrite Hn in Hl.
    pose proof (pow2_le 2046 (e + 1074) ltac:(lia)).
    replace 2098 with (52 + 2046) by lia. rewrite (pow2_split 52 2046) by lia.
    assert (2 ^ 52 * 2 ^ 2046 <= Zpos m * 2 ^ (e + 1074)) as Hge.
    { apply Z.le_trans with (2 ^ 52 * 2 ^ (e + 1074)).
      - apply Z.mul_le_mono_nonneg_l; [apply Z.lt_le_incl, pow2_pos|]; lia.
      - apply Z.mul_le_mono_nonneg_r; lia. }
    apply Z.ltb_ge in Hge. rewrite Hge. reflexivity.
Qed.

Lemma fexp_shift (d e : Z) :
  -1074 <= e -> e <= fexp prec emax (d + e) ->
  fexp prec emax (d + e) - e = Z.max (d - 53) 0.
Proof. unfold fexp, SpecFloat.emin, prec, emax. lia. Qed.

Lemma shr_m_iter (mrs : shr_record) (k : nat) :
  0 <= shr_m mrs -> shr_m (Nat.iter k shr_1 mrs) = shr_m mrs / 2 ^ Z.of_nat k.
Proof.
  intros Hm. induction k as [|k IH].
  - cbn [Nat.iter]. change (2 ^ Z.of_nat 0) with 1. rewrite Z.div_1_r. reflexivity.
  - rewrite Nat.iter_succ.
    assert (0 <= shr_m (Nat.iter k shr_1 mrs)) as Hk
      by (rewrite IH; apply Z.div_pos; [lia | apply pow2_pos; lia]).
    destruct (Nat.iter k shr_1 mrs) as [m r t]. cbn [shr_m] in *.
    rewrite shr_1_nonneg by assumption. cbn [shr_m]. rewrite IH.
    rewrite Z.div_div by (try apply pow2_pos; lia).
    rewrite (Nat2Z.inj_succ k), Z.pow_succ_r by lia. f_equal. lia.
Qed.

Lemma round_nearest_even_bounds (m : Z) (l : location) :
  m <= round_nearest_even m l <= m + 1.
Proof.
  destruct l as [|[| |]]; cbn [round_nearest_even]; try destruct (Z.even m); lia.
Qed.

Lemma shr_m_of_loc (m : Z) (l : location) : shr_m (shr_record_of_loc m l) = m.
Proof. destruct l as [|[| |]]; reflexivity. Qed.

(** The first shift of [binary_round_aux]: [n] bits go, whatever the
    location. *)
Lemma shr_fexp_first (mz : positive) (ez : Z) (lz : location) :
  -1074 <= ez -> ez <= fexp prec emax (Zpos (digits2_pos mz) + ez) ->
  let n := Z.max (Zpos (digits2_pos mz) - 53) 0 in
  shr_m (fst (shr_fexp prec emax (Zpos mz) ez lz)) = Zpos mz / 2 ^ n /\
  snd (shr_fexp prec emax (Zpos mz) ez lz) = ez + n.
Proof.
  intros He Hf n. unfold shr_fexp. cbn [Zdigits2].
  rewrite (fexp_shift _ _ He Hf). fold n.
  destruct n as [|p|p] eqn:En; [ | |lia]; cbn [shr fst snd].
  - rewrite shr_m_of_loc. change (2 ^ 0) with 1. rewrite Z.div_1_r, Z.add_0_r. auto.
  - rewrite iter_pos_nat, shr_m_iter by (rewrite shr_m_of_loc; lia).
    rewrite shr_m_of_loc, positive_nat_Z. auto.
Qed.

(** The second shift of [binary_round_aux], after rounding: a mantissa that
    reached 2^53 is brought back to 53 bits. *)
Lemma round_renormalize (s : bool) (m1 e : Z) :
  -1074 <= e -> 0 < m1 <= 2 ^ 53 -> 2 ^ 52 <= m1 \/ e = -1074 ->
  rounds_to s (m1 * 2 ^ (e + 1074))
    (let '(mrs, e') := shr_fexp prec emax m1 e loc_Exact in
     match shr_m mrs with
     | Z0 => S754_zero s
     | Zpos m => if e' <=? emax - prec then S754_finite s m e' else S754_infinity s
     | Zneg _ => S754_nan
     end).
Proof.
  intros He Hm Hn.
  change (2 ^ 52) with 4503599627370496 in *.
  change (2 ^ 53) with 9007199254740992 in *.
  destruct m1 as [|p|p]; [lia| |lia].
  unfold shr_fexp. cbn [Zdigits2 shr_record_of_loc].
  destruct (Z.eq_dec (Zpos p) 9007199254740992) as [E53|N53].
  - (* the mantissa was rounded up to 2^53 *)
    injection E53 as ->.
    replace (fexp prec emax (Zpos (digits2_pos 9007199254740992) + e) - e) with 1
      by (cbn [digits2_pos Pos.succ]; unfold fexp, SpecFloat.emin, prec, emax; lia).
    cbn [shr iter_pos shr_1 shr_m].
    destruct (finite_cap s 4503599627370496 (e + 1)) as [Hv Hnan];
      [lia|cbn; lia|left; reflexivity|].
    split; [|exact Hnan]. rewrite Hv.
    f_equal. f_equal.
    replace (e + 1 + 1074) with (1 + (e + 1074)) by lia.
    rewrite (pow2_split 1 (e + 1074)) by lia. change (2 ^ 1) with 2. lia.
  - pose proof (digits2_pos_bounds p) as [Hl Hu].
    assert (Zpos (digits2_pos p) <= 53) as Hd53.
    { destruct (Z.le_gt_cases (Zpos (digits2_pos p)) 53); [assumption|].
      pose proof (pow2_le 53 (Zpos (digits2_pos p) - 1) ltac:(lia)).
      change (2 ^ 53) with 9007199254740992 in *. lia. }
    assert (Zpos (digits2_pos p) = 53 \/ e <= 971) as Hc.
    { destruct Hn as [Hn|Hn]; [left|right; lia].
      apply digits2_pos_unique. change (2 ^ (53 - 1)) with 4503599627370496.
      change (2 ^ 53) with 9007199254740992. lia. }
    replace (fexp prec emax (Zpos (digits2_pos p) + e) - e) with 0.
    + cbn [shr shr_m]. apply finite_cap; assumption.
    + unfold fexp, SpecFloat.emin, prec, emax. destruct Hn as [Hn| ->]; [|lia].
      assert (Zpos (digits2_pos p) = 53) as ->; [|lia].
      apply digits2_pos_unique. change (2 ^ (53 - 1)) with 4503599627370496.
      change (2 ^ 53) with 9007199254740992. lia.
Qed.

(** [binary_round_aux] on a mantissa that needs no left shift: the value is
    that of the mantissa without its extra bits, rounded one way or the
    other, or an infinity. *)
Lemma binary_round_aux_shape (s : bool) (mz : positive) (ez : Z) (lz : location) :
  -1074 <= ez -> ez <= fexp prec emax (Zpos (digits2_pos mz) + ez) ->
  let n := Z.max (Zpos (digits2_pos mz) - 53) 0 in
  let mrs := fst (shr_fexp prec emax (Zpos mz) ez lz) in
  let m1 := round_nearest_even (shr_m mrs) (loc_of_shr_record mrs) in
  Zpos mz / 2 ^ n <= m1 <= Zpos mz / 2 ^ n + 1 /\
  rounds_to s (m1 * 2 ^ (ez + n + 1074)) (binary_round_aux prec emax s (Zpos mz) ez lz).
Proof.
  intros He Hf n mrs m1.
  pose proof (digits2_pos_bounds mz) as [Hl Hu].
  destruct (shr_fexp_first mz ez lz He Hf) as [Hm Hs]. fold n in Hm, Hs. fold mrs in Hm.
  pose proof (round_nearest_even_bounds (shr_m mrs) (loc_of_shr_record mrs)) as Hr.
  fold m1 in Hr. rewrite Hm in Hr. split; [exact Hr|].
  unfold binary_round_aux.
  destruct (shr_fexp prec emax (Zpos mz) ez lz) as [mrs' e'] eqn:E.
  cbn [fst snd] in *. subst mrs e'. fold m1.
  set (d := Zpos (digits2_pos mz)) in *.
  pose proof (pow2_pos n ltac:(lia)) as Hp.
  apply round_renormalize; [lia| |].
  - destruct (Z.le_gt_cases 53 d) as [Hd|Hd].
    + assert (d = 53 + n) as Ed by lia.
      assert (2 ^ 52 <= Zpos mz / 2 ^ n < 2 ^ 53) as [Hq1 Hq2].
      { rewrite Ed in Hl, Hu.
        replace (53 + n - 1) with (52 + n) in Hl by lia.
        rewrite (pow2_split 52 n) in Hl by lia.
        rewrite (pow2_split 53 n) in Hu by lia.
        split.
        - apply Z.div_le_lower_bound; lia.
        - apply Z.div_lt_upper_bound; lia. }
      change (2 ^ 52) with 4503599627370496 in *.
      change (2 ^ 53) with 9007199254740992 in *. lia.
    + assert (n = 0) as En by lia. rewrite En in *.
      change (2 ^ 0) with 1 in Hr. rewrite Z.div_1_r in Hr.
      pose proof (pow2_le d 52 ltac:(lia)).
      change (2 ^ 52) with 4503599627370496 in *.
      change (2 ^ 53) with 9007199254740992 in *. lia.
  - destruct (Z.le_gt_cases 53 d) as [Hd|Hd].
    + left. assert (d = 53 + n) as Ed by lia.
      assert (2 ^ 52 <= Zpos mz / 2 ^ n).
      { rewrite Ed in Hl. replace (53 + n - 1) with (52 + n) in Hl by lia.
        rewrite (pow2_split 52 n) in Hl by lia.
        apply Z.div_le_lower_bound; lia. }
      lia.
    + right. unfold fexp, SpecFloat.emin, prec, emax in Hf. lia.
Qed.

(** On an exact mantissa the rounding is to nearest, ties to even. *)
Lemma binary_round_aux_exact (s : bool) (mz : positive) (ez : Z) :
  -1074 <= ez -> ez <= fexp prec emax (Zpos (digits2_pos mz) + ez) ->
  rounds_to s (rne (Zpos mz) (Z.max (Zpos (digits2_pos mz) - 53) 0)
               * 2 ^ (ez + Z.max (Zpos (digits2_pos mz) - 53) 0 + 1074))
    (binary_round_aux prec emax s (Zpos mz) ez loc_Exact).
Proof.
  intros He Hf.
  destruct (binary_round_aux_shape s mz ez loc_Exact He Hf) as [_ H].
  cbv zeta in H.
  replace (rne (Zpos mz) (Z.max (Zpos (digits2_pos mz) - 53) 0))
    with (let mrs := fst (shr_fexp prec emax (Zpos mz) ez loc_Exact) in
          round_nearest_even (shr_m mrs) (loc_of_shr_record mrs)); [exact H|].
  unfold shr_fexp. cbn [Zdigits2 shr_record_of_loc].
  rewrite (fexp_shift _ _ He Hf).
  destruct (Z.max (Zpos (digits2_pos mz) - 53) 0) as [|n|n] eqn:En; [ | |lia];
    cbn [shr fst].
  - cbn [shr_m loc_of_shr_record round_nearest_even]. rewrite rne_0. reflexivity.
  - rewrite iter_pos_nat.
    destruct (Pos2Nat.is_succ n) as [k Ek]. rewrite Ek.
    rewrite round_after_shr by lia.
    rewrite <- Ek, positive_nat_Z. reflexivity.
Qed.

Lemma rne_shift (M k n : Z) :
  0 <= k -> 0 <= n -> rne (M * 2 ^ k) (n + k) = rne M n.
Proof.
  intros Hk Hn. unfold rne.
  pose proof (pow2_pos k Hk). pose proof (pow2_pos n Hn).
  rewrite (pow2_split n k) by lia.
  rewrite Z.div_mul_cancel_r by lia.
  rewrite Z.mul_mod_distr_r by lia.
  replace (2 * (M mod 2 ^ n * 2 ^ k)) with (2 * (M mod 2 ^ n) * 2 ^ k) by lia.
  rewrite <- (Zmult_compare_compat_r (2 * (M mod 2 ^ n)) (2 ^ n) (2 ^ k)) by lia.
  reflexivity.
Qed.

Lemma rnd_pos_repr (m : positive) (e : Z) :
  -1074 <= e -> 53 <= Zpos (digits2_pos m) \/ e = -1074 ->
  rnd_pos (Zpos m * 2 ^ (e + 1074)) =
    cap (rne (Zpos m) (Z.max (Zpos (digits2_pos m) - 53) 0)
         * 2 ^ (e + Z.max (Zpos (digits2_pos m) - 53) 0 + 1074)).
Proof.
  intros He Hd. unfold rnd_pos.
  rewrite Z.log2_mul_pow2 by lia.
  rewrite digits2_pos_log2 in *.
  set (l := Z.log2 (Zpos m)) in *.
  destruct (Z.le_gt_cases 53 (l + 1)) as [H53|H53].
  - replace (Z.max (e + 1074 + l - 52) 0) with ((l - 52) + (e + 1074)) by lia.
    replace (Z.max (l + 1 - 53) 0) with (l - 52) by lia.
    rewrite rne_shift by lia. f_equal. f_equal. f_equal. lia.
  - assert (e = -1074) as -> by lia.
    replace (-1074 + 1074) with 0 by lia. change (2 ^ 0) with 1. rewrite Z.mul_1_r.
    replace (Z.max (0 + l - 52) 0) with 0 by lia.
    replace (Z.max (l + 1 - 53) 0) with 0 by lia. reflexivity.
Qed.

Lemma iter_xO_val (m d : positive) : Zpos (Pos.iter xO m d) = Zpos m * 2 ^ Zpos d.
Proof.
  induction d as [|d IH] using Pos.peano_ind.
  - cbn [Pos.iter]. change (2 ^ 1) with 2. lia.
  - rewrite Pos.iter_succ, Pos2Z.inj_xO, IH, Pos2Z.inj_succ, Z.pow_succ_r by lia. lia.
Qed.

Lemma shl_align_spec (mx : positive) (ex ex' : Z) :
  snd (shl_align mx ex ex') = Z.min ex ex' /\
  Zpos (fst (shl_align mx ex ex')) = Zpos mx * 2 ^ (ex - Z.min ex ex').
Proof.
  unfold shl_align. destruct (ex' - ex) as [|d|d] eqn:E; cbn [fst snd].
  - replace (Z.min ex ex') with ex by lia. rewrite Z.sub_diag. cbn. lia.
  - replace (Z.min ex ex') with ex by lia. rewrite Z.sub_diag. cbn. lia.
  - replace (Z.min ex ex') with ex' by lia. rewrite iter_xO_val.
    replace (ex - ex') with (Zpos d) by lia. auto.
Qed.

Lemma digits2_pos_shift (m mz : positive) (j : Z) :
  0 <= j -> Zpos mz = Zpos m * 2 ^ j ->
  Zpos (digits2_pos mz) = Zpos (digits2_pos m) + j.
Proof.
  intros Hj E. rewrite !digits2_pos_log2, E, Z.log2_mul_pow2 by lia. lia.
Qed.

(** [binary_round] gives the rounded value. *)
Lemma binary_round_val (s : bool) (M : positive) (E : Z) :
  -1074 <= E ->
  SF2Z (binary_round prec emax s M E) = cond_Zopp s (rnd_pos (Zpos M * 2 ^ (E + 1074))) /\
  SFis_nan (binary_round prec emax s M E) = false.
Proof.
  intros HE. unfold binary_round.
  set (fe := fexp prec emax (Zpos (digits2_pos M) + E)).
  pose proof (shl_align_spec M E fe) as [Hs Hm].
  destruct (shl_align M E fe) as [mz ez]. cbn [fst snd] in Hs, Hm.
  assert (-1074 <= fe) as Hfe by (unfold fe, fexp, SpecFloat.emin, prec, emax; lia).
  assert (Zpos (digits2_pos mz) = Zpos (digits2_pos M) + (E - ez)) as Hd
    by (apply digits2_pos_shift; [lia | rewrite Hm; f_equal; f_equal; lia]).
  assert (fexp prec emax (Zpos (digits2_pos mz) + ez) = fe) as Hfz
    by (rewrite Hd; unfold fe; f_equal; lia).
  destruct (binary_round_aux_exact s mz ez) as [Hv Hnan]; [lia|rewrite Hfz; lia|].
  split; [|exact Hnan]. rewrite Hv.
  rewrite <- rnd_pos_repr.
  - f_equal. f_equal. rewrite Hm, <- Z.mul_assoc, <- pow2_split by lia. f_equal. f_equal. lia.
  - lia.
  - unfold fe, fexp, SpecFloat.emin, prec, emax in *. lia.
Qed.

Lemma rne_mono (X Y n : Z) : 0 <= n -> X <= Y -> rne X n <= rne Y n.
Proof.
  intros Hn HXY. unfold rne.
  pose proof (pow2_pos n Hn) as HP. set (P := 2 ^ n) in *.
  pose proof (Z.div_le_mono X Y P HP HXY) as Hq.
  pose proof (Z.div_mod X P ltac:(lia)) as EX.
  pose proof (Z.div_mod Y P ltac:(lia)) as EY.
  pose proof (Z.mod_pos_bound X P HP). pose proof (Z.mod_pos_bound Y P HP).
  set (qX := X / P) in *. set (qY := Y / P) in *.
  set (rX := X mod P) in *. set (rY := Y mod P) in *.
  destruct (Z.eq_dec qX qY) as [E|N].
  - rewrite <- E in *. assert (rX <= rY) by nia.
    destruct (Z.compare_spec (2 * rX) P), (Z.compare_spec (2 * rY) P);
      destruct (Z.even qX); lia.
  - assert (qX + 1 <= qY) by lia.
    destruct (Z.compare_spec (2 * rX) P), (Z.compare_spec (2 * rY) P);
      destruct (Z.even qX), (Z.even qY); lia.
Qed.

Lemma rne_nonneg (X n : Z) : 0 <= n -> 0 <= X -> 0 <= rne X n.
Proof.
  intros Hn HX. pose proof (rne_bounds X n).
  pose proof (Z.div_pos X (2 ^ n) HX (pow2_pos n Hn)). lia.
Qed.

Lemma rnd_pos_nonneg (X : Z) : 0 < X -> 0 <= rnd_pos X.
Proof.
  intros HX. unfold rnd_pos, cap.
  set (n := Z.max (Z.log2 X - 52) 0).
  pose proof (rne_nonneg X n ltac:(lia) ltac:(lia)).
  pose proof (pow2_pos n ltac:(lia)). pose proof Vinf_pos.
  destruct (_ <? _); nia.
Qed.

Lemma rnd_pos_mono (X Y : Z) : 0 < X -> X <= Y -> rnd_pos X <= rnd_pos Y.
Proof.
  intros HX HXY. unfold rnd_pos. apply cap_mono.
  pose proof (Z.log2_le_mono X Y HXY) as Hl.
  pose proof (Z.log2_nonneg X) as HlX.
  pose proof (Z.log2_spec X HX) as [HX1 HX2].
  pose proof (Z.log2_spec Y ltac:(lia)) as [HY1 HY2].
  set (lX := Z.log2 X) in *. set (lY := Z.log2 Y) in *.
  set (nX := Z.max (lX - 52) 0). set (nY := Z.max (lY - 52) 0).
  destruct (Z.eq_dec nX nY) as [E|N].
  - rewrite <- E. apply Z.mul_le_mono_nonneg_r; [apply Z.lt_le_incl, pow2_pos; lia|].
    apply rne_mono; lia.
  - assert (nX < nY) by lia. assert (lX + 1 <= lY) by lia.
    apply Z.le_trans with (2 ^ (lX + 1)); [|apply Z.le_trans with (2 ^ lY)].
    + pose proof (rne_bounds X nX) as [_ Hr].
      pose proof (pow2_pos nX ltac:(lia)) as HP.
      assert (2 ^ (lX + 1) = 2 ^ (lX + 1 - nX) * 2 ^ nX) as Ep
        by (rewrite <- pow2_split by lia; f_equal; lia).
      unfold Z.succ in HX2. rewrite Ep in HX2 |- *.
      assert (X / 2 ^ nX < 2 ^ (lX + 1 - nX)) by (apply Z.div_lt_upper_bound; lia).
      apply Z.mul_le_mono_nonneg_r; lia.
    + apply pow2_le. lia.
    + pose proof (rne_bounds Y nY) as [Hr _].
      pose proof (pow2_pos nY ltac:(lia)) as HP.
      assert (2 ^ lY = 2 ^ (lY - nY) * 2 ^ nY) as Ep
        by (rewrite <- pow2_split by lia; f_equal; lia).
      rewrite Ep in HY1 |- *.
      assert (2 ^ (lY - nY) <= Y / 2 ^ nY) by (apply Z.div_le_lower_bound; lia).
      apply Z.mul_le_mono_nonneg_r; lia.
Qed.

Lemma rnd_mono (X Y : Z) : X <= Y -> rnd X <= rnd Y.
Proof.
  intros HXY. unfold rnd.
  pose proof (rnd_pos_nonneg X). pose proof (rnd_pos_nonneg Y).
  pose proof (rnd_pos_nonneg (- X)). pose proof (rnd_pos_nonneg (- Y)).
  pose proof (rnd_pos_mono X Y). pose proof (rnd_pos_mono (- Y) (- X)).
  destruct (Z.ltb_spec 0 X), (Z.ltb_spec 0 Y), (Z.ltb_spec X 0), (Z.ltb_spec Y 0); lia.
Qed.

Lemma rnd_0 : rnd 0 = 0.
Proof. reflexivity. Qed.

Lemma rnd_opp (X : Z) : rnd (- X) = - rnd X.
Proof.
  unfold rnd.
  destruct (Z.ltb_spec 0 X), (Z.ltb_spec 0 (- X)), (Z.ltb_spec X 0), (Z.ltb_spec (- X) 0);
    try lia.
  rewrite Z.opp_involutive. reflexivity.
Qed.

(** A valid number is its own rounding. *)
Lemma rnd_pos_bounded (m : positive) (e : Z) :
  bounded prec emax m e = true ->
  rnd_pos (Zpos m * 2 ^ (e + 1074)) = Zpos m * 2 ^ (e + 1074).
Proof.
  intros Hb. pose proof (bounded_lt_Vinf _ _ Hb) as [_ Hlt].
  rewrite bounded_spec in Hb.
  rewrite rnd_pos_repr by lia.
  replace (Z.max (Zpos (digits2_pos m) - 53) 0) with 0 by lia.
  rewrite rne_0, Z.add_0_r. unfold cap.
  apply Z.ltb_lt in Hlt. rewrite Hlt. reflexivity.
Qed.

Lemma rnd_valid (x : spec_float) :
  valid_binary x = true -> SFis_finite x = true -> rnd (SF2Z x) = SF2Z x.
Proof.
  destruct x as [s|s| |s m e]; cbn [valid_binary SFis_finite SF2Z]; intros Hv Hf;
    try discriminate; [reflexivity|].
  pose proof (bounded_lt_Vinf _ _ Hv) as [Hpos _].
  destruct s; cbn [cond_Zopp].
  - rewrite rnd_opp. f_equal. unfold rnd.
    apply Z.ltb_lt in Hpos. rewrite Hpos. apply rnd_pos_bounded, Hv.
  - unfold rnd. apply Z.ltb_lt in Hpos. rewrite Hpos. apply rnd_pos_bounded, Hv.
Qed.

Lemma binary_normalize_val (M E : Z) (szero : bool) :
  -1074 <= E ->
  SF2Z (binary_normalize prec emax M E szero) = rnd (M * 2 ^ (E + 1074)) /\
  SFis_nan (binary_normalize prec emax M E szero) = false.
Proof.
  intros HE. pose proof (pow2_pos (E + 1074) ltac:(lia)) as HP.
  destruct M as [|p|p]; cbn [binary_normalize].
  - split; reflexivity.
  - destruct (binary_round_val false p E HE) as [Hv Hn]. split; [|exact Hn].
    rewrite Hv. cbn [cond_Zopp]. unfold rnd.
    assert (0 < Zpos p * 2 ^ (E + 1074)) as H by (apply Z.mul_pos_pos; lia).
    apply Z.ltb_lt in H. rewrite H. reflexivity.
  - destruct (binary_round_val true p E HE) as [Hv Hn]. split; [|exact Hn].
    rewrite Hv. cbn [cond_Zopp].
    replace (Zneg p * 2 ^ (E + 1074)) with (- (Zpos p * 2 ^ (E + 1074))) by lia.
    rewrite rnd_opp. f_equal. unfold rnd.
    assert (0 < Zpos p * 2 ^ (E + 1074)) as H by (apply Z.mul_pos_pos; lia).
    apply Z.ltb_lt in H. rewrite H. reflexivity.
Qed.

Lemma shl_align_fst_val (m : positive) (e e' : Z) :
  -1074 <= e -> -1074 <= e' ->
  Zpos (fst (shl_align m e (Z.min e e'))) * 2 ^ (Z.min e e' + 1074) = Zpos m * 2 ^ (e + 1074).
Proof.
  intros He He'. pose proof (shl_align_spec m e (Z.min e e')) as [_ H].
  rewrite H. replace (Z.min e (Z.min e e')) with (Z.min e e') by lia.
  rewrite <- Z.mul_assoc, <- pow2_split by lia. f_equal. f_equal. lia.
Qed.

Lemma bounded_emin (m : positive) (e : Z) : bounded prec emax m e = true -> -1074 <= e.
Proof. rewrite bounded_spec. lia. Qed.

Lemma cond_Zopp_mul (s : bool) (a b : Z) : cond_Zopp s a * b = cond_Zopp s (a * b).
Proof. destruct s; cbn [cond_Zopp]; lia. Qed.

(** Subtraction and addition of finite numbers: the exact result, rounded. *)
Lemma SFsub_val (x y : spec_float) :
  valid_binary x = true -> valid_binary y = true ->
  SFis_finite x = true -> SFis_finite y = true ->
  SF2Z (SF64sub x y) = rnd (SF2Z x - SF2Z y) /\ SFis_nan (SF64sub x y) = false.
Proof.
  intros Vx Vy Fx Fy.
  destruct x as [sx|sx| |sx mx ex], y as [sy|sy| |sy my ey]; try discriminate;
    unfold SF64sub; cbn [SFsub].
  - split; [|destruct sx, sy; reflexivity]. destruct sx, sy; reflexivity.
  - split; [|reflexivity].
    change (SF2Z (S754_zero sx)) with 0. rewrite Z.sub_0_l, rnd_opp.
    rewrite (rnd_valid _ Vy Fy). cbn [SF2Z]. destruct sy; cbn [negb cond_Zopp]; lia.
  - split; [|reflexivity].
    change (SF2Z (S754_zero sy)) with 0. rewrite Z.sub_0_r.
    symmetry. apply (rnd_valid _ Vx Fx).
  - cbn [valid_binary] in Vx, Vy.
    pose proof (bounded_emin _ _ Vx). pose proof (bounded_emin _ _ Vy).
    destruct (binary_normalize_val
      (cond_Zopp sx (Zpos (fst (shl_align mx ex (Z.min ex ey))))
       - cond_Zopp sy (Zpos (fst (shl_align my ey (Z.min ex ey)))))
      (Z.min ex ey) false ltac:(lia)) as [Hv Hn].
    split; [|exact Hn]. rewrite Hv. f_equal. cbn [SF2Z].
    rewrite Z.mul_sub_distr_r, !cond_Zopp_mul.
    rewrite shl_align_fst_val by lia.
    rewrite (Z.min_comm ex ey), shl_align_fst_val by lia. reflexivity.
Qed.

Lemma SFadd_val (x y : spec_float) :
  valid_binary x = true -> valid_binary y = true ->
  SFis_finite x = true -> SFis_finite y = true ->
  SF2Z (SF64add x y) = rnd (SF2Z x + SF2Z y) /\ SFis_nan (SF64add x y) = false.
Proof.
  intros Vx Vy Fx Fy.
  destruct x as [sx|sx| |sx mx ex], y as [sy|sy| |sy my ey]; try discriminate;
    unfold SF64add; cbn [SFadd].
  - split; [|destruct sx, sy; reflexivity]. destruct sx, sy; reflexivity.
  - split; [|reflexivity].
    change (SF2Z (S754_zero sx)) with 0. rewrite Z.add_0_l.
    symmetry. apply (rnd_valid _ Vy Fy).
  - split; [|reflexivity].
    change (SF2Z (S754_zero sy)) with 0. rewrite Z.add_0_r.
    symmetry. apply (rnd_valid _ Vx Fx).
  - cbn [valid_binary] in Vx, Vy.
    pose proof (bounded_emin _ _ Vx). pose proof (bounded_emin _ _ Vy).
    destruct (binary_normalize_val
      (cond_Zopp sx (Zpos (fst (shl_align mx ex (Z.min ex ey))))
       + cond_Zopp sy (Zpos (fst (shl_align my ey (Z.min ex ey)))))
      (Z.min ex ey) false ltac:(lia)) as [Hv Hn].
    split; [|exact Hn]. rewrite Hv. f_equal. cbn [SF2Z].
    rewrite Z.mul_add_distr_r, !cond_Zopp_mul.
    rewrite shl_align_fst_val by lia.
    rewrite (Z.min_comm ex ey), shl_align_fst_val by lia. reflexivity.
Qed.

(** ** Primitive floats *)

Local Open Scope float_scope.

Lemma leb_true_iff (x y : float) :
  (x <=? y) = true <-> is_nanb x = false /\ is_nanb y = false /\ (F2Z x <= F2Z y)%Z.
Proof.
  rewrite FloatAxioms.leb_spec. unfold SFleb, is_nanb, F2Z.
  destruct (SFis_nan (Prim2SF x)) eqn:Nx.
  { destruct (Prim2SF x); try discriminate. cbn. intuition discriminate. }
  destruct (SFis_nan (Prim2SF y)) eqn:Ny.
  { destruct (Prim2SF y); try discriminate.
    destruct (Prim2SF x); cbn; intuition discriminate. }
  rewrite (SFcompare_val _ _ (Prim2SF_valid x) (Prim2SF_valid y) Nx Ny).
  destruct (Z.compare_spec (SF2Z (Prim2SF x)) (SF2Z (Prim2SF y))); intuition (try discriminate; lia).
Qed.

Lemma ltb_true_iff (x y : float) :
  (x <? y) = true <-> is_nanb x = false /\ is_nanb y = false /\ (F2Z x < F2Z y)%Z.
Proof.
  rewrite FloatAxioms.ltb_spec. unfold SFltb, is_nanb, F2Z.
  destruct (SFis_nan (Prim2SF x)) eqn:Nx.
  { destruct (Prim2SF x); try discriminate. cbn. intuition discriminate. }
  destruct (SFis_nan (Prim2SF y)) eqn:Ny.
  { destruct (Prim2SF y); try discriminate.
    destruct (Prim2SF x); cbn; intuition discriminate. }
  rewrite (SFcompare_val _ _ (Prim2SF_valid x) (Prim2SF_valid y) Nx Ny).
  destruct (Z.compare_spec (SF2Z (Prim2SF x)) (SF2Z (Prim2SF y))); intuition (try discriminate; lia).
Qed.

Lemma leb_trans (x y z : float) :
  (x <=? y) = true -> (y <=? z) = true -> (x <=? z) = true.
Proof. rewrite !leb_true_iff. intuition lia. Qed.

Lemma finiteb_not_nan (x : float) : finiteb x = true -> is_nanb x = false.
Proof. unfold finiteb, is_nanb. destruct (Prim2SF x); cbn; congruence. Qed.

(** A number that is not NaN and lies between two finite ones is finite. *)
Lemma finiteb_between (x y z : float) :
  finiteb x = true -> finiteb z = true -> is_nanb y = false ->
  (F2Z x <= F2Z y <= F2Z z)%Z -> finiteb y = true.
Proof.
  unfold finiteb, is_nanb, F2Z. intros Fx Fz Ny H.
  pose proof (Prim2SF_valid x) as Vx. pose proof (Prim2SF_valid z) as Vz.
  pose proof Vinf_pos.
  assert (forall u, valid_binary u = true -> SFis_finite u = true ->
                    (- Vinf < SF2Z u < Vinf)%Z) as Hb.
  { intros [s|s| |s m e]; cbn [valid_binary SFis_finite SF2Z]; intros Hv Hf;
      try discriminate; [lia|].
    pose proof (bounded_lt_Vinf _ _ Hv). destruct s; cbn [cond_Zopp]; lia. }
  pose proof (Hb _ Vx Fx). pose proof (Hb _ Vz Fz).
  destruct (Prim2SF y) as [s|s| |s m e]; cbn [SFis_finite SFis_nan SF2Z] in *;
    try reflexivity; try discriminate.
  destruct s; cbn [cond_Zopp] in *; lia.
Qed.

Lemma sub_val (x y : float) :
  finiteb x = true -> finiteb y = true ->
  F2Z (x - y) = rnd (F2Z x - F2Z y) /\ is_nanb (x - y) = false.
Proof.
  intros Fx Fy. unfold F2Z, is_nanb. rewrite FloatAxioms.sub_spec.
  apply SFsub_val; auto using Prim2SF_valid.
Qed.

Lemma add_val (x y : float) :
  finiteb x = true -> finiteb y = true ->
  F2Z (x + y) = rnd (F2Z x + F2Z y) /\ is_nanb (x + y) = false.
Proof.
  intros Fx Fy. unfold F2Z, is_nanb. rewrite FloatAxioms.add_spec.
  apply SFadd_val; auto using Prim2SF_valid.
Qed.

Lemma abs_val (x : float) :
  F2Z (abs x) = Z.abs (F2Z x) /\ is_nanb (abs x) = is_nanb x.
Proof.
  unfold F2Z, is_nanb. rewrite FloatAxioms.abs_spec.
  pose proof (Prim2SF_valid x) as Vx. pose proof Vinf_pos.
  destruct (Prim2SF x) as [s|s| |s m e]; cbn [SFabs SF2Z SFis_nan valid_binary] in *;
    split; try reflexivity.
  - destruct s; cbn [cond_Zopp]; lia.
  - pose proof (bounded_lt_Vinf _ _ Vx). destruct s; cbn [cond_Zopp]; lia.
Qed.

Lemma Prim2SF_infinity (x : float) : Prim2SF x = S754_infinity false -> x = infinity.
Proof. intros H. rewrite <- (SF2Prim_Prim2SF x), H. reflexivity. Qed.

(** On finite spikes the test compares the rounded difference of the values. *)
Lemma within_finite (dt a b : float) :
  finiteb a = true -> finiteb b = true ->
  within dt a b = true <->
  is_nanb dt = false /\ (Z.abs (rnd (F2Z a - F2Z b)) <= F2Z dt)%Z.
Proof.
  intros Fa Fb. unfold within. rewrite leb_true_iff.
  destruct (sub_val a b Fa Fb) as [Hv Hn].
  destruct (abs_val (a - b)) as [Hav Han].
  rewrite Hav, Han, Hn, Hv. intuition.
Qed.

(** Unless delta-t is the positive infinity, the test holds between finite
    spikes only. *)
Lemma within_true_finite (dt a b : float) :
  dt <> infinity -> within dt a b = true -> finiteb a = true /\ finiteb b = true.
Proof.
  intros Hdt. unfold within. rewrite leb_true_iff. intros (Hn & Hndt & Hle).
  destruct (abs_val (a - b)) as [Hav Han]. rewrite Han in Hn. rewrite Hav in Hle.
  unfold F2Z, is_nanb, finiteb in *. rewrite FloatAxioms.sub_spec in Hn, Hle.
  pose proof (Prim2SF_valid dt) as Vdt. pose proof Vinf_pos.
  assert (SF2Z (Prim2SF dt) < Vinf)%Z as Hlt.
  { pose proof (Prim2SF_infinity dt).
    destruct (Prim2SF dt) as [s|s| |s m e]; cbn [SF2Z valid_binary] in *; try lia.
    - destruct s; [cbn; lia|]. exfalso. auto.
    - pose proof (bounded_lt_Vinf _ _ Vdt). destruct s; cbn [cond_Zopp]; lia. }
  destruct (Prim2SF a) as [sa|sa| |sa ma ea], (Prim2SF b) as [sb|sb| |sb mb eb];
    cbn [SFis_finite]; auto; exfalso;
    unfold SF64sub in *; cbn [SFsub SFis_nan SF2Z cond_Zopp] in *;
    try discriminate;
    try (destruct sa); try (destruct sb); cbn [negb SFis_nan SF2Z cond_Zopp] in *;
    try discriminate; lia.
Qed.


End ValueTheory.

(** ** Addition commutes *)

Section Binary64.

(** Addition of two binary64 values does not depend on their order. *)
Lemma SFadd_comm (x y : spec_float) : SF64add x y = SF64add y x.
Proof.
  unfold SF64add, SFadd.
  destruct x as [sx|sx| |sx mx ex], y as [sy|sy| |sy my ey]; try reflexivity;
    try (destruct sx, sy; reflexivity).
  rewrite (Z.min_comm ey ex), Z.add_comm. reflexivity.
Qed.

Lemma float_add_comm (x y : float) : x + y = y + x.
Proof.
  apply Prim2SF_inj. rewrite !FloatAxioms.add_spec. apply SFadd_comm.
Qed.

End Binary64.

(** ** The number of steps: [ceil], [+ 1] and the conversion *)

Section Steps.

Local Open Scope Z_scope.

Lemma rne_exact (Y n : Z) : 0 <= n -> rne (Y * 2 ^ n) n = Y.
Proof.
  intros Hn. unfold rne. pose proof (pow2_pos n Hn).
  rewrite Z.div_mul, Z.mod_mul by lia.
  assert ((2 * 0 ?= 2 ^ n) = Lt) as -> by (apply Z.compare_lt_iff; lia).
  reflexivity.
Qed.

(** The integers up to 2^53 are binary64 numbers. *)
Lemma rnd_pos_int (z : Z) : 0 < z <= 2 ^ 53 -> rnd_pos (z * 2 ^ 1074) = z * 2 ^ 1074.
Proof.
  intros Hz. destruct (Z.eq_dec z (2 ^ 53)) as [->|Hne]; [vm_compute; reflexivity|].
  unfold rnd_pos. rewrite Z.log2_mul_pow2 by lia.
  pose proof (Z.log2_nonneg z). pose proof (Z.log2_spec z ltac:(lia)) as [Hl Hu].
  assert (Z.log2 z <= 52).
  { destruct (Z.le_gt_cases (Z.log2 z) 52); [assumption|].
    pose proof (pow2_le 53 (Z.log2 z) ltac:(lia)). lia. }
  set (l := Z.log2 z) in *.
  replace (Z.max (1074 + l - 52) 0) with (l + 1022) by lia.
  replace (z * 2 ^ 1074) with (z * 2 ^ (52 - l) * 2 ^ (l + 1022))
    by (rewrite <- Z.mul_assoc, <- pow2_split by lia; f_equal; f_equal; lia).
  rewrite rne_exact by lia. unfold cap.
  replace (z * 2 ^ (52 - l) * 2 ^ (l + 1022)) with (z * 2 ^ 1074)
    by (rewrite <- Z.mul_assoc, <- pow2_split by lia; f_equal; f_equal; lia).
  assert (z * 2 ^ 1074 < Vinf) as Hlt.
  { unfold Vinf. replace 2098 with (1024 + 1074) by lia.
    rewrite (pow2_split 1024 1074) by lia.
    apply Z.mul_lt_mono_pos_r; [apply pow2_pos; lia|].
    pose proof (pow2_le 53 1024 ltac:(lia)).
    assert (2 ^ 53 < 2 ^ 1024) by (apply Z.pow_lt_mono_r; lia). lia. }
  apply Z.ltb_lt in Hlt. rewrite Hlt. reflexivity.
Qed.

Lemma rnd_int (z : Z) : - 2 ^ 53 <= z <= 2 ^ 53 -> rnd (z * 2 ^ 1074) = z * 2 ^ 1074.
Proof.
  intros Hz. pose proof (pow2_pos 1074 ltac:(lia)) as HP. unfold rnd.
  destruct (Z.ltb_spec 0 (z * 2 ^ 1074)) as [H|H].
  - apply rnd_pos_int. nia.
  - destruct (Z.ltb_spec (z * 2 ^ 1074) 0) as [H'|H']; [|nia].
    replace (- (z * 2 ^ 1074)) with ((- z) * 2 ^ 1074) by lia.
    rewrite rnd_pos_int by nia. lia.
Qed.

Lemma SF_not_nan_finite (x : spec_float) :
  SFis_nan x = false -> - Vinf < SF2Z x < Vinf -> SFis_finite x = true.
Proof.
  pose proof Vinf_pos.
  destruct x as [s|s| |s m e]; cbn [SFis_nan SFis_finite SF2Z]; intros Hn Hv;
    try reflexivity; try discriminate.
  destruct s; cbn [cond_Zopp] in Hv; lia.
Qed.

Lemma int_lt_Vinf (z : Z) : - 2 ^ 53 <= z <= 2 ^ 53 -> - Vinf < z * 2 ^ 1074 < Vinf.
Proof.
  intros Hz. unfold Vinf. replace 2098 with (1024 + 1074) by lia.
  rewrite (pow2_split 1024 1074) by lia.
  pose proof (pow2_pos 1074 ltac:(lia)).
  assert (2 ^ 53 < 2 ^ 1024) by (apply Z.pow_lt_mono_r; lia). nia.
Qed.

Local Open Scope float_scope.

(** [( double ) z] for an integer up to 2^53. *)
Lemma of_uint63_val (z : Z) :
  (0 <= z <= 2 ^ 53)%Z ->
  F2Z (of_uint63 (Uint63.of_Z z)) = (z * 2 ^ 1074)%Z /\
  finiteb (of_uint63 (Uint63.of_Z z)) = true.
Proof.
  intros Hz. unfold F2Z, finiteb. rewrite of_uint63_spec.
  assert (Uint63.to_Z (Uint63.of_Z z) = z) as ->.
  { rewrite Uint63.of_Z_spec. apply Z.mod_small.
    change wB with (2 ^ 63)%Z.
    assert (2 ^ 53 < 2 ^ 63)%Z by (apply Z.pow_lt_mono_r; lia). lia. }
  destruct (binary_normalize_val z 0 false ltac:(lia)) as [Hv Hn].
  change (0 + 1074)%Z with 1074%Z in Hv. rewrite rnd_int in Hv by lia.
  split; [exact Hv|].
  apply SF_not_nan_finite; [exact Hn|]. rewrite Hv. apply int_lt_Vinf. lia.
Qed.

Lemma double_of_nat_val (n : nat) :
  (Z.of_nat n <= 2 ^ 53)%Z ->
  F2Z (double_of_nat n) = (Z.of_nat n * 2 ^ 1074)%Z /\ finiteb (double_of_nat n) = true.
Proof. intros H. apply of_uint63_val. lia. Qed.

Lemma opp_val (x : float) : F2Z (- x) = (- F2Z x)%Z /\ finiteb (- x) = finiteb x.
Proof.
  unfold F2Z, finiteb. rewrite FloatAxioms.opp_spec.
  destruct (Prim2SF x) as [s|s| |s m e]; cbn [SFopp SF2Z SFis_finite];
    split; try reflexivity; destruct s; cbn [negb cond_Zopp]; lia.
Qed.

Lemma div_pow2_shift (a e : Z) :
  (-1074 <= e < 0)%Z -> (a * 2 ^ (e + 1074) / 2 ^ 1074 = a / 2 ^ (- e))%Z.
Proof.
  intros He.
  replace (2 ^ 1074)%Z with (2 ^ (- e) * 2 ^ (e + 1074))%Z
    by (rewrite <- pow2_split by lia; f_equal; lia).
  apply Z.div_mul_cancel_r; apply Z.neq_sym, Z.lt_neq, pow2_pos; lia.
Qed.

(** [ceil] of a finite number is the integer [Zceil]. *)
Lemma ceil_val (x : float) :
  finiteb x = true ->
  F2Z (ceil x) = (Zceil x * 2 ^ 1074)%Z /\ finiteb (ceil x) = true.
Proof.
  unfold Zceil, ceil, finiteb, F2Z at 2. intros Fx.
  pose proof (Prim2SF_valid x) as Vx.
  destruct (Prim2SF x) as [s|s| |s m e] eqn:E; try discriminate.
  - unfold F2Z, finiteb. rewrite E. cbn. auto.
  - cbn [valid_binary] in Vx.
    pose proof (bounded_emin _ _ Vx) as He.
    pose proof (digits2_pos_bounds m) as [_ Hm].
    assert (Zpos m < 2 ^ 53)%Z as Hm53.
    { apply bounded_spec in Vx.
      pose proof (pow2_le (Zpos (digits2_pos m)) 53 ltac:(lia)). lia. }
    cbn [SF2Z].
    destruct (Z.ltb_spec e 0) as [Hneg|Hpos].
    + pose proof (pow2_pos (- e) ltac:(lia)) as HP.
      destruct s; cbn [cond_Zopp].
      * rewrite Z.opp_involutive, div_pow2_shift by lia.
        assert (0 <= Zpos m / 2 ^ (- e) <= Zpos m)%Z as Hq.
        { split; [apply Z.div_pos; lia|]. apply Z.div_le_upper_bound; nia. }
        destruct (of_uint63_val (Zpos m / 2 ^ (- e)) ltac:(lia)) as [Hv Hf].
        destruct (opp_val (of_uint63 (of_Z (Zpos m / 2 ^ (- e))))) as [Hov Hof].
        unfold finiteb in *. rewrite Hov, Hof, Hv. split; [lia|assumption].
      * replace (- (Zpos m * 2 ^ (e + 1074)))%Z with (Zneg m * 2 ^ (e + 1074))%Z by lia.
        rewrite div_pow2_shift by lia.
        assert (0 <= - (Zneg m / 2 ^ (- e)) <= Zpos m)%Z as Hq.
        { pose proof (Z.div_le_upper_bound (Zneg m) (2 ^ (- e)) 0 HP ltac:(lia)).
          pose proof (Z.div_le_lower_bound (Zneg m) (2 ^ (- e)) (Zneg m) HP ltac:(nia)).
          lia. }
        apply of_uint63_val. lia.
    + unfold F2Z, finiteb. rewrite E. cbn [SF2Z SFis_finite]. split; [|reflexivity].
      pose proof (pow2_pos 1074 ltac:(lia)).
      replace (2 ^ (e + 1074))%Z with (2 ^ e * 2 ^ 1074)%Z by (rewrite <- pow2_split; lia).
      destruct s; cbn [cond_Zopp].
      * rewrite Z.opp_involutive, Z.mul_assoc, Z.div_mul by lia. lia.
      * replace (- (Zpos m * (2 ^ e * 2 ^ 1074)))%Z with (- (Zpos m * 2 ^ e) * 2 ^ 1074)%Z by lia.
        rewrite Z.div_mul by lia. lia.
Qed.

Lemma ceil_not_finite (x : float) : finiteb x = false -> ceil x = x.
Proof.
  unfold finiteb, ceil. destruct (Prim2SF x); cbn; try discriminate; reflexivity.
Qed.

(** The conversion to [unsigned int], through the value. *)
Lemma uint_of_double_val (y : float) :
  uint_of_double y =
    if finiteb y then
      let t := (Z.abs (F2Z y) / 2 ^ 1074)%Z in
      if (F2Z y <? 0)%Z then (if (t =? 0)%Z then Some 0%Z else None)
      else if (t <? 2 ^ 32)%Z then Some t else None
    else None.
Proof.
  unfold uint_of_double, finiteb, F2Z.
  pose proof (Prim2SF_valid y) as Vy.
  destruct (Prim2SF y) as [s|s| |s m e]; cbn [SFis_finite SF2Z]; try reflexivity.
  cbn [valid_binary] in Vy. pose proof (bounded_emin _ _ Vy) as He.
  pose proof (bounded_lt_Vinf _ _ Vy) as [Hpos _].
  assert ((if (0 <=? e)%Z then Zpos m * 2 ^ e else Zpos m / 2 ^ (- e))
          = Zpos m * 2 ^ (e + 1074) / 2 ^ 1074)%Z as ->.
  { destruct (Z.leb_spec 0 e).
    - pose proof (pow2_pos 1074 ltac:(lia)).
      rewrite pow2_split, Z.mul_assoc, Z.div_mul by lia. reflexivity.
    - rewrite div_pow2_shift by lia. reflexivity. }
  destruct s; cbn [cond_Zopp].
  - rewrite Z.abs_opp, Z.abs_eq by lia.
    assert ((- (Zpos m * 2 ^ (e + 1074)) <? 0)%Z = true) as -> by (apply Z.ltb_lt; lia).
    reflexivity.
  - rewrite Z.abs_eq by lia.
    assert ((Zpos m * 2 ^ (e + 1074) <? 0)%Z = false) as -> by (apply Z.ltb_ge; lia).
    reflexivity.
Qed.

Lemma F2Z_one : F2Z 1 = (2 ^ 1074)%Z /\ finiteb 1 = true.
Proof. split; vm_compute; reflexivity. Qed.

Lemma add_not_finite (x y : float) : finiteb x = false -> finiteb (x + y) = false.
Proof.
  unfold finiteb. rewrite FloatAxioms.add_spec. unfold SF64add.
  destruct (Prim2SF x) as [s|s| |s m e]; cbn [SFis_finite]; try discriminate; intros _;
    destruct (Prim2SF y) as [s'|s'| |s' m' e']; cbn [SFadd SFis_finite]; try reflexivity.
  destruct s, s'; reflexivity.
Qed.

Lemma finiteb_of_val (x : float) :
  is_nanb x = false -> (- Vinf < F2Z x < Vinf)%Z -> finiteb x = true.
Proof. apply SF_not_nan_finite. Qed.

(** The number of steps is defined exactly when the quotient is finite and
    its ceiling plus one fits [unsigned int]; it is then that integer. *)
Lemma steps_spec (q : float) (n : Z) :
  uint_of_double (ceil q + 1) = Some n <->
  finiteb q = true /\ n = (Zceil q + 1)%Z /\ (0 <= n < 2 ^ 32)%Z.
Proof.
  destruct F2Z_one as [V1 F1].
  pose proof (pow2_pos 1074 ltac:(lia)) as HP.
  assert (2 ^ 32 < 2 ^ 53)%Z as H3253 by (apply Z.pow_lt_mono_r; lia).
  rewrite uint_of_double_val.
  destruct (finiteb q) eqn:Fq.
  2: { rewrite (ceil_not_finite q Fq), (add_not_finite q 1 Fq).
       split; [discriminate|intros [? _]; discriminate]. }
  destruct (ceil_val q Fq) as [Vc Fc].
  destruct (add_val (ceil q) 1 Fc F1) as [Vy Ny].
  rewrite Vc, V1 in Vy.
  replace (Zceil q * 2 ^ 1074 + 2 ^ 1074)%Z with ((Zceil q + 1) * 2 ^ 1074)%Z in Vy by lia.
  set (c := (Zceil q + 1)%Z) in *. set (y := ceil q + 1) in *.
  destruct (Z.le_gt_cases c (2 ^ 53)) as [Hhi|Hhi];
    [destruct (Z.le_gt_cases (- 2 ^ 53) c) as [Hlo|Hlo]|].
  - (* the sum is exact *)
    rewrite rnd_int in Vy by lia.
    assert (finiteb y = true) as ->
      by (apply finiteb_of_val; [assumption | rewrite Vy; apply int_lt_Vinf; lia]).
    rewrite Vy. cbv zeta.
    destruct (Z.ltb_spec (c * 2 ^ 1074) 0) as [Hneg|Hpos].
    + assert (Z.abs (c * 2 ^ 1074) / 2 ^ 1074 = - c)%Z as ->
        by (rewrite Z.abs_neq by lia; replace (- (c * 2 ^ 1074))%Z with (- c * 2 ^ 1074)%Z by lia;
            apply Z.div_mul; lia).
      assert ((- c =? 0)%Z = false) as -> by (apply Z.eqb_neq; nia).
      split; [discriminate|]. intros (_ & -> & H). nia.
    + assert (Z.abs (c * 2 ^ 1074) / 2 ^ 1074 = c)%Z as ->
        by (rewrite Z.abs_eq by lia; apply Z.div_mul; lia).
      destruct (Z.ltb_spec c (2 ^ 32)).
      * split; [intros [= <-]; repeat split; auto; nia|]. intros (_ & -> & _). reflexivity.
      * split; [discriminate|]. intros (_ & -> & H'). lia.
  - (* far below zero *)
    pose proof (rnd_mono (c * 2 ^ 1074) (- 2 ^ 53 * 2 ^ 1074) ltac:(nia)) as Hm.
    rewrite (rnd_int (- 2 ^ 53)) in Hm by lia. rewrite <- Vy in Hm.
    split; [|intros (_ & -> & H'); lia].
    destruct (finiteb y); [|discriminate]. cbv zeta.
    assert ((F2Z y <? 0)%Z = true) as -> by (apply Z.ltb_lt; nia).
    assert ((Z.abs (F2Z y) / 2 ^ 1074 =? 0)%Z = false) as ->; [|discriminate].
    apply Z.eqb_neq. intros H0.
    assert (2 ^ 53 <= Z.abs (F2Z y) / 2 ^ 1074)%Z by (apply Z.div_le_lower_bound; lia).
    lia.
  - (* beyond 2^53 *)
    pose proof (rnd_mono (2 ^ 53 * 2 ^ 1074) (c * 2 ^ 1074) ltac:(nia)) as Hm.
    rewrite (rnd_int (2 ^ 53)) in Hm by lia. rewrite <- Vy in Hm.
    split; [|intros (_ & -> & H'); lia].
    destruct (finiteb y); [|discriminate]. cbv zeta.
    assert ((F2Z y <? 0)%Z = false) as -> by (apply Z.ltb_ge; nia).
    assert (2 ^ 53 <= Z.abs (F2Z y) / 2 ^ 1074)%Z by (apply Z.div_le_lower_bound; lia).
    assert ((Z.abs (F2Z y) / 2 ^ 1074 <? 2 ^ 32)%Z = false) as -> by (apply Z.ltb_ge; lia).
    discriminate.
Qed.

End Steps.

(** ** The delta-t of a step: [( double ) i / 1000.0] *)

Section StepValues.

Local Open Scope Z_scope.

Lemma Prim2SF_1000 : Prim2SF 1000%float = S754_finite false 8796093022208000 (-43).
Proof. vm_compute. reflexivity. Qed.

(** The shape of a binary64 number that is an integer from 1 to 2^32 - 1. *)
Lemma Prim2SF_int (x : float) (k : Z) :
  F2Z x = k * 2 ^ 1074 -> 1 <= k < 2 ^ 32 ->
  exists mx ex,
    Prim2SF x = S754_finite false mx ex /\
    Zpos (digits2_pos mx) = 53 /\ -52 <= ex <= -21 /\
    Zpos mx * 2 ^ (ex + 1074) = k * 2 ^ 1074.
Proof.
  unfold F2Z. intros HV Hk. pose proof (Prim2SF_valid x) as Vx.
  pose proof (pow2_pos 1074 ltac:(lia)) as HP.
  assert (2 ^ 32 < 2 ^ 53) as H3253 by (apply Z.pow_lt_mono_r; lia).
  pose proof (int_lt_Vinf k ltac:(lia)) as HkV.
  destruct (Prim2SF x) as [s|s| |s mx ex]; cbn [SF2Z valid_binary] in *;
    try (try destruct s; cbn [cond_Zopp] in HV; nia).
  pose proof (bounded_lt_Vinf _ _ Vx) as [Hpos _].
  destruct s; cbn [cond_Zopp] in HV; [nia|].
  exists mx, ex. split; [reflexivity|].
  pose proof (digits2_pos_bounds mx) as [Hl Hu].
  apply bounded_spec in Vx as [Hc _].
  assert (Zpos (digits2_pos mx) <= 53) as Hd by lia.
  pose proof (pow2_le (Zpos (digits2_pos mx)) 53 ltac:(lia)) as H53.
  change (2 ^ 53) with 9007199254740992 in H53.
  assert (-52 <= ex) as Hex1.
  { destruct (Z.le_gt_cases (-52) ex); [assumption|exfalso].
    pose proof (pow2_le (ex + 1074) 1021 ltac:(lia)).
    pose proof (pow2_pos (ex + 1074) ltac:(lia)).
    assert (2 ^ 1074 = 9007199254740992 * 2 ^ 1021) as E
      by (change 9007199254740992 with (2 ^ 53); rewrite <- pow2_split by lia; reflexivity).
    assert (Zpos mx * 2 ^ (ex + 1074) < 9007199254740992 * 2 ^ 1021).
    { apply Z.lt_le_trans with (9007199254740992 * 2 ^ (ex + 1074)).
      - apply Z.mul_lt_mono_pos_r; lia.
      - apply Z.mul_le_mono_nonneg_l; lia. }
    nia. }
  assert (Zpos (digits2_pos mx) = 53) as Ed by lia.
  rewrite Ed in Hl. change (2 ^ (53 - 1)) with 4503599627370496 in Hl.
  repeat split; auto.
  destruct (Z.le_gt_cases ex (-21)); [assumption|exfalso].
  pose proof (pow2_le 1054 (ex + 1074) ltac:(lia)).
  assert (2 ^ 32 * 2 ^ 1074 = 4503599627370496 * 2 ^ 1054) as E
    by (change 4503599627370496 with (2 ^ 52); rewrite <- !pow2_split by lia; reflexivity).
  assert (4503599627370496 * 2 ^ 1054 <= Zpos mx * 2 ^ (ex + 1074)).
  { apply Z.le_trans with (4503599627370496 * 2 ^ (ex + 1074)).
    - apply Z.mul_le_mono_nonneg_l; lia.
    - apply Z.mul_le_mono_nonneg_r; [apply Z.lt_le_incl, pow2_pos|]; lia. }
  nia.
Qed.

(** The quotient handed to the rounding when such a number is divided by
    1000. *)
Lemma SFdiv_core_1000 (mx : positive) (ex : Z) :
  Zpos (digits2_pos mx) = 53 -> -52 <= ex <= -21 ->
  exists lz,
    SFdiv_core_binary prec emax (Zpos mx) ex 8796093022208000 (-43) =
      (Zpos mx * 2 ^ 53 / 8796093022208000, ex - 10, lz).
Proof.
  intros Hd Hex. unfold SFdiv_core_binary. cbn [Zdigits2]. rewrite Hd.
  change (Zpos (digits2_pos 8796093022208000)) with 53.
  replace (Z.min (fexp prec emax (53 + ex - (53 + -43))) (ex - -43)) with (ex - 10)
    by (unfold fexp, SpecFloat.emin, prec, emax; lia).
  replace (ex - -43 - (ex - 10)) with 53 by lia.
  rewrite Z.shiftl_mul_pow2 by lia.
  unfold Z.div.
  destruct (Z.div_eucl (Zpos mx * 2 ^ 53) 8796093022208000) as [q r].
  eexists. reflexivity.
Qed.

Local Open Scope float_scope.

(** An integer from 1 to 2^32 - 1 divided by 1000: the quotient is finite
    and within one part in 2^52 of the exact quotient. *)
Lemma div1000_val (x : float) (k : Z) :
  F2Z x = (k * 2 ^ 1074)%Z -> (1 <= k < 2 ^ 32)%Z ->
  is_nanb (x / 1000) = false /\
  (k * 2 ^ 1074 - k * 2 ^ 1022 < 1000 * F2Z (x / 1000) <= k * 2 ^ 1074 + k * 2 ^ 1022)%Z.
Proof.
  intros HV Hk.
  destruct (Prim2SF_int x k HV Hk) as (mx & ex & E & Hd & Hex & Hval).
  unfold is_nanb, F2Z. rewrite FloatAxioms.div_spec, E, Prim2SF_1000.
  unfold SF64div. cbn [SFdiv xorb].
  destruct (SFdiv_core_1000 mx ex Hd Hex) as [lz ->].
  pose proof (digits2_pos_bounds mx) as [Hl Hu]. rewrite Hd in Hl, Hu.
  change (2 ^ (53 - 1))%Z with 4503599627370496%Z in Hl.
  change (2 ^ 53)%Z with 9007199254740992%Z in *.
  set (my := 8796093022208000%Z).
  assert (4503599627370496 <= Zpos mx * 9007199254740992 / my < 18014398509481984)%Z
    as [Hq1 Hq2].
  { split.
    - apply Z.div_le_lower_bound; unfold my; lia.
    - apply Z.div_lt_upper_bound; unfold my; lia. }
  destruct (Zpos mx * 9007199254740992 / my)%Z as [|q|q] eqn:Eq; [lia| |lia].
  pose proof (digits2_pos_bounds q) as [Hql Hqu].
  set (d := Zpos (digits2_pos q)) in *.
  assert (53 <= d <= 54)%Z as Hdq.
  { split.
    - destruct (Z.le_gt_cases 53 d); [assumption|exfalso].
      pose proof (pow2_le d 52 ltac:(lia)).
      change (2 ^ 52)%Z with 4503599627370496%Z in *. lia.
    - destruct (Z.le_gt_cases d 54); [assumption|exfalso].
      pose proof (pow2_le 54 (d - 1) ltac:(lia)).
      change (2 ^ 54)%Z with 18014398509481984%Z in *. lia. }
  destruct (binary_round_aux_shape false q (ex - 10) lz) as [Hm1 [Hv Hn]];
    [lia | fold d; unfold fexp, SpecFloat.emin, prec, emax; lia |].
  fold d in Hm1, Hv.
  set (n := Z.max (d - 53) 0) in *.
  set (m1 := round_nearest_even _ _) in *.
  split; [exact Hn|]. rewrite Hv. cbn [cond_Zopp].
  pose proof (pow2_pos n ltac:(lia)) as Hpn.
  set (A := (Zpos q / 2 ^ n)%Z) in *.
  assert (A * 2 ^ n <= Zpos q < (A + 1) * 2 ^ n)%Z as [HA1 HA2].
  { pose proof (Z.div_mod (Zpos q) (2 ^ n) ltac:(lia)).
    pose proof (Z.mod_pos_bound (Zpos q) (2 ^ n) Hpn). unfold A. nia. }
  assert (4503599627370496 <= A <= 9007199254740991)%Z as HA.
  { assert (d = 53 + n)%Z as Ed by lia. rewrite Ed in Hql, Hqu.
    replace (53 + n - 1)%Z with (52 + n)%Z in Hql by lia.
    rewrite (pow2_split 52 n) in Hql by lia. rewrite (pow2_split 53 n) in Hqu by lia.
    change (2 ^ 52)%Z with 4503599627370496%Z in *.
    change (2 ^ 53)%Z with 9007199254740992%Z in *.
    split.
    - apply Z.div_le_lower_bound; lia.
    - assert (Zpos q / 2 ^ n < 9007199254740992)%Z by (apply Z.div_lt_upper_bound; lia).
      unfold A. lia. }
  assert (Zpos q * my <= Zpos mx * 9007199254740992 < (Zpos q + 1) * my)%Z as [HQ1 HQ2].
  { pose proof (Z.div_mod (Zpos mx * 9007199254740992) my ltac:(unfold my; lia)).
    pose proof (Z.mod_pos_bound (Zpos mx * 9007199254740992) my ltac:(unfold my; lia)).
    rewrite Eq in *. nia. }
  (* everything in units of [U / 2^n], 2^43 taken out of the divisor *)
  set (U := (2 ^ (ex - 10 + n + 1074))%Z).
  assert (0 < U)%Z as HU by (apply pow2_pos; lia).
  set (P := (2 ^ (ex + 1021))%Z).
  assert (0 < P)%Z as HPp by (apply pow2_pos; lia).
  assert (U = 2 ^ n * P * 8796093022208)%Z as EU.
  { unfold U, P. change 8796093022208%Z with (2 ^ 43)%Z.
    rewrite <- (pow2_split n (ex + 1021)), <- (pow2_split (n + (ex + 1021)) 43) by lia.
    f_equal. lia. }
  assert (Zpos mx * 9007199254740992 * P = k * 2 ^ 1074)%Z as EX.
  { rewrite <- Hval. unfold P. change 9007199254740992%Z with (2 ^ 53)%Z.
    rewrite <- Z.mul_assoc, <- pow2_split by lia. f_equal. f_equal. lia. }
  assert (4503599627370496 * 2 ^ 1022 = 2 ^ 1074)%Z as E52
    by (change 4503599627370496%Z with (2 ^ 52)%Z; rewrite <- pow2_split by lia; reflexivity).
  pose proof (pow2_pos 1022 ltac:(lia)) as H1022.
  assert (m1 * U < Vinf)%Z as Hcap.
  { unfold Vinf, U.
    assert (2 ^ (ex - 10 + n + 1074) <= 2 ^ 1045)%Z by (apply pow2_le; lia).
    assert (2 ^ 54 * 2 ^ 1045 <= 2 ^ 2098)%Z
      by (rewrite <- pow2_split by lia; apply pow2_le; lia).
    change (2 ^ 54)%Z with 18014398509481984%Z in *.
    assert (m1 * 2 ^ (ex - 10 + n + 1074) <= 9007199254740992 * 2 ^ 1045)%Z
      by (apply Z.mul_le_mono_nonneg; lia).
    lia. }
  unfold cap. fold U. apply Z.ltb_lt in Hcap. rewrite Hcap.
  (* A * 2^n * my <= mx * 2^53 < (A + 1) * 2^n * my, times P *)
  assert (A * 2 ^ n * my <= Zpos mx * 9007199254740992)%Z as Hlow0.
  { apply Z.le_trans with (Zpos q * my)%Z; [|assumption].
    apply Z.mul_le_mono_nonneg_r; [unfold my|]; lia. }
  assert (Zpos mx * 9007199254740992 < (A + 1) * 2 ^ n * my)%Z as Hup0.
  { apply Z.lt_le_trans with ((Zpos q + 1) * my)%Z; [assumption|].
    apply Z.mul_le_mono_nonneg_r; [unfold my|]; lia. }
  assert (1000 * (A * U) <= k * 2 ^ 1074)%Z as Hlow.
  { replace (1000 * (A * U))%Z with (A * 2 ^ n * my * P)%Z by (rewrite EU; unfold my; lia).
    rewrite <- EX. apply Z.mul_le_mono_nonneg_r; lia. }
  assert (k * 2 ^ 1074 < 1000 * ((A + 1) * U))%Z as Hup.
  { replace (1000 * ((A + 1) * U))%Z with ((A + 1) * 2 ^ n * my * P)%Z
      by (rewrite EU; unfold my; lia).
    rewrite <- EX. apply Z.mul_lt_mono_pos_r; lia. }
  assert (1000 * U * 4503599627370496 <= k * 2 ^ 1074)%Z as Hulp by nia.
  rewrite <- E52 in Hulp.
  assert (1000 * U <= k * 2 ^ 1022)%Z by nia.
  nia.
Qed.

(** A step is below the next one. *)
Lemma dt_of_step_lt (i : nat) :
  (Z.of_nat (S i) < 2 ^ 32)%Z -> (dt_of_step i <? dt_of_step (S i)) = true.
Proof.
  intros Hi. apply ltb_true_iff. unfold dt_of_step.
  assert (2 ^ 32 < 2 ^ 53)%Z as H3253 by (apply Z.pow_lt_mono_r; lia).
  pose proof (pow2_pos 1022 ltac:(lia)) as H1022.
  assert (4503599627370496 * 2 ^ 1022 = 2 ^ 1074)%Z as E52
    by (change 4503599627370496%Z with (2 ^ 52)%Z; rewrite <- pow2_split by lia; reflexivity).
  change (2 ^ 32)%Z with 4294967296%Z in *.
  destruct (double_of_nat_val (S i) ltac:(lia)) as [V1 _].
  destruct (div1000_val _ _ V1 ltac:(lia)) as [N1 [L1 U1]].
  destruct i as [|i].
  - split; [vm_compute; reflexivity|]. split; [exact N1|].
    change (F2Z (double_of_nat 0 / 1000)) with 0%Z. nia.
  - destruct (double_of_nat_val (S i) ltac:(lia)) as [V0 _].
    destruct (div1000_val _ _ V0 ltac:(lia)) as [N0 [L0 U0]].
    split; [exact N0|]. split; [exact N1|].
    set (k := Z.of_nat (S i)) in *.
    replace (Z.of_nat (S (S i))) with (k + 1)%Z in * by lia.
    assert (k * 2 ^ 1022 <= 4294967296 * 2 ^ 1022)%Z
      by (apply Z.mul_le_mono_nonneg_r; lia).
    nia.
Qed.

(** The delta-t values of a sweep that stays below 2^32 steps grow strictly. *)
Lemma increasing_steps (a n : nat) :
  (Z.of_nat (a + n) <= 2 ^ 32)%Z -> increasing (map dt_of_step (seq a n)) = true.
Proof.
  revert a. induction n as [|n IH]; intros a H; [reflexivity|].
  destruct n as [|n]; [reflexivity|].
  change (increasing (map dt_of_step (seq a (S (S n)))))
    with ((dt_of_step a <? dt_of_step (S a)) && increasing (map dt_of_step (seq (S a) (S n)))).
  rewrite dt_of_step_lt by lia. rewrite IH by lia. reflexivity.
Qed.

(** Rounding a non-negative mantissa never gives NaN, and gives a number of
    the sign it was asked for. *)
Lemma binary_round_aux_sign (m e : Z) (l : location) :
  (0 <= m)%Z ->
  SFis_nan (binary_round_aux prec emax false m e l) = false /\
  (0 <= SF2Z (binary_round_aux prec emax false m e l))%Z.
Proof.
  intros Hm. unfold binary_round_aux.
  assert (forall m0 e0 l0, (0 <= m0)%Z ->
          (0 <= shr_m (fst (shr_fexp prec emax m0 e0 l0)))%Z) as Hshr.
  { intros m0 e0 l0 H0. unfold shr_fexp, shr.
    destruct (fexp prec emax (Zdigits2 m0 + e0) - e0)%Z; cbn [fst];
      rewrite ?iter_pos_nat, ?shr_m_iter, ?shr_m_of_loc; try (rewrite shr_m_of_loc); try lia.
    apply Z.div_pos; [lia|apply pow2_pos; lia]. }
  pose proof (Hshr m e l Hm) as H1.
  destruct (shr_fexp prec emax m e l) as [mrs' e']. cbn [fst] in H1.
  pose proof (round_nearest_even_bounds (shr_m mrs') (loc_of_shr_record mrs')) as Hr.
  pose proof (Hshr (round_nearest_even (shr_m mrs') (loc_of_shr_record mrs')) e' loc_Exact
                ltac:(lia)) as H2.
  destruct (shr_fexp prec emax _ e' loc_Exact) as [mrs'' e'']. cbn [fst] in H2.
  pose proof Vinf_pos.
  destruct (shr_m mrs'') as [|p|p]; [| |lia].
  - split; [reflexivity|cbn; lia].
  - destruct (e'' <=? emax - prec)%Z; cbn [SFis_nan SF2Z cond_Zopp]; split; try reflexivity; lia.
Qed.

(** A number that is not below zero, divided by a positive finite number. *)
Lemma div_nonneg_val (x y : float) (my : positive) (ey : Z) :
  is_nanb x = false -> (0 <= F2Z x)%Z -> Prim2SF y = S754_finite false my ey ->
  is_nanb (x / y) = false /\ (0 <= F2Z (x / y))%Z.
Proof.
  unfold is_nanb, F2Z. rewrite FloatAxioms.div_spec. intros Nx Hx ->.
  pose proof Vinf_pos. pose proof (Prim2SF_valid x) as Vx. unfold SF64div.
  destruct (Prim2SF x) as [s|s| |s mx ex]; cbn [SFis_nan SF2Z SFdiv valid_binary] in *;
    try discriminate.
  - split; [reflexivity|lia].
  - destruct s; cbn [cond_Zopp xorb SFis_nan SF2Z] in *; [lia|]. split; [reflexivity|lia].
  - pose proof (bounded_lt_Vinf _ _ Vx).
    destruct s; cbn [cond_Zopp xorb] in *; [lia|].
    unfold SFdiv_core_binary.
    set (m' := match _ with Zpos _ => _ | Z0 => _ | Zneg _ => _ end).
    assert (0 <= m')%Z as Hm'.
    { subst m'. destruct (ex - ey - _)%Z; try lia.
      rewrite Z.shiftl_mul_pow2 by lia. apply Z.mul_nonneg_nonneg; [lia|].
      apply Z.lt_le_incl, pow2_pos. lia. }
    pose proof (Z.div_pos m' (Zpos my) Hm' ltac:(lia)) as Hq. unfold Z.div in Hq.
    destruct (Z.div_eucl m' (Zpos my)) as [q r].
    apply binary_round_aux_sign. exact Hq.
Qed.

End StepValues.

(** * Properties of the program *)

(** ** The kernel: [run_T], [run_P], [run_sttc] *)

Section Kernel.

Variables (dt startv endv : float).

Lemma run_T_defined (t0 : float) (rest : list float) :
  exists tA, run_T dt startv endv (t0 :: rest) = Some tA.
Proof.
  destruct rest as [|t1 rest]; cbn [run_T]; eexists; reflexivity.
Qed.

Lemma run_T_none_iff (s : list float) :
  run_T dt startv endv s = None <-> s = [].
Proof.
  split.
  - destruct s as [|t0 rest]; [reflexivity|].
    destruct (run_T_defined t0 rest) as [tA E]. rewrite E. discriminate.
  - intros ->. reflexivity.
Qed.

(** With two non-empty trains [run_sttc] is the formula on the four
    proportions. *)
Lemma run_sttc_nonempty (s1 s2 : list float) (tA tB : float) :
  s1 <> [] -> s2 <> [] ->
  run_T dt startv endv s1 = Some tA ->
  run_T dt startv endv s2 = Some tB ->
  run_sttc dt (startv, endv) s1 s2 =
    Some (sttc_formula (tA / (endv - startv)) (tB / (endv - startv))
            (run_P dt s1 s2 / double_of_nat (length s1))
            (run_P dt s2 s1 / double_of_nat (length s2))).
Proof.
  intros H1 H2 EA EB. unfold run_sttc.
  destruct s1 as [|a s1]; [contradiction|].
  destruct s2 as [|b s2]; [contradiction|].
  cbn [length Nat.eqb orb fst snd]. rewrite EA, EB. reflexivity.
Qed.

(** With an empty train [run_sttc] is NaN. *)
Lemma run_sttc_empty (s1 s2 : list float) :
  s1 = [] \/ s2 = [] -> run_sttc dt (startv, endv) s1 s2 = Some nan.
Proof.
  unfold run_sttc. intros [-> | ->]; [reflexivity|].
  destruct s1; reflexivity.
Qed.

(** [run_sttc] never reads outside its trains. *)
Lemma run_sttc_defined (s1 s2 : list float) :
  exists c, run_sttc dt (startv, endv) s1 s2 = Some c.
Proof.
  destruct s1 as [|a s1]; [eexists; apply run_sttc_empty; now left|].
  destruct s2 as [|b s2]; [eexists; apply run_sttc_empty; now right|].
  destruct (run_T_defined a s1) as [tA EA], (run_T_defined b s2) as [tB EB].
  eexists. apply (run_sttc_nonempty _ _ tA tB); [discriminate|discriminate|assumption|assumption].
Qed.

End Kernel.

(** C1.  For two trains that are not empty and any window and delta-t, the
    coefficient [run_sttc] stores is
    [0.5 * (PA - TB) / (1 - TB * PA) + 0.5 * (PB - TA) / (1 - TA * PB)] with
    [TA] and [TB] the results of [run_T] divided by the window length and
    [PA] and [PB] the counts of [run_P] divided by the train lengths; the
    binary64 quotient is returned as it comes, no denominator is tested. *)
Theorem run_sttc_is_formula (dt startv endv : float) (train1 train2 : list float) :
  train1 <> [] -> train2 <> [] ->
  exists tA tB,
    run_T dt startv endv train1 = Some tA /\
    run_T dt startv endv train2 = Some tB /\
    run_sttc dt (startv, endv) train1 train2 =
      Some (let T_window := endv - startv in
            let TA := tA / T_window in
            let TB := tB / T_window in
            let PA := run_P dt train1 train2 / double_of_nat (length train1) in
            let PB := run_P dt train2 train1 / double_of_nat (length train2) in
            0.5 * (PA - TB) / (1 - TB * PA) + 0.5 * (PB - TA) / (1 - TA * PB)).
Proof.
  intros H1 H2.
  destruct train1 as [|a s1]; [contradiction|].
  destruct train2 as [|b s2]; [contradiction|].
  destruct (run_T_defined dt startv endv a s1) as [tA EA].
  destruct (run_T_defined dt startv endv b s2) as [tB EB].
  exists tA, tB. split; [assumption|]. split; [assumption|].
  rewrite (run_sttc_nonempty dt startv endv _ _ tA tB) by (assumption || discriminate).
  reflexivity.
Qed.

Lemma run_sttc_is_formula_witness :
  exists tA tB,
    run_T 0.001 0 10 [1; 5] = Some tA /\
    run_T 0.001 0 10 [1.001; 5.002] = Some tB /\
    run_sttc 0.001 (0, 10) [1; 5] [1.001; 5.002] =
      Some (let T_window := 10 - 0 in
            let TA := tA / T_window in
            let TB := tB / T_window in
            let PA := run_P 0.001 [1; 5] [1.001; 5.002] / double_of_nat 2 in
            let PB := run_P 0.001 [1.001; 5.002] [1; 5] / double_of_nat 2 in
            0.5 * (PA - TB) / (1 - TB * PA) + 0.5 * (PB - TA) / (1 - TA * PB)).
Proof.
  apply (run_sttc_is_formula 0.001 0 10 [1; 5] [1.001; 5.002]); discriminate.
Defined.

(** A zero denominator is not special-cased: one spike in the middle of a
    window of length 1 and a delta-t of 0.5 give 0/0 in both terms. *)
Example run_sttc_zero_denominator :
  run_sttc 0.5 (0, 1) [0.5] [0.5] = Some nan.
Proof. vm_compute. reflexivity. Qed.

(** Nor is a quotient by zero: with four spikes of five within delta-t of
    the single spike of train 2, whose [run_T] is 1.25 times the window,
    [1 - TB * PA] is 0 and the first term is minus infinity. *)
Example run_sttc_infinite :
  run_sttc 0.75 (0, 1) [0.25; 0.5; 0.5; 0.75; 100] [0.5] = Some neg_infinity.
Proof. vm_compute. reflexivity. Qed.

(** C7.  The coefficient does not depend on the order of the two trains. *)
Theorem run_sttc_symmetric (dt : float) (window : float * float) (train1 train2 : list float) :
  run_sttc dt window train1 train2 = run_sttc dt window train2 train1.
Proof.
  destruct window as [startv endv].
  destruct train1 as [|a s1].
  { rewrite !run_sttc_empty by auto. reflexivity. }
  destruct train2 as [|b s2].
  { rewrite !run_sttc_empty by auto. reflexivity. }
  destruct (run_T_defined dt startv endv a s1) as [tA EA].
  destruct (run_T_defined dt startv endv b s2) as [tB EB].
  rewrite (run_sttc_nonempty dt startv endv _ _ tA tB) by (assumption || discriminate).
  rewrite (run_sttc_nonempty dt startv endv _ _ tB tA) by (assumption || discriminate).
  unfold sttc_formula. f_equal. apply float_add_comm.
Qed.

(** A single spike closer than [dtv] to the window start: only the clip
    against the start is made, whatever the distance to the window end. *)
Lemma run_T_single_start (dtv startv endv t0 : float) :
  (t0 - startv <? dtv) = true ->
  run_T dtv startv endv [t0] = Some (2 * double_of_nat 1 * dtv - startv + t0 - dtv).
Proof.
  intros H. unfold run_T. cbn [length]. rewrite H. reflexivity.
Qed.

(** With two spikes or more the two clips are made one after the other. *)
Lemma run_T_multi_both (dtv startv endv t0 t1 : float) (rest : list float) :
  let s := t0 :: t1 :: rest in
  (t0 - startv <? dtv) = true ->
  (endv - last s t0 <? dtv) = true ->
  run_T dtv startv endv s =
    Some (run_T_overlap dtv s (2 * double_of_nat (length s) * dtv)
            - startv + t0 - dtv - last s t0 - dtv + endv).
Proof.
  intros s H0 H1. unfold run_T. fold s. unfold s at 1.
  rewrite H0, H1. reflexivity.
Qed.

(** C3.  A single spike closer than delta-t to the window start gets the
    clip against the start and no other, whatever its distance to the end.
    So for one spike at 0.5 in the window (0, 1) with a delta-t of 0.75: the
    coverage interval passes both ends of the window, [run_T] subtracts the
    part before the start only and returns 1.25, more than the window is
    long; with the same spike twice the multi-spike branch makes both clips
    and returns 1. *)
Theorem run_T_single_spike_one_clip :
  (forall dtv startv endv t0,
     (t0 - startv <? dtv) = true ->
     run_T dtv startv endv [t0] =
       Some (2 * double_of_nat 1 * dtv - startv + t0 - dtv)) /\
  (0.5 - 0 <? 0.75) = true /\ (1 <? 0.5 + 0.75) = true /\
  run_T 0.75 0 1 [0.5] = Some 1.25 /\
  run_T 0.75 0 1 [0.5; 0.5] = Some 1.
Proof.
  split; [exact run_T_single_start|]. vm_compute. repeat split; reflexivity.
Qed.

(** ** [run_P] counts the coincident spikes *)

Section RunP.

Variable dt : float.
Hypothesis dt_not_infinity : dt <> infinity.

Lemma nondecreasing_tail (a : float) (l : list float) :
  nondecreasing (a :: l) = true -> nondecreasing l = true.
Proof.
  destruct l as [|b l]; [reflexivity|]. cbn [nondecreasing].
  rewrite andb_true_iff. tauto.
Qed.

Lemma nondecreasing_head (a : float) (l : list float) :
  nondecreasing (a :: l) = true -> forall x, In x l -> (a <=? x) = true.
Proof.
  revert a. induction l as [|b l IH]; intros a H x Hx; [contradiction|].
  cbn [nondecreasing] in H. apply andb_true_iff in H as [Hab Hl].
  destruct Hx as [<-|Hx]; [assumption|].
  eapply leb_trans; [exact Hab|]. apply IH; assumption.
Qed.

(** A spike of train 2 the cursor has passed is not within delta-t of a
    later spike of train 1. *)
Lemma within_passed (a a' b : float) :
  within dt a b = false -> (a <? b) = false -> (a <=? a') = true ->
  within dt a' b = false.
Proof.
  intros Hw Hlt Hle. destruct (within dt a' b) eqn:Hw'; [exfalso|reflexivity].
  destruct (within_true_finite dt a' b dt_not_infinity Hw') as [Fa' Fb].
  apply leb_true_iff in Hle as (Na & Na' & Hle).
  pose proof (finiteb_not_nan _ Fb) as Nb.
  assert (F2Z b <= F2Z a)%Z as Hba.
  { destruct (Z.le_gt_cases (F2Z b) (F2Z a)); [assumption|].
    assert ((a <? b) = true) by (apply ltb_true_iff; auto). congruence. }
  assert (finiteb a = true) as Fa by (apply (finiteb_between b a a'); auto).
  apply (within_finite dt a' b Fa' Fb) in Hw' as [Ndt Hd'].
  assert (within dt a b = true); [|congruence].
  apply (within_finite dt a b Fa Fb). split; [assumption|].
  pose proof (rnd_mono 0 (F2Z a - F2Z b) ltac:(lia)) as H0.
  pose proof (rnd_mono (F2Z a - F2Z b) (F2Z a' - F2Z b) ltac:(lia)) as H1.
  rewrite rnd_0 in H0. lia.
Qed.

(** A spike of train 2 after the one the scan stopped at is no closer. *)
Lemma within_ahead (a b b' : float) :
  within dt a b = false -> (a <? b) = true -> (b <=? b') = true ->
  within dt a b' = false.
Proof.
  intros Hw Hlt Hle. destruct (within dt a b') eqn:Hw'; [exfalso|reflexivity].
  destruct (within_true_finite dt a b' dt_not_infinity Hw') as [Fa Fb'].
  apply leb_true_iff in Hle as (Nb & Nb' & Hle).
  apply ltb_true_iff in Hlt as (Na & _ & Hlt).
  assert (finiteb b = true) as Fb by (apply (finiteb_between a b b'); auto; lia).
  apply (within_finite dt a b' Fa Fb') in Hw' as [Ndt Hd'].
  assert (within dt a b = true); [|congruence].
  apply (within_finite dt a b Fa Fb). split; [assumption|].
  pose proof (rnd_mono (F2Z a - F2Z b) 0 ltac:(lia)) as H0.
  pose proof (rnd_mono (F2Z a - F2Z b') (F2Z a - F2Z b) ltac:(lia)) as H1.
  rewrite rnd_0 in H0. lia.
Qed.

(** One scan: the spike is counted exactly when train 2 has a spike within
    delta-t of it from the cursor on, and the spikes the cursor passes are
    out of reach of the spike and of those that follow it. *)
Lemma run_P_scan_spec (a : float) (cursor : list float) :
  nondecreasing cursor = true ->
  exists passed,
    cursor = passed ++ snd (run_P_scan dt a cursor) /\
    nondecreasing (snd (run_P_scan dt a cursor)) = true /\
    (forall b, In b passed -> within dt a b = false /\ (a <? b) = false) /\
    fst (run_P_scan dt a cursor) = existsb (within dt a) cursor.
Proof.
  induction cursor as [|b l IH]; intros Hs.
  - exists []. cbn. repeat split; try reflexivity; intros; contradiction.
  - cbn [run_P_scan existsb]. change (fabs (a - b) <=? dt) with (within dt a b).
    destruct (within dt a b) eqn:Hw.
    + exists []. cbn [fst snd app orb]. repeat split; auto; intros; contradiction.
    + destruct (a <? b) eqn:Hlt.
      * exists []. cbn [fst snd app orb]. repeat split; auto; try (intros; contradiction).
        symmetry. apply not_true_is_false. intros H.
        apply existsb_exists in H as (b' & Hin & Hb').
        rewrite (within_ahead a b b' Hw Hlt) in Hb'; [discriminate|].
        eapply nondecreasing_head; eassumption.
      * destruct (IH (nondecreasing_tail _ _ Hs)) as (passed & E & Hs' & Hp & Hf).
        exists (b :: passed). cbn [app orb]. rewrite <- E.
        split; [reflexivity|]. split; [assumption|]. split; [|assumption].
        intros b' [<-|Hin]; auto.
Qed.

(** The loop of [run_P] adds to [Nab] the number of coincident spikes. *)
Lemma run_P_loop_spec (train1 cursor : list float) (Nab : nat) :
  nondecreasing train1 = true -> nondecreasing cursor = true ->
  run_P_loop dt train1 cursor Nab =
    (Nab + length (filter (fun a => existsb (within dt a) cursor) train1))%nat.
Proof.
  revert cursor Nab. induction train1 as [|a l IH]; intros cursor Nab H1 H2.
  - cbn. lia.
  - cbn [run_P_loop filter].
    destruct (run_P_scan_spec a cursor H2) as (passed & E & Hs' & Hp & Hf).
    destruct (run_P_scan dt a cursor) as [hit cursor']. cbn [fst snd] in *.
    rewrite (IH cursor' _ (nondecreasing_tail _ _ H1) Hs').
    assert (filter (fun a0 => existsb (within dt a0) cursor') l =
            filter (fun a0 => existsb (within dt a0) cursor) l) as ->.
    { apply filter_ext_in. intros a' Ha'.
      rewrite E, existsb_app.
      replace (existsb (within dt a') passed) with false; [reflexivity|].
      symmetry. apply not_true_is_false. intros H.
      apply existsb_exists in H as (b & Hin & Hb).
      destruct (Hp b Hin) as [Hw Hlt].
      rewrite (within_passed a a' b Hw Hlt) in Hb; [discriminate|].
      eapply nondecreasing_head; eassumption. }
    rewrite <- Hf. destruct hit; cbn [length]; lia.
Qed.

End RunP.

(** *** An infinite delta-t on finite spikes *)

Section RunPInfinite.

Lemma rnd_abs_le_Vinf (X : Z) : (Z.abs (rnd X) <= Vinf)%Z.
Proof.
  unfold rnd. pose proof Vinf_pos.
  destruct (Z.ltb_spec 0 X) as [Hpos|_].
  - pose proof (rnd_pos_nonneg X Hpos). unfold rnd_pos in *.
    pose proof (cap_le (rne X (Z.max (Z.log2 X - 52) 0) * 2 ^ Z.max (Z.log2 X - 52) 0)). lia.
  - destruct (Z.ltb_spec X 0) as [Hneg|_]; [|cbn; lia].
    pose proof (rnd_pos_nonneg (- X) ltac:(lia)). unfold rnd_pos in *.
    pose proof (cap_le (rne (- X) (Z.max (Z.log2 (- X) - 52) 0)
                        * 2 ^ Z.max (Z.log2 (- X) - 52) 0)). lia.
Qed.

(** Two finite spikes are within an infinite delta-t of each other. *)
Lemma within_infinity (a b : float) :
  finiteb a = true -> finiteb b = true -> within infinity a b = true.
Proof.
  intros Fa Fb. apply (within_finite infinity a b Fa Fb).
  split; [reflexivity|]. change (F2Z infinity) with Vinf. apply rnd_abs_le_Vinf.
Qed.

(** With an infinite delta-t the cursor never moves: every spike of train 1
    matches the spike at the cursor, if there is one. *)
Lemma run_P_loop_infinity (train1 cursor : list float) (Nab : nat) :
  forallb finiteb train1 = true -> forallb finiteb cursor = true ->
  run_P_loop infinity train1 cursor Nab =
    (Nab + length (filter (fun a => existsb (within infinity a) cursor) train1))%nat.
Proof.
  revert Nab. induction train1 as [|a l IH]; intros Nab H1 H2; [cbn; lia|].
  cbn [forallb] in H1. apply andb_true_iff in H1 as [Fa H1].
  cbn [run_P_loop filter]. destruct cursor as [|b cursor].
  - cbn [run_P_scan existsb]. rewrite (IH Nab H1 H2). reflexivity.
  - cbn [forallb] in H2. pose proof H2 as H2'. apply andb_true_iff in H2' as [Fb _].
    cbn [run_P_scan existsb]. change (fabs (a - b) <=? infinity) with (within infinity a b).
    rewrite (within_infinity a b Fa Fb). cbn [orb length].
    rewrite (IH (S Nab) H1 H2). cbn [existsb]. lia.
Qed.

Lemma infinity_dec (dt : float) : dt = infinity \/ dt <> infinity.
Proof.
  destruct (Prim2SF dt) as [s|[|]| |s m e] eqn:E;
    try (right; intros ->; vm_compute in E; discriminate).
  left. apply Prim2SF_infinity. exact E.
Qed.

(** The loop of [run_P] on trains in chronological order, of finite spikes
    or under a delta-t other than the positive infinity. *)
Lemma run_P_loop_count (dt : float) (train1 train2 : list float) :
  forallb finiteb train1 && forallb finiteb train2 = true \/ dt <> infinity ->
  nondecreasing train1 = true -> nondecreasing train2 = true ->
  run_P_loop dt train1 train2 0 =
    length (filter (fun a => existsb (within dt a) train2) train1).
Proof.
  intros Hfin H1 H2.
  destruct (infinity_dec dt) as [->|Hdt].
  - destruct Hfin as [Hfin|Hfin]; [|contradiction].
    apply andb_true_iff in Hfin as [F1 F2].
    rewrite (run_P_loop_infinity train1 train2 0 F1 F2). reflexivity.
  - rewrite (run_P_loop_spec dt Hdt train1 train2 0 H1 H2). reflexivity.
Qed.

End RunPInfinite.

(** C2, as amended.  For two trains in chronological order, of finite
    spikes (or of any spikes when delta-t is not the positive infinity), and
    any delta-t, the delta-t of zero or more among them: [run_P] returns the
    number of spikes of train 1 that have a spike of train 2 at a distance of
    delta-t at most, each counted once, the distance being the one the code
    computes in binary64, [fabs] of the rounded difference.  The cursor into
    train 2 never passes a spike that a later spike of train 1 could match.
    [run_sttc] divides this count by the length of train 1. *)
Theorem run_P_counts_coincident (dt : float) (train1 train2 : list float) :
  forallb finiteb train1 && forallb finiteb train2 = true \/ dt <> infinity ->
  nondecreasing train1 = true -> nondecreasing train2 = true ->
  run_P dt train1 train2 = double_of_nat (count_coincident dt train1 train2) /\
  (count_coincident dt train1 train2 <= length train1)%nat /\
  forall startv endv tA tB,
    run_T dt startv endv train1 = Some tA ->
    run_T dt startv endv train2 = Some tB ->
    run_sttc dt (startv, endv) train1 train2 =
      Some (sttc_formula (tA / (endv - startv)) (tB / (endv - startv))
              (double_of_nat (count_coincident dt train1 train2)
               / double_of_nat (length train1))
              (double_of_nat (count_coincident dt train2 train1)
               / double_of_nat (length train2))).
Proof.
  intros Hfin H1 H2.
  assert (forallb finiteb train2 && forallb finiteb train1 = true \/ dt <> infinity) as Hfin'
    by (rewrite andb_comm; exact Hfin).
  assert (forall t1 t2,
          forallb finiteb t1 && forallb finiteb t2 = true \/ dt <> infinity ->
          nondecreasing t1 = true -> nondecreasing t2 = true ->
          run_P dt t1 t2 = double_of_nat (count_coincident dt t1 t2)) as HP.
  { intros t1 t2 Hf Ht1 Ht2. unfold run_P, count_coincident.
    rewrite (run_P_loop_count dt t1 t2 Hf Ht1 Ht2). reflexivity. }
  split; [apply HP; assumption|]. split; [apply filter_length_le|].
  intros startv endv tA tB EA EB.
  rewrite (run_sttc_nonempty dt startv endv train1 train2 tA tB); auto.
  - rewrite (HP train1 train2), (HP train2 train1) by assumption. reflexivity.
  - intros ->. discriminate.
  - intros ->. discriminate.
Qed.

Lemma run_P_counts_coincident_witness :
  run_P 0.001 [1; 5] [1.001; 5.002]
    = double_of_nat (count_coincident 0.001 [1; 5] [1.001; 5.002]) /\
  (count_coincident 0.001%float [1; 5]%float [1.001; 5.002]%float <= length [1; 5]%float)%nat /\
  forall startv endv tA tB,
    run_T 0.001 startv endv [1; 5] = Some tA ->
    run_T 0.001 startv endv [1.001; 5.002] = Some tB ->
    run_sttc 0.001 (startv, endv) [1; 5] [1.001; 5.002] =
      Some (sttc_formula (tA / (endv - startv)) (tB / (endv - startv))
              (double_of_nat (count_coincident 0.001 [1; 5] [1.001; 5.002])
               / double_of_nat (length [1; 5]))
              (double_of_nat (count_coincident 0.001 [1.001; 5.002] [1; 5])
               / double_of_nat (length [1.001; 5.002]))).
Proof.
  apply (run_P_counts_coincident 0.001 [1; 5] [1.001; 5.002]).
  - left. vm_compute. reflexivity.
  - vm_compute. reflexivity.
  - vm_compute. reflexivity.
Defined.

(** The distance is not the exact one.  At the delta-t of step 1000 of the
    sweep, which is 1, the spike at 1 and the spike at -2^-60 are further
    apart than delta-t, by 2^-60; their difference rounds to 1, the test
    [fabs( 1 - -2^-60 ) <= 1] holds and [run_P] counts the spike. *)
Lemma run_P_rounds_the_distance :
  dt_of_step 1000 = 1 /\
  (F2Z 1 < Z.abs (F2Z 1 - F2Z (-0x1p-60)))%Z /\
  ~ (forall dt train1 train2,
       (0 <=? dt) = true ->
       nondecreasing train1 = true -> nondecreasing train2 = true ->
       forallb finiteb train1 = true -> forallb finiteb train2 = true ->
       run_P dt train1 train2 = double_of_nat (count_exact dt train1 train2)).
Proof.
  split; [vm_compute; reflexivity|]. split; [vm_compute; reflexivity|].
  intros H.
  specialize (H 1 [1] [-0x1p-60]).
  vm_compute in H.
  specialize (H eq_refl eq_refl eq_refl eq_refl eq_refl).
  apply (f_equal (fun x => x <? 1)) in H. vm_compute in H. discriminate.
Qed.

(** ** Window clipping *)

Section Clipping.

Variables (win0 win1 : float).

(** One turn of the first loop while [Na] counts the elements left. *)
Lemma skip_before_cons (a : float) (A : list float) :
  skip_before win0 (a :: A) (length (a :: A)) =
    if a <? win0 then skip_before win0 A (length A) else Some (a :: A, length (a :: A)).
Proof.
  cbn [skip_before length Nat.eqb negb]. rewrite andb_true_r.
  replace (S (length A) - 1)%nat with (length A) by lia. reflexivity.
Qed.

(** The first loop keeps [Na] equal to the number of elements left. *)
Lemma skip_before_length (A A' : list float) (Na : nat) :
  skip_before win0 A (length A) = Some (A', Na) -> Na = length A'.
Proof.
  induction A as [|a A IH]; [discriminate|].
  rewrite skip_before_cons. destruct (a <? win0).
  - exact IH.
  - intros [= <- <-]. reflexivity.
Qed.

(** The first loop runs off the end of the buffer exactly when no spike
    stops it, the empty train included. *)
Lemma skip_before_none_iff (A : list float) :
  skip_before win0 A (length A) = None <-> forallb (fun a => a <? win0) A = true.
Proof.
  induction A as [|a A IH]; [cbn; tauto|].
  rewrite skip_before_cons. cbn [forallb]. destruct (a <? win0); cbn [andb].
  - exact IH.
  - split; discriminate.
Qed.

(** Where it stops, the spike it stopped at is not before the start. *)
Lemma skip_before_some (A A' : list float) (Na : nat) :
  skip_before win0 A (length A) = Some (A', Na) ->
  exists a rest pre, A' = a :: rest /\ A = pre ++ A' /\ (a <? win0) = false /\
    forallb (fun a => a <? win0) pre = true.
Proof.
  induction A as [|a A IH]; [discriminate|].
  rewrite skip_before_cons. destruct (a <? win0) eqn:E.
  - intros H. destruct (IH H) as (b & rest & pre & E1 & E2 & E3 & E4).
    exists b, rest, (a :: pre). cbn [forallb app]. rewrite E, E4, <- E2. auto.
  - intros [= <- <-]. exists a, A, []. auto.
Qed.

(** The second loop stays inside the buffer when the count does. *)
Lemma last_within_spec (A : list float) (Na i : nat) :
  (Na <= i + length A)%nat ->
  exists k, last_within win1 A Na i = Some (i + k)%nat /\ (k <= length A)%nat /\
    (i + k <= Nat.max i Na)%nat /\
    forallb (fun a => a <=? win1) (firstn k A) = true /\
    match nth_error A k with
    | Some a => (i + k <? Na)%nat = false \/ (a <=? win1) = false
    | None => True
    end.
Proof.
  revert i. induction A as [|a A IH]; intros i HN; cbn [last_within length] in *.
  - exists 0%nat. rewrite Nat.add_0_r.
    assert ((i <? Na)%nat = false) as -> by (apply Nat.ltb_ge; lia).
    cbn. repeat split; auto; lia.
  - destruct (i <? Na)%nat eqn:Ei; cbn [andb].
    + destruct (a <=? win1) eqn:Ea.
      * destruct (IH (S i)) as (k & E & Hk & Hm & Hf & Hn); [lia|].
        exists (S k). rewrite E. cbn [firstn forallb nth_error]. rewrite Ea, Hf.
        apply Nat.ltb_lt in Ei.
        replace (i + S k)%nat with (S i + k)%nat by lia.
        repeat split; auto; lia.
      * exists 0%nat. rewrite Nat.add_0_r. cbn [firstn forallb nth_error].
        repeat split; auto; lia.
    + exists 0%nat. rewrite Nat.add_0_r. cbn [firstn forallb nth_error].
      repeat split; auto; lia.
Qed.

(** Clipping is defined exactly when some spike is not before the start. *)
Lemma clip_none_iff (A : list float) :
  clip win0 win1 A = None <-> forallb (fun a => a <? win0) A = true.
Proof.
  unfold clip. rewrite <- skip_before_none_iff.
  destruct (skip_before win0 A (length A)) as [[A' Na]|] eqn:E; [|tauto].
  apply skip_before_length in E. subst Na.
  destruct (last_within_spec A' (length A') 0) as (k & -> & _); [lia|].
  split; discriminate.
Qed.

(** What clipping returns: after the longest prefix of spikes before the
    start, the longest run of spikes not after the end. *)
Lemma clip_some (A l : list float) :
  clip win0 win1 A = Some l ->
  exists pre post,
    A = pre ++ l ++ post /\
    forallb (fun a => a <? win0) pre = true /\
    forallb (fun a => a <=? win1) l = true /\
    match l ++ post with a :: _ => (a <? win0) = false | [] => False end /\
    match post with a :: _ => (a <=? win1) = false | [] => True end.
Proof.
  unfold clip.
  destruct (skip_before win0 A (length A)) as [[A' Na]|] eqn:E; [|discriminate].
  pose proof (skip_before_length _ _ _ E). subst Na.
  destruct (skip_before_some _ _ _ E) as (a & rest & pre & E1 & E2 & E3 & E4).
  destruct (last_within_spec A' (length A') 0) as (k & -> & Hk & _ & Hf & Hn); [lia|].
  cbn [Nat.add]. intros [= <-].
  replace (length A' - (length A' - k))%nat with k by lia.
  exists pre, (skipn k A'). rewrite firstn_skipn.
  repeat split; auto.
  - rewrite E1. exact E3.
  - destruct (skipn k A') as [|b post] eqn:Es; [exact I|].
    assert (nth_error A' k = Some b) as Hb.
    { rewrite <- (firstn_skipn k A') at 1. rewrite nth_error_app2; rewrite firstn_length_le by lia; [|lia].
      rewrite Nat.sub_diag, Es. reflexivity. }
    rewrite Hb in Hn. destruct Hn as [Hn|Hn]; [|exact Hn].
    apply Nat.ltb_ge in Hn. assert (length (skipn k A') = 0)%nat as Hl by (rewrite length_skipn; lia).
    rewrite Es in Hl. discriminate.
Qed.

(** Clipping a clipped train that is not empty gives it back. *)
Lemma clip_idempotent_nonempty (A l : list float) :
  clip win0 win1 A = Some l -> l <> [] -> clip win0 win1 l = Some l.
Proof.
  intros H Hne. destruct (clip_some _ _ H) as (pre & post & _ & _ & Hl & Hh & _).
  destruct l as [|a l]; [contradiction|]. cbn [app] in Hh.
  unfold clip. rewrite skip_before_cons, Hh.
  destruct (last_within_spec (a :: l) (length (a :: l)) 0) as (k & E & Hk & _ & Hf & Hn); [lia|].
  rewrite E. cbn [Nat.add].
  assert (k = length (a :: l)) as ->.
  { destruct (nth_error (a :: l) k) as [b|] eqn:Eb.
    - assert (k < length (a :: l))%nat as Hlt by (apply nth_error_Some; congruence).
      destruct Hn as [Hn|Hn].
      + apply Nat.ltb_ge in Hn. cbn [Nat.add] in Hn. lia.
      + rewrite forallb_forall in Hl. rewrite (Hl b) in Hn; [discriminate|].
        eapply nth_error_In; eassumption.
    - apply nth_error_None in Eb. lia. }
  replace (length (a :: l) - (length (a :: l) - length (a :: l)))%nat with (length (a :: l)) by lia.
  rewrite firstn_all. reflexivity.
Qed.

End Clipping.

(** C10.  The guard of the first clipping loop reads [*A] before it looks at
    [Na]: with no element left the read is outside the buffer.  This happens
    exactly when every spike is before the window start: for the empty
    vector at once, and for a train such as [1] under the window (2, 3) after
    its last element. *)
Theorem clipping_guard_reads_past_end :
  (forall win0 A,
     skip_before win0 A (length A) = None <-> forallb (fun a => a <? win0) A = true) /\
  (forall win0, skip_before win0 [] 0 = None) /\
  skip_before 2 [1] 1 = None.
Proof.
  split; [exact skip_before_none_iff|]. split; [reflexivity|]. vm_compute. reflexivity.
Qed.

(** C6.  Clipping a train with no spike at or after the window start, where
    the result should be the empty train: the first loop reads [*A] with no
    element left, outside the buffer, and nothing comes back; so for the
    empty train and for the train [1] under the window (2, 3). *)
Theorem clip_before_window_undefined :
  (forall win0 win1 A,
     clip win0 win1 A = None <-> forallb (fun a => a <? win0) A = true) /\
  clip 2 3 [] = None /\ clip 2 3 [1] = None.
Proof.
  split; [exact clip_none_iff|]. vm_compute. split; reflexivity.
Qed.

(** C9.  Clipping the empty train reads outside its buffer, whatever the
    window: the train [5] clipped to (0, 1) is empty, and clipping it again
    is undefined. *)
Theorem clip_twice_undefined :
  (forall win0 win1, clip win0 win1 [] = None) /\
  clip 0 1 [5] = Some [] /\ clip 0 1 [] = None.
Proof.
  split; [reflexivity|]. vm_compute. split; reflexivity.
Qed.

(** ** What a clipping that stays in bounds returns *)

Section Window.

Variables (win0 win1 : float).
Hypothesis window : (win0 <? win1) = true.

Lemma nondecreasing_app (l1 l2 : list float) :
  nondecreasing (l1 ++ l2) = true -> nondecreasing l1 = true /\ nondecreasing l2 = true.
Proof.
  induction l1 as [|a l1 IH]; [auto|].
  intros H. pose proof (nondecreasing_tail _ _ H) as Ht.
  destruct (IH Ht) as [H1 H2]. split; [|assumption].
  destruct l1 as [|b l1]; [reflexivity|].
  cbn [app nondecreasing] in H |- *. apply andb_true_iff in H as [Hab _].
  rewrite Hab. exact H1.
Qed.

Lemma not_ltb_leb (a : float) :
  is_nanb a = false -> (a <? win0) = false -> (win0 <=? a) = true.
Proof.
  intros Na H. apply ltb_true_iff in window as (N0 & _ & _).
  apply leb_true_iff. repeat split; auto.
  destruct (Z.le_gt_cases (F2Z win0) (F2Z a)); [assumption|].
  assert ((a <? win0) = true) by (apply ltb_true_iff; auto). congruence.
Qed.

(** For a train in chronological order, the clipped train is the spikes of
    the window, ends included, in their order. *)
Lemma clip_in_window (A l : list float) :
  nondecreasing A = true ->
  clip win0 win1 A = Some l -> l = filter (in_window win0 win1) A.
Proof.
  intros Hs Hc.
  destruct (clip_some _ _ _ _ Hc) as (pre & post & -> & Hpre & Hl & Hhead & Hpost).
  apply nondecreasing_app in Hs as [_ Hs].
  apply nondecreasing_app in Hs as [Hsl Hsp].
  rewrite !filter_app.
  assert (filter (in_window win0 win1) pre = []) as ->.
  { clear - Hpre. induction pre as [|a pre IH]; [reflexivity|].
    cbn [forallb filter] in *. apply andb_true_iff in Hpre as [Ha Hp].
    unfold in_window at 1.
    assert ((win0 <=? a) = false) as ->; [|cbn [andb]; auto].
    destruct (win0 <=? a) eqn:E; [|reflexivity].
    apply leb_true_iff in E as (_ & _ & E). apply ltb_true_iff in Ha as (_ & _ & Ha). lia. }
  assert (filter (in_window win0 win1) post = []) as ->.
  { destruct post as [|b post]; [reflexivity|].
    assert (forall t, In t (b :: post) -> (t <=? win1) = false) as Hall.
    { intros t [<-|Ht]; [assumption|].
      destruct (t <=? win1) eqn:E; [|reflexivity].
      pose proof (nondecreasing_head _ _ Hsp t Ht) as Hbt.
      rewrite (leb_trans _ _ _ Hbt E) in Hpost. discriminate. }
    clear - Hall. induction (b :: post) as [|t r IH]; [reflexivity|].
    cbn [filter]. unfold in_window at 1. rewrite (Hall t (or_introl eq_refl)), andb_false_r.
    apply IH. intros; apply Hall; right; assumption. }
  cbn [app]. rewrite app_nil_r.
  destruct l as [|a l]; [reflexivity|].
  cbn [app] in Hhead.
  assert (forall t, In t (a :: l) -> in_window win0 win1 t = true) as Hall.
  { rewrite forallb_forall in Hl.
    assert ((win0 <=? a) = true) as Ha.
    { apply not_ltb_leb; [|assumption].
      pose proof (Hl a (or_introl eq_refl)) as H. apply leb_true_iff in H. tauto. }
    intros t Ht. unfold in_window. rewrite (Hl t Ht), andb_true_r.
    destruct Ht as [<-|Ht]; [assumption|].
    eapply leb_trans; [exact Ha|]. eapply nondecreasing_head; eassumption. }
  clear - Hall. symmetry. induction (a :: l) as [|t r IH]; [reflexivity|].
  cbn [filter]. rewrite (Hall t (or_introl eq_refl)). f_equal.
  apply IH. intros; apply Hall; right; assumption.
Qed.

End Window.

(** ** The sweep over delta-t and the gateway *)

Section Sweep.

Variables (win : float * float) (A B : list float).

Lemma sweep_defined (i n : nat) : exists cs, sweep win A B i n = Some cs.
Proof.
  revert i. induction n as [|n IH]; intros i; cbn [sweep]; [eexists; reflexivity|].
  destruct win as [startv endv].
  destruct (run_sttc_defined (dt_of_step i) startv endv A B) as [c ->].
  destruct (IH (S i)) as [cs ->]. eexists; reflexivity.
Qed.

Lemma sweep_length (i n : nat) (cs : list float) :
  sweep win A B i n = Some cs -> length cs = n.
Proof.
  revert i cs. induction n as [|n IH]; intros i cs; cbn [sweep].
  - intros [= <-]. reflexivity.
  - destruct (run_sttc (dt_of_step i) win A B) as [c|]; [|discriminate].
    destruct (sweep win A B (S i) n) as [cs'|] eqn:E; [|discriminate].
    intros [= <-]. cbn [length]. f_equal. eapply IH; eassumption.
Qed.

(** Entry [k] of the sweep is the coefficient for the delta-t of step [k]. *)
Lemma sweep_nth (i n : nat) (cs : list float) :
  sweep win A B i n = Some cs ->
  forall k, (k < n)%nat -> nth_error cs k = run_sttc (dt_of_step (i + k)) win A B.
Proof.
  revert i cs. induction n as [|n IH]; intros i cs; cbn [sweep]; [lia|].
  destruct (run_sttc (dt_of_step i) win A B) as [c|] eqn:Ec; [|discriminate].
  destruct (sweep win A B (S i) n) as [cs'|] eqn:E; [|discriminate].
  intros [= <-] [|k] Hk; cbn [nth_error].
  - rewrite Nat.add_0_r. symmetry. exact Ec.
  - rewrite (IH _ _ E k) by lia. f_equal. f_equal. lia.
Qed.

(** With an empty train every entry of the sweep is NaN. *)
Lemma sweep_empty_nan (i n : nat) (cs : list float) :
  A = [] \/ B = [] ->
  sweep win A B i n = Some cs -> cs = repeat nan n.
Proof.
  intros Hemp. revert i cs. induction n as [|n IH]; intros i cs; cbn [sweep repeat].
  - intros [= <-]. reflexivity.
  - destruct win as [startv endv]. rewrite run_sttc_empty by assumption.
    destruct (sweep (startv, endv) A B (S i) n) as [cs'|] eqn:E; [|discriminate].
    intros [= <-]. f_equal. eapply IH; eassumption.
Qed.

End Sweep.

(** What a call that returns went through. *)
Lemma mexFunction_returned_inv (nlhs : nat) (prhs : list mxArray)
    (sttc : list float) (DT : option (list float)) :
  mexFunction nlhs prhs = Returned sttc DT ->
  exists pWIN pDT pA pB win0 win1 dtv dtn A B,
    prhs = [pWIN; pDT; pA; pB] /\
    mxPr pWIN = [win0; win1] /\ hd_error (mxPr pDT) = Some dtv /\
    (nlhs <= 2)%nat /\ (dtv <? 0) = false /\ (win1 <=? win0) = false /\
    uint_of_double (ceil (dtv / 0.001) + 1) = Some dtn /\
    clip win0 win1 (mxPr pA) = Some A /\ clip win0 win1 (mxPr pB) = Some B /\
    sweep (win0, win1) A B 0 (Z.to_nat dtn) = Some sttc /\
    DT = if (1 <? nlhs)%nat then Some (map dt_of_step (seq 0 (Z.to_nat dtn))) else None.
Proof.
  unfold mexFunction.
  destruct prhs as [|pWIN [|pDT [|pA [|pB [|? ?]]]]]; try discriminate.
  destruct (NARGOUT <? nlhs)%nat eqn:E1; [discriminate|].
  destruct (negb (mxIsDouble pWIN) || _); [discriminate|].
  destruct (negb (mxIsDouble pDT) || _); [discriminate|].
  destruct (negb (mxIsDouble pA) || _); [discriminate|].
  destruct (mxPr pDT) as [|dtv ?] eqn:EDT; [discriminate|].
  destruct (mxPr pWIN) as [|win0 [|win1 [|? ?]]] eqn:EW; try discriminate.
  destruct (dtv <? 0) eqn:E2; [discriminate|].
  destruct (uint_of_double _) as [dtn|] eqn:E3; [|discriminate].
  destruct (win1 <=? win0) eqn:E4; [discriminate|].
  destruct (clip win0 win1 (mxPr pA)) as [A|] eqn:EA; [|discriminate].
  destruct (clip win0 win1 (mxPr pB)) as [B|] eqn:EB; [|discriminate].
  destruct (sweep (win0, win1) A B 0 (Z.to_nat dtn)) as [cs|] eqn:ES; [|discriminate].
  intros [= <- <-].
  exists pWIN, pDT, pA, pB, win0, win1, dtv, dtn, A, B.
  apply Nat.ltb_ge in E1. unfold NARGOUT in E1.
  repeat split; auto. rewrite EDT. reflexivity.
Qed.

(** A call with an empty clipped train that returns, returns NaN throughout. *)
Lemma mexFunction_empty_train_nan (nlhs : nat) (pWIN pDT pA pB : mxArray)
    (win0 win1 : float) (A B sttc : list float) (DT : option (list float)) :
  mxPr pWIN = [win0; win1] ->
  clip win0 win1 (mxPr pA) = Some A -> clip win0 win1 (mxPr pB) = Some B ->
  A = [] \/ B = [] ->
  mexFunction nlhs [pWIN; pDT; pA; pB] = Returned sttc DT ->
  Forall (fun c => c = nan) sttc.
Proof.
  intros EW EA EB Hemp H.
  destruct (mexFunction_returned_inv _ _ _ _ H)
    as (? & ? & ? & ? & w0 & w1 & dtv & dtn & A' & B' & [= <- <- <- <-] & EW' & _ & _ & _ & _ & _ & EA' & EB' & ES & _).
  rewrite EW in EW'. injection EW' as <- <-.
  rewrite EA in EA'. rewrite EB in EB'. injection EA' as <-. injection EB' as <-.
  rewrite (sweep_empty_nan _ _ _ _ _ _ Hemp ES).
  apply Forall_forall. intros c Hc. apply repeat_spec in Hc. exact Hc.
Qed.

(** C4.  With an empty train A, or an empty train B, the clipping reads
    outside the (empty) buffer and the call never returns a coefficient
    vector, of NaN or other; so for A empty, the train [3] for B, the window
    (0, 10) and a maximum delta-t of 0.002. *)
Theorem mexFunction_empty_train_undefined :
  (forall nlhs pWIN pDT pA pB sttc DT,
     mxPr pA = [] \/ mxPr pB = [] ->
     mexFunction nlhs [pWIN; pDT; pA; pB] <> Returned sttc DT) /\
  mexFunction 1 [double_array [0; 10]; double_array [0.002];
                 double_array []; double_array [3]] = Undefined.
Proof.
  split; [|vm_compute; reflexivity].
  intros nlhs pWIN pDT pA pB sttc DT Hemp H.
  destruct (mexFunction_returned_inv _ _ _ _ H)
    as (? & ? & ? & ? & w0 & w1 & dtv & dtn & A' & B' & [= <- <- <- <-] & _ & _ & _ & _ & _ & _ & EA & EB & _).
  destruct Hemp as [E|E]; rewrite E in *; discriminate.
Qed.

(** The sweep of a call that computes its steps. *)
Lemma mexFunction_returns (nlhs : nat) (pWIN pDT pA pB : mxArray)
    (win0 win1 dtv : float) (steps : Z) (A B : list float) :
  (nlhs <= 2)%nat ->
  mxIsDouble pWIN = true -> mxIsDouble pDT = true ->
  mxIsDouble pA = true -> mxIsDouble pB = true ->
  mxPr pWIN = [win0; win1] -> mxPr pDT = [dtv] ->
  (dtv <? 0) = false -> (win1 <=? win0) = false ->
  uint_of_double (ceil (dtv / 0.001) + 1) = Some steps ->
  clip win0 win1 (mxPr pA) = Some A -> clip win0 win1 (mxPr pB) = Some B ->
  exists sttc,
    sweep (win0, win1) A B 0 (Z.to_nat steps) = Some sttc /\
    mexFunction nlhs [pWIN; pDT; pA; pB] =
      Returned sttc (if (1 <? nlhs)%nat
                     then Some (map dt_of_step (seq 0 (Z.to_nat steps))) else None).
Proof.
  intros Hn DW DD DA DB EW ED Hdt Hwin Hsteps EA EB.
  destruct (sweep_defined (win0, win1) A B 0 (Z.to_nat steps)) as [sttc ES].
  exists sttc. split; [exact ES|].
  unfold mexFunction, NARGOUT, mxIsScalar, mxGetNumberOfElements.
  assert ((2 <? nlhs)%nat = false) as -> by (apply Nat.ltb_ge; lia).
  rewrite DW, DD, DA, DB, EW, ED. cbn [negb orb length Nat.eqb].
  rewrite Hdt, Hsteps, Hwin, EA, EB, ES. reflexivity.
Qed.

(** C5, as amended.  For valid input whose clipping stays inside both
    buffers, and a maximum delta-t of zero or more with
    ceil(max_dt / 0.001) + 1 below 2^32: the coefficients and the delta-t
    values are ceil(max_dt / 0.001) + 1 each, the delta-t of position k is
    k / 1000, the coefficient of position k is the one for that delta-t, and
    the delta-t values start at 0 and grow strictly. *)
Theorem mexFunction_sweep_shape (nlhs : nat) (pWIN pDT pA pB : mxArray)
    (win0 win1 max_dt : float) :
  (nlhs <= 2)%nat ->
  mxIsDouble pWIN = true -> mxIsDouble pDT = true ->
  mxIsDouble pA = true -> mxIsDouble pB = true ->
  mxPr pWIN = [win0; win1] -> mxPr pDT = [max_dt] ->
  (0 <=? max_dt) = true -> (win0 <? win1) = true ->
  clip win0 win1 (mxPr pA) <> None -> clip win0 win1 (mxPr pB) <> None ->
  (Zceil (max_dt / 0.001) + 1 < 2 ^ 32)%Z ->
  let steps := Z.to_nat (Zceil (max_dt / 0.001) + 1) in
  exists sttc DT A B,
    mexFunction nlhs [pWIN; pDT; pA; pB] =
      Returned sttc (if (1 <? nlhs)%nat then Some DT else None) /\
    length sttc = steps /\ length DT = steps /\
    clip win0 win1 (mxPr pA) = Some A /\ clip win0 win1 (mxPr pB) = Some B /\
    (forall k, (k < steps)%nat ->
       nth_error DT k = Some (double_of_nat k / 1000) /\
       nth_error sttc k = run_sttc (double_of_nat k / 1000) (win0, win1) A B) /\
    hd_error DT = Some 0 /\ increasing DT = true.
Proof.
  intros Hn DW DD DA DB EW ED Hdt Hwin HA HB Hlt steps.
  destruct (clip win0 win1 (mxPr pA)) as [A|] eqn:EA; [|contradiction].
  destruct (clip win0 win1 (mxPr pB)) as [B|] eqn:EB; [|contradiction].
  apply leb_true_iff in Hdt as (_ & Ndt & Hdt).
  change (F2Z 0) with 0%Z in Hdt.
  apply ltb_true_iff in Hwin as (N0 & N1 & Hwin).
  (* the quotient is finite and not below zero *)
  destruct (div_nonneg_val max_dt 0.001 4611686018427388 (-62) Ndt Hdt ltac:(vm_compute; reflexivity))
    as [Nq Hq].
  pose proof (pow2_pos 1074 ltac:(lia)) as HP.
  set (q := max_dt / 0.001) in *.
  assert (0 <= Zceil q)%Z as Hc0.
  { unfold Zceil.
    pose proof (Z.div_le_upper_bound (- F2Z q) (2 ^ 1074) 0 HP ltac:(lia)). lia. }
  assert (F2Z q <= Zceil q * 2 ^ 1074)%Z as Hcq.
  { unfold Zceil.
    pose proof (Z.mul_div_le (- F2Z q) (2 ^ 1074) HP). lia. }
  assert (finiteb q = true) as Fq.
  { apply finiteb_of_val; [exact Nq|].
    assert (2 ^ 32 < 2 ^ 53)%Z by (apply Z.pow_lt_mono_r; lia).
    pose proof (int_lt_Vinf (Zceil q) ltac:(lia)). pose proof Vinf_pos. lia. }
  assert (uint_of_double (ceil q + 1) = Some (Zceil q + 1)%Z) as Hsteps
    by (apply steps_spec; repeat split; auto; lia).
  destruct (mexFunction_returns nlhs pWIN pDT pA pB win0 win1 max_dt (Zceil q + 1) A B)
    as (sttc & ES & ER); auto.
  { destruct (max_dt <? 0) eqn:E; [|reflexivity].
    apply ltb_true_iff in E as (_ & _ & E). change (F2Z 0) with 0%Z in E. lia. }
  { destruct (win1 <=? win0) eqn:E; [|reflexivity].
    apply leb_true_iff in E as (_ & _ & E). lia. }
  fold steps in ES, ER.
  exists sttc, (map dt_of_step (seq 0 steps)), A, B.
  split; [exact ER|].
  split; [eapply sweep_length; eassumption|].
  split; [rewrite length_map, length_seq; reflexivity|].
  split; [reflexivity|]. split; [reflexivity|].
  split; [|split].
  - intros k Hk. split.
    + rewrite nth_error_map, nth_error_seq.
      apply Nat.ltb_lt in Hk. rewrite Hk. reflexivity.
    + rewrite (sweep_nth _ _ _ _ _ _ ES k Hk). reflexivity.
  - assert (steps = S (Z.to_nat (Zceil q))) as -> by (unfold steps; lia).
    reflexivity.
  - apply increasing_steps. unfold steps. cbn [Nat.add]. lia.
Qed.

Lemma mexFunction_sweep_shape_witness :
  let steps := Z.to_nat (Zceil (0.002 / 0.001) + 1) in
  exists sttc DT A B,
    mexFunction 2 [double_array [0; 10]; double_array [0.002];
                   double_array [1; 5]; double_array [1.001; 5.002]] =
      Returned sttc (if (1 <? 2)%nat then Some DT else None) /\
    length sttc = steps /\ length DT = steps /\
    clip 0 10 (mxPr (double_array [1; 5])) = Some A /\
    clip 0 10 (mxPr (double_array [1.001; 5.002])) = Some B /\
    (forall k, (k < steps)%nat ->
       nth_error DT k = Some (double_of_nat k / 1000) /\
       nth_error sttc k = run_sttc (double_of_nat k / 1000) (0, 10) A B) /\
    hd_error DT = Some 0 /\ increasing DT = true.
Proof.
  apply (mexFunction_sweep_shape 2 (double_array [0; 10]) (double_array [0.002])
           (double_array [1; 5]) (double_array [1.001; 5.002]) 0 10 0.002);
    try reflexivity; vm_compute; discriminate.
Defined.

(** A maximum delta-t of 10^7 seconds is valid input, and its number of
    steps, 10^10 + 1, does not fit [unsigned int]: the conversion is
    undefined and no vector of that length is returned. *)
Lemma mexFunction_steps_overflow :
  let prhs := [double_array [0; 1]; double_array [1e7];
               double_array [0.5]; double_array [0.5]] in
  invalid_input prhs = false /\ (0 <=? 1e7) = true /\
  clip 0 1 [0.5] = Some [0.5] /\
  (Zceil (1e7 / 0.001) + 1 = 10000000001)%Z /\
  ~ (exists sttc DT,
       mexFunction 2 prhs = Returned sttc DT /\
       length sttc = Z.to_nat (Zceil (1e7 / 0.001) + 1)).
Proof.
  cbv zeta.
  split; [vm_compute; reflexivity|]. split; [vm_compute; reflexivity|].
  split; [vm_compute; reflexivity|]. split; [vm_compute; reflexivity|].
  intros (sttc & DT & H & _). vm_compute in H. discriminate.
Qed.

(** ** Input validation *)





(** * Further properties *)

(** ** [run_P] on trains in any order *)

Section RunPAny.

Variable dt : float.

(** A scan counts a spike only on a match at the cursor it leaves behind,
    and that cursor is an end of the one it was given. *)
Lemma run_P_scan_sound (a : float) (cursor : list float) :
  exists passed,
    cursor = passed ++ snd (run_P_scan dt a cursor) /\
    (fst (run_P_scan dt a cursor) = true -> existsb (within dt a) cursor = true).
Proof.
  induction cursor as [|b l IH].
  - exists []. cbn. split; [reflexivity|discriminate].
  - cbn [run_P_scan existsb]. change (fabs (a - b) <=? dt) with (within dt a b).
    destruct (within dt a b) eqn:Hw.
    + exists []. cbn. split; reflexivity.
    + destruct (a <? b).
      * exists []. cbn. split; [reflexivity|discriminate].
      * destruct IH as (passed & E & H). exists (b :: passed).
        cbn [app orb]. rewrite <- E. split; [reflexivity|exact H].
Qed.

Lemma run_P_loop_le (train2 train1 cursor pre : list float) (Nab : nat) :
  train2 = pre ++ cursor ->
  (Nab <= run_P_loop dt train1 cursor Nab
       <= Nab + length (filter (fun a => existsb (within dt a) train2) train1))%nat.
Proof.
  revert cursor pre Nab. induction train1 as [|a l IH]; intros cursor pre Nab E.
  - cbn. lia.
  - cbn [run_P_loop filter].
    destruct (run_P_scan_sound a cursor) as (passed & Ec & Hhit).
    destruct (run_P_scan dt a cursor) as [hit cursor']. cbn [fst snd] in *.
    assert (train2 = (pre ++ passed) ++ cursor') as E'
      by (rewrite <- app_assoc, <- Ec; exact E).
    pose proof (IH cursor' (pre ++ passed) (if hit then S Nab else Nab) E') as H.
    destruct hit.
    + assert (existsb (within dt a) train2 = true) as ->.
      { rewrite E, existsb_app, (Hhit eq_refl). apply orb_true_r. }
      cbn [length]. lia.
    + destruct (existsb (within dt a) train2); cbn [length]; lia.
Qed.

(** The cost of one scan, against the part of train 2 it leaves behind. *)
Lemma run_P_scan_passes_le (a : float) (cursor : list float) :
  (run_P_scan_passes dt a cursor + length (snd (run_P_scan dt a cursor))
   <= 1 + length cursor)%nat.
Proof.
  induction cursor as [|b l IH]; [cbn; lia|].
  cbn [run_P_scan run_P_scan_passes].
  destruct (fabs (a - b) <=? dt); [cbn [snd length]; lia|].
  destruct (a <? b); [cbn [snd length]; lia|].
  cbn [length]. lia.
Qed.

Lemma run_P_passes_le (train1 cursor : list float) :
  (run_P_passes dt train1 cursor <= length train1 + length cursor)%nat.
Proof.
  revert cursor. induction train1 as [|a l IH]; intros cursor; [cbn; lia|].
  cbn [run_P_passes length].
  pose proof (run_P_scan_passes_le a cursor).
  pose proof (IH (snd (run_P_scan dt a cursor))). lia.
Qed.

(** Nothing is within a delta-t that is below zero or NaN. *)
Lemma within_nonneg (a b : float) : within dt a b = true -> (0 <=? dt) = true.
Proof.
  unfold within. intros H. apply leb_true_iff in H as (_ & Ndt & H).
  destruct (abs_val (a - b)) as [Hv _]. rewrite Hv in H.
  apply leb_true_iff. repeat split; auto. change (F2Z 0) with 0%Z. lia.
Qed.

Lemma run_P_scan_no_hit (a : float) (cursor : list float) :
  (0 <=? dt) = false -> fst (run_P_scan dt a cursor) = false.
Proof.
  intros Hdt. induction cursor as [|b l IH]; [reflexivity|].
  cbn [run_P_scan]. change (fabs (a - b) <=? dt) with (within dt a b).
  destruct (within dt a b) eqn:Hw.
  - apply within_nonneg in Hw. congruence.
  - destruct (a <? b); [reflexivity|exact IH].
Qed.

Lemma run_P_loop_no_hit (train1 cursor : list float) (Nab : nat) :
  (0 <=? dt) = false -> run_P_loop dt train1 cursor Nab = Nab.
Proof.
  intros Hdt. revert cursor Nab. induction train1 as [|a l IH]; intros cursor Nab; [reflexivity|].
  cbn [run_P_loop]. pose proof (run_P_scan_no_hit a cursor Hdt) as H.
  destruct (run_P_scan dt a cursor) as [hit cursor']. cbn [fst] in H. subst hit.
  apply IH.
Qed.

End RunPAny.

(** X1.  Whatever the order of the spikes and whatever delta-t, [run_P]
    returns a count [Nab] that is at most the number of spikes of train 1
    with a spike of train 2 at a distance of delta-t at most, and so at most
    the length of train 1: a spike is never counted twice, nor counted
    without a match.  With an empty train the count is 0. *)
Theorem run_P_never_overcounts (dt : float) (train1 train2 : list float) :
  exists Nab,
    run_P dt train1 train2 = double_of_nat Nab /\
    (Nab <= count_coincident dt train1 train2)%nat /\
    (Nab <= length train1)%nat /\
    (train1 = [] \/ train2 = [] -> Nab = 0%nat).
Proof.
  exists (run_P_loop dt train1 train2 0). split; [reflexivity|].
  pose proof (run_P_loop_le dt train2 train1 train2 [] 0 eq_refl) as [_ H].
  cbn [Nat.add] in H.
  change (run_P_loop dt train1 train2 0 <= count_coincident dt train1 train2)%nat in H.
  pose proof (filter_length_le (fun a => existsb (fun b => fabs (a - b) <=? dt) train2) train1) as H'.
  fold (count_coincident dt train1 train2) in H'.
  split; [exact H|]. split; [lia|].
  intros [-> | ->]; [reflexivity|].
  assert (count_coincident dt train1 [] = 0)%nat as E; [|lia].
  unfold count_coincident. clear. induction train1 as [|a l IH]; [reflexivity|exact IH].
Qed.

(** X2.  One call of [run_P] makes at most N1 + N2 passes through the body
    of its inner loop, the cursor into train 2 never going back: the cost of
    a call is linear in the lengths of the trains. *)
Theorem run_P_linear_cost (dt : float) (train1 train2 : list float) :
  (run_P_passes dt train1 train2 <= length train1 + length train2)%nat.
Proof. apply run_P_passes_le. Qed.

(** X3.  With a delta-t below zero, or NaN, no distance passes the test and
    [run_P] returns 0. *)
Theorem run_P_negative_dt (dt : float) (train1 train2 : list float) :
  (0 <=? dt) = false -> run_P dt train1 train2 = 0.
Proof.
  intros Hdt. unfold run_P. rewrite run_P_loop_no_hit by assumption.
  vm_compute. reflexivity.
Qed.

Lemma run_P_negative_dt_witness :
  (0 <=? -0.001) = false /\ run_P (-0.001) [1; 5] [1; 5] = 0.
Proof.
  split; [vm_compute; reflexivity|].
  apply (run_P_negative_dt (-0.001) [1; 5] [1; 5]). vm_compute. reflexivity.
Defined.

(** ** A delta-t of zero *)

Section ZeroDt.

Lemma eqb_true_iff (x y : float) :
  (x =? y) = true <-> is_nanb x = false /\ is_nanb y = false /\ F2Z x = F2Z y.
Proof.
  rewrite FloatAxioms.eqb_spec. unfold SFeqb, is_nanb, F2Z.
  destruct (SFis_nan (Prim2SF x)) eqn:Nx.
  { destruct (Prim2SF x); try discriminate. cbn. intuition discriminate. }
  destruct (SFis_nan (Prim2SF y)) eqn:Ny.
  { destruct (Prim2SF y); try discriminate.
    destruct (Prim2SF x); cbn; intuition discriminate. }
  rewrite (SFcompare_val _ _ (Prim2SF_valid x) (Prim2SF_valid y) Nx Ny).
  destruct (Z.compare_spec (SF2Z (Prim2SF x)) (SF2Z (Prim2SF y))); intuition (try discriminate; lia).
Qed.

(** Only a difference of zero rounds to zero: the difference of two
    binary64 numbers is a whole number of units of 2^-1074. *)
Lemma rnd_zero_iff (X : Z) : rnd X = 0%Z <-> X = 0%Z.
Proof.
  split; [|intros ->; reflexivity].
  intros H. destruct (Z.lt_trichotomy X 0) as [Hlt|[H0|Hgt]]; [exfalso|assumption|exfalso].
  - pose proof (rnd_mono X (-1) ltac:(lia)) as Hm.
    change (rnd (-1)) with (-1)%Z in Hm. lia.
  - pose proof (rnd_mono 1 X ltac:(lia)) as Hm.
    change (rnd 1) with 1%Z in Hm. lia.
Qed.

(** At a delta-t of zero the test of [run_P] holds between equal finite
    spikes and no others. *)
Lemma within_zero (a b : float) : within 0 a b = finiteb a && (a =? b).
Proof.
  assert (0 <> infinity) as H0.
  { intros H. apply (f_equal (fun x => x <? 1)) in H. vm_compute in H. discriminate. }
  destruct (within 0 a b) eqn:Hw.
  - destruct (within_true_finite 0 a b H0 Hw) as [Fa Fb]. rewrite Fa. cbn [andb].
    apply (within_finite 0 a b Fa Fb) in Hw as [_ Hw]. change (F2Z 0) with 0%Z in Hw.
    symmetry. apply eqb_true_iff.
    split; [apply finiteb_not_nan; assumption|].
    split; [apply finiteb_not_nan; assumption|].
    assert (rnd (F2Z a - F2Z b) = 0)%Z as Hr by lia.
    apply (proj1 (rnd_zero_iff _)) in Hr. lia.
  - destruct (finiteb a) eqn:Fa; [|reflexivity]. cbn [andb].
    destruct (a =? b) eqn:Eab; [exfalso|reflexivity].
    apply eqb_true_iff in Eab as (Na & Nb & Eab).
    assert (finiteb b = true) as Fb by (apply (finiteb_between a b a); auto; lia).
    assert (within 0 a b = true); [|congruence].
    apply (within_finite 0 a b Fa Fb). split; [reflexivity|].
    replace (F2Z a - F2Z b)%Z with 0%Z by lia. rewrite rnd_0. cbn. lia.
Qed.

End ZeroDt.

(** X4.  At a delta-t of zero, on two trains in chronological order,
    [run_P] counts the spikes of train 1 whose time is the time of a spike
    of train 2: exact matches only, and of finite times only (the difference
    of two equal infinite times is NaN). *)
Theorem run_P_zero_dt_exact_matches (train1 train2 : list float) :
  nondecreasing train1 = true -> nondecreasing train2 = true ->
  run_P 0 train1 train2 =
    double_of_nat
      (length (filter (fun a => finiteb a && existsb (fun b => a =? b) train2) train1)).
Proof.
  intros H1 H2. unfold run_P. f_equal.
  assert (0 <> infinity) as H0.
  { intros H. apply (f_equal (fun x => x <? 1)) in H. vm_compute in H. discriminate. }
  rewrite (run_P_loop_spec 0 H0 train1 train2 0 H1 H2). cbn [Nat.add]. f_equal.
  apply filter_ext. intros a. clear.
  induction train2 as [|b l IH]; cbn [existsb]; [rewrite andb_false_r; reflexivity|].
  rewrite IH, within_zero. destruct (finiteb a); reflexivity.
Qed.

Lemma run_P_zero_dt_exact_matches_witness :
  run_P 0 [1; 2; 5] [1; 2.001; 5] =
    double_of_nat
      (length (filter (fun a => finiteb a && existsb (fun b => a =? b) [1; 2.001; 5])
                 [1; 2; 5])).
Proof.
  apply (run_P_zero_dt_exact_matches [1; 2; 5] [1; 2.001; 5]); vm_compute; reflexivity.
Defined.

(** ** The count of [run_P] as delta-t grows *)

Section Monotone.

Local Open Scope float_scope.

Lemma within_mono (dt dt' a b : float) :
  (dt <=? dt') = true -> within dt a b = true -> within dt' a b = true.
Proof. unfold within. intros H H'. eapply leb_trans; eassumption. Qed.

Lemma filter_length_mono {A : Type} (f g : A -> bool) (l : list A) :
  (forall a, f a = true -> g a = true) ->
  (length (filter f l) <= length (filter g l))%nat.
Proof.
  intros H. induction l as [|a l IH]; [reflexivity|].
  cbn [filter]. destruct (f a) eqn:E.
  - rewrite (H a E). cbn [length]. lia.
  - destruct (g a); cbn [length]; lia.
Qed.

Lemma double_of_nat_mono (c c' : nat) :
  (c <= c')%nat -> (Z.of_nat c' <= 2 ^ 53)%Z ->
  (double_of_nat c <=? double_of_nat c') = true.
Proof.
  intros Hc Hc'.
  destruct (double_of_nat_val c ltac:(lia)) as [Vc Fc].
  destruct (double_of_nat_val c' Hc') as [Vc' Fc'].
  apply leb_true_iff. rewrite Vc, Vc'.
  repeat split; auto using finiteb_not_nan.
  apply Z.mul_le_mono_nonneg_r; [apply Z.lt_le_incl, pow2_pos|]; lia.
Qed.

End Monotone.

(** X5.  On two trains in chronological order, train 1 of fewer than 2^31
    spikes, the count of [run_P] does not go down when delta-t goes up (the
    positive infinity apart). *)
Theorem run_P_monotone_in_dt (dt dt' : float) (train1 train2 : list float) :
  (dt <=? dt') = true -> dt' <> infinity ->
  nondecreasing train1 = true -> nondecreasing train2 = true ->
  (Z.of_nat (length train1) < 2 ^ 31)%Z ->
  (run_P dt train1 train2 <=? run_P dt' train1 train2) = true.
Proof.
  intros Hle Hinf' H1 H2 Hlen.
  assert (dt <> infinity) as Hinf.
  { intros ->. apply Hinf'. apply Prim2SF_infinity.
    apply leb_true_iff in Hle as (_ & N' & Hle).
    unfold F2Z, is_nanb in *. pose proof (Prim2SF_valid dt') as V. pose proof Vinf_pos.
    change (SF2Z (Prim2SF infinity)) with Vinf in Hle.
    destruct (Prim2SF dt') as [s|s| |s m e]; cbn [SF2Z SFis_nan valid_binary] in *;
      try discriminate; try lia.
    - destruct s; cbn [cond_Zopp] in *; [lia|reflexivity].
    - pose proof (bounded_lt_Vinf _ _ V). destruct s; cbn [cond_Zopp] in *; lia. }
  unfold run_P.
  rewrite (run_P_loop_spec dt Hinf train1 train2 0 H1 H2).
  rewrite (run_P_loop_spec dt' Hinf' train1 train2 0 H1 H2). cbn [Nat.add].
  assert (2 ^ 31 < 2 ^ 53)%Z by (apply Z.pow_lt_mono_r; lia).
  pose proof (filter_length_le (fun a => existsb (within dt' a) train2) train1).
  apply double_of_nat_mono; [|lia].
  apply filter_length_mono. intros a Ha.
  apply existsb_exists in Ha as (b & Hb & Hw).
  apply existsb_exists. exists b. split; [assumption|].
  eapply within_mono; eassumption.
Qed.

Lemma run_P_monotone_in_dt_witness :
  (run_P 0.001 [1; 5] [1.001; 5.002] <=? run_P 0.002 [1; 5] [1.001; 5.002]) = true.
Proof.
  apply (run_P_monotone_in_dt 0.001 0.002 [1; 5] [1.001; 5.002]);
    try (vm_compute; reflexivity).
  intros H. apply (f_equal (fun x => x <? infinity)) in H. vm_compute in H. discriminate.
Defined.

(** ** Exact products and quotients *)

Section Identities.

Local Open Scope Z_scope.

(** Rounding a number of the format gives it back. *)
Lemma binary_round_aux_valid (s : bool) (m : positive) (e : Z) :
  bounded prec emax m e = true ->
  binary_round_aux prec emax s (Zpos m) e loc_Exact = S754_finite s m e.
Proof.
  intros Hb. apply bounded_spec in Hb as [Hc He].
  assert (shr_fexp prec emax (Zpos m) e loc_Exact = (Build_shr_record (Zpos m) false false, e)) as E.
  { unfold shr_fexp. cbn [Zdigits2 shr_record_of_loc].
    assert (fexp prec emax (Zpos (digits2_pos m) + e) - e = 0) as ->
      by (unfold fexp, SpecFloat.emin, prec, emax; lia).
    reflexivity. }
  unfold binary_round_aux. rewrite E.
  cbn [shr_m loc_of_shr_record round_nearest_even]. rewrite E. cbn [shr_m].
  assert ((e <=? emax - prec) = true) as -> by (apply Z.leb_le; unfold emax, prec; lia).
  reflexivity.
Qed.

(** [k] right shifts of a mantissa that ends in [k] zero bits. *)
Lemma shr_iter_scaled (M : Z) (k : nat) :
  0 <= M ->
  Nat.iter k shr_1 (Build_shr_record (M * 2 ^ Z.of_nat k) false false) =
    Build_shr_record M false false.
Proof.
  intros HM. destruct k as [|k].
  { cbn [Nat.iter]. change (2 ^ Z.of_nat 0) with 1. rewrite Z.mul_1_r. reflexivity. }
  pose proof (pow2_pos (Z.of_nat (S k)) ltac:(lia)) as HP.
  rewrite shr_iter by lia. f_equal.
  - apply Z.div_mul. lia.
  - rewrite Z.mul_pow2_bits by lia. apply Z.testbit_neg_r. lia.
  - apply negb_false_iff, Z.eqb_eq.
    rewrite (Nat2Z.inj_succ k), Z.pow_succ_r by lia.
    replace (M * (2 * 2 ^ Z.of_nat k)) with (M * 2 * 2 ^ Z.of_nat k) by lia.
    apply Z.mod_mul. pose proof (pow2_pos (Z.of_nat k) ltac:(lia)). lia.
Qed.

(** A mantissa with [k] zero bits appended and the exponent lowered by [k]
    is rounded like the mantissa itself. *)
Lemma binary_round_aux_scale (s : bool) (M : positive) (E k : Z) :
  0 <= k -> E <= fexp prec emax (Zpos (digits2_pos M) + E) ->
  binary_round_aux prec emax s (Zpos M * 2 ^ k) (E - k) loc_Exact =
  binary_round_aux prec emax s (Zpos M) E loc_Exact.
Proof.
  intros Hk HE.
  assert (shr_fexp prec emax (Zpos M * 2 ^ k) (E - k) loc_Exact =
          shr_fexp prec emax (Zpos M) E loc_Exact) as Hs.
  { destruct (Z.eq_dec k 0) as [->|Hk0].
    { change (2 ^ 0) with 1. rewrite Z.mul_1_r, Z.sub_0_r. reflexivity. }
    pose proof (pow2_pos k Hk) as HP.
    destruct (Zpos M * 2 ^ k) as [|Mk|Mk] eqn:EM; try lia.
    unfold shr_fexp. cbn [Zdigits2 shr_record_of_loc].
    rewrite (digits2_pos_shift M Mk k Hk (eq_sym EM)).
    set (n := fexp prec emax (Zpos (digits2_pos M) + E) - E) in *.
    replace (fexp prec emax (Zpos (digits2_pos M) + k + (E - k)) - (E - k)) with (n + k)
      by (unfold n; replace (Zpos (digits2_pos M) + k + (E - k)) with (Zpos (digits2_pos M) + E) by lia; lia).
    assert (0 <= n) as Hn by (unfold n; lia).
    destruct (n + k) as [|p|p] eqn:Enk; try lia. cbn [shr].
    rewrite iter_pos_nat.
    replace (Pos.to_nat p) with (Z.to_nat n + Z.to_nat k)%nat by lia.
    rewrite Nat.iter_add. rewrite <- EM.
    replace (Build_shr_record (Zpos M * 2 ^ k) false false)
      with (Build_shr_record (Zpos M * 2 ^ Z.of_nat (Z.to_nat k)) false false)
      by (rewrite Z2Nat.id by lia; reflexivity).
    rewrite shr_iter_scaled by lia.
    destruct n as [|q|q] eqn:En; try lia; cbn [shr].
    - cbn [Z.to_nat Nat.iter]. f_equal. lia.
    - rewrite iter_pos_nat. cbn [Z.to_nat]. f_equal. lia. }
  unfold binary_round_aux. rewrite Hs. reflexivity.
Qed.

(** A number times 1. *)
Lemma SFmul_one (x : spec_float) :
  valid_binary x = true -> SF64mul x (S754_finite false 4503599627370496 (-52)) = x.
Proof.
  intros Vx. unfold SF64mul.
  destruct x as [s|s| |s m e]; cbn [SFmul]; rewrite ?xorb_false_r; try reflexivity.
  cbn [valid_binary] in Vx.
  rewrite Pos2Z.inj_mul. change (Zpos 4503599627370496) with (2 ^ 52).
  replace (e + -52) with (e - 52) by lia.
  pose proof Vx as Hb. apply bounded_spec in Hb as [Hc He].
  rewrite binary_round_aux_scale
    by (try lia; unfold fexp, SpecFloat.emin, prec, emax; lia).
  apply binary_round_aux_valid. exact Vx.
Qed.

(** Half a number that is not in the lowest binade. *)
Lemma SFmul_half (s : bool) (m : positive) (e : Z) :
  bounded prec emax m e = true -> -1073 <= e ->
  SF64mul (S754_finite false 4503599627370496 (-53)) (S754_finite s m e) =
    S754_finite s m (e - 1).
Proof.
  intros Hb He. unfold SF64mul. cbn [SFmul xorb].
  rewrite Pos2Z.inj_mul. change (Zpos 4503599627370496) with (2 ^ 52).
  rewrite (Z.mul_comm (2 ^ 52)). replace (-53 + e) with (e - 1 - 52) by lia.
  pose proof Hb as Hb'. apply bounded_spec in Hb' as [Hc Hm].
  rewrite binary_round_aux_scale
    by (try lia; unfold fexp, SpecFloat.emin, prec, emax; lia).
  apply binary_round_aux_valid. apply bounded_spec. lia.
Qed.

(** The quotient of two numbers of the same mantissa is a power of 2. *)
Lemma SFdiv_same_mantissa (s1 s2 : bool) (m : positive) (e1 e2 : Z) :
  -1021 <= e1 - e2 ->
  SF64div (S754_finite s1 m e1) (S754_finite s2 m e2) =
    binary_round_aux prec emax (xorb s1 s2) (2 ^ 53) (e1 - e2 - 53) loc_Exact.
Proof.
  intros Hk. unfold SF64div. cbn [SFdiv].
  assert (SFdiv_core_binary prec emax (Zpos m) e1 (Zpos m) e2 =
          (2 ^ 53, e1 - e2 - 53, loc_Exact)) as ->; [|reflexivity].
  unfold SFdiv_core_binary. cbn [Zdigits2].
  replace (Z.min (fexp prec emax (Zpos (digits2_pos m) + e1 - (Zpos (digits2_pos m) + e2)))
             (e1 - e2)) with (e1 - e2 - 53)
    by (unfold fexp, SpecFloat.emin, prec, emax; lia).
  replace (e1 - e2 - (e1 - e2 - 53)) with 53 by lia.
  rewrite Z.shiftl_mul_pow2 by lia.
  assert (Z.div_eucl (Zpos m * 2 ^ 53) (Zpos m) = (2 ^ 53, 0)) as ->.
  { pose proof (Z.div_mul (2 ^ 53) (Zpos m) ltac:(lia)) as Hq.
    pose proof (Z.mod_mul (2 ^ 53) (Zpos m) ltac:(lia)) as Hr.
    rewrite (Z.mul_comm (2 ^ 53)) in Hq, Hr.
    unfold Z.div, Z.modulo in Hq, Hr.
    destruct (Z.div_eucl (Zpos m * 2 ^ 53) (Zpos m)) as [q r]. congruence. }
  unfold new_location, new_location_even, new_location_odd.
  destruct (Z.even (Zpos m)); reflexivity.
Qed.

End Identities.

Section FloatIdentities.

Local Open Scope float_scope.

Lemma mul_one_r (x : float) : x * 1 = x.
Proof.
  apply Prim2SF_inj. rewrite FloatAxioms.mul_spec.
  change (Prim2SF 1) with (S754_finite false 4503599627370496 (-52)).
  apply SFmul_one, Prim2SF_valid.
Qed.

(** A finite number that is not zero, divided by itself. *)
Lemma div_same (x : float) (s : bool) (m : positive) (e : Z) :
  Prim2SF x = S754_finite s m e -> x / x = 1.
Proof.
  intros E. apply Prim2SF_inj. rewrite FloatAxioms.div_spec, E.
  rewrite SFdiv_same_mantissa by lia.
  rewrite Z.sub_diag, xorb_nilpotent. vm_compute. reflexivity.
Qed.

(** Half a number that is not in the lowest binade, divided by the number. *)
Lemma div_half (y : float) (s : bool) (m : positive) (e : Z) :
  Prim2SF y = S754_finite s m e -> (-1073 <= e)%Z -> 0.5 * y / y = 0.5.
Proof.
  intros E He. apply Prim2SF_inj.
  pose proof (Prim2SF_valid y) as Vy. rewrite E in Vy. cbn [valid_binary] in Vy.
  rewrite FloatAxioms.div_spec, FloatAxioms.mul_spec, E.
  change (Prim2SF 0.5) with (S754_finite false 4503599627370496 (-53)).
  rewrite (SFmul_half s m e Vy He).
  rewrite SFdiv_same_mantissa by lia.
  replace (e - 1 - e - 53)%Z with (-54)%Z by lia.
  rewrite xorb_nilpotent. vm_compute. reflexivity.
Qed.

End FloatIdentities.

(** ** The guard of [run_sttc] *)

(** X6.  [run_T] reads [spike_times_1[ 0 ]] whatever [N1] is, so it is
    undefined on the empty train and on no other; [run_sttc] tests
    [N1 == 0 || N2 == 0] before it calls [run_T], so it is defined on every
    input, and stores NaN when a train is empty. *)
Theorem run_sttc_guards_run_T (dt startv endv : float) (train1 train2 : list float) :
  (run_T dt startv endv train1 = None <-> train1 = []) /\
  (exists c, run_sttc dt (startv, endv) train1 train2 = Some c /\
             (train1 = [] \/ train2 = [] -> c = nan)).
Proof.
  split; [apply run_T_none_iff|].
  destruct (run_sttc_defined dt startv endv train1 train2) as [c E].
  exists c. split; [exact E|].
  intros H. rewrite (run_sttc_empty dt startv endv _ _ H) in E. congruence.
Qed.


(** ** A train against itself *)

Section SameTrain.

Local Open Scope Z_scope.

Lemma finite_le_Vmax (m : positive) (e : Z) :
  bounded prec emax m e = true -> Zpos m * 2 ^ (e + 1074) <= Vmax.
Proof.
  intros Hb. pose proof (bounded_emin _ _ Hb) as He.
  apply bounded_spec in Hb as [Hc Hm].
  pose proof (digits2_pos_bounds m) as [_ Hu].
  pose proof (pow2_le (Zpos (digits2_pos m)) 53 ltac:(lia)).
  pose proof (pow2_le (e + 1074) 2045 ltac:(lia)).
  pose proof (pow2_pos (e + 1074) ltac:(lia)).
  unfold Vmax.
  apply Z.le_trans with ((2 ^ 53 - 1) * 2 ^ (e + 1074)).
  - apply Z.mul_le_mono_nonneg_r; lia.
  - apply Z.mul_le_mono_nonneg_l; lia.
Qed.

Lemma finiteb_le_Vmax (x : float) : finiteb x = true -> - Vmax <= F2Z x <= Vmax.
Proof.
  unfold finiteb, F2Z. pose proof (Prim2SF_valid x) as Vx.
  assert (0 <= Vmax) by (vm_compute; discriminate).
  destruct (Prim2SF x) as [s|s| |s m e]; cbn [SFis_finite SF2Z valid_binary] in *;
    try discriminate; intros _; [lia|].
  pose proof (finite_le_Vmax _ _ Vx). destruct s; cbn [cond_Zopp]; lia.
Qed.

(** A finite number of magnitude 2^(j + 53) units or more has an exponent
    above [j], and its value is a multiple of 2^(j + 1) units. *)
Lemma large_value_exponent (x : float) (j : Z) :
  0 <= j -> finiteb x = true -> 2 ^ (j + 53) <= Z.abs (F2Z x) ->
  exists s m e,
    Prim2SF x = S754_finite s m e /\ j + 1 - 1074 <= e /\
    F2Z x = cond_Zopp s (Zpos m * 2 ^ (e + 1074)).
Proof.
  unfold finiteb, F2Z. intros Hj Fx Hx. pose proof (Prim2SF_valid x) as Vx.
  pose proof (pow2_pos (j + 53) ltac:(lia)).
  destruct (Prim2SF x) as [s|s| |s m e]; cbn [SFis_finite SF2Z valid_binary] in *;
    try discriminate; [lia|].
  exists s, m, e. split; [reflexivity|]. split; [|reflexivity].
  pose proof (bounded_emin _ _ Vx) as He.
  apply bounded_spec in Vx as [Hc Hm].
  pose proof (digits2_pos_bounds m) as [_ Hu].
  pose proof (pow2_le (Zpos (digits2_pos m)) 53 ltac:(lia)).
  pose proof (pow2_pos (e + 1074) ltac:(lia)) as HP.
  assert (Z.abs (cond_Zopp s (Zpos m * 2 ^ (e + 1074))) = Zpos m * 2 ^ (e + 1074)) as Ea
    by (destruct s; cbn [cond_Zopp]; lia).
  rewrite Ea in Hx.
  destruct (Z.le_gt_cases (j + 1) (e + 1074)) as [|Hlt]; [lia|exfalso].
  pose proof (pow2_le (e + 1074) j ltac:(lia)).
  rewrite (pow2_split j 53) in Hx by lia.
  assert (Zpos m * 2 ^ (e + 1074) < 2 ^ 53 * 2 ^ j); [|lia].
  apply Z.lt_le_trans with (2 ^ 53 * 2 ^ (e + 1074)).
  - apply Z.mul_lt_mono_pos_r; lia.
  - apply Z.mul_le_mono_nonneg_l; lia.
Qed.

Local Open Scope float_scope.

(** The difference between 1 and a finite number other than 1 is finite and
    at least 2^-53 in magnitude: it is not in the lowest binade. *)
Lemma one_minus_exponent (t : float) :
  finiteb t = true -> (t =? 1) = false ->
  exists s m e, Prim2SF (1 - t) = S754_finite s m e /\ (-1073 <= e)%Z.
Proof.
  intros Ft Ht.
  destruct F2Z_one as [V1 F1].
  destruct (sub_val 1 t F1 Ft) as [Hv Hn]. rewrite V1 in Hv.
  pose proof (pow2_pos 1074 ltac:(lia)) as H1074.
  pose proof (pow2_pos 1021 ltac:(lia)) as H1021.
  assert (2 ^ 1074 = 2 ^ 53 * 2 ^ 1021)%Z as E1074 by (rewrite <- pow2_split by lia; reflexivity).
  assert (2 ^ 1073 = 2 ^ 52 * 2 ^ 1021)%Z as E1073 by (rewrite <- pow2_split by lia; reflexivity).
  set (X := (2 ^ 1074 - F2Z t)%Z) in *.
  assert (X <> 0)%Z as HX0.
  { intros E. assert ((t =? 1) = true); [|congruence].
    apply eqb_true_iff. rewrite V1. repeat split; auto using finiteb_not_nan. unfold X in E. lia. }
  assert (2 ^ 1021 <= Z.abs X)%Z as HX.
  { destruct (Z.le_gt_cases (2 ^ (1020 + 53)) (Z.abs (F2Z t))) as [Hbig|Hsmall].
    - destruct (large_value_exponent t 1020 ltac:(lia) Ft Hbig) as (s & m & e & _ & He & Ev).
      pose proof (pow2_split (e + 1074 - 1021) 1021 ltac:(lia) ltac:(lia)) as Es.
      replace (e + 1074 - 1021 + 1021)%Z with (e + 1074)%Z in Es by lia.
      assert (exists c, F2Z t = c * 2 ^ 1021)%Z as [c Ec].
      { rewrite Ev, Es. destruct s; cbn [cond_Zopp].
        - exists (- (Zpos m * 2 ^ (e + 1074 - 1021)))%Z. lia.
        - exists (Zpos m * 2 ^ (e + 1074 - 1021))%Z. lia. }
      unfold X in *. rewrite Ec, E1074 in *.
      replace (2 ^ 53 * 2 ^ 1021 - c * 2 ^ 1021)%Z with ((2 ^ 53 - c) * 2 ^ 1021)%Z in * by lia.
      rewrite Z.abs_mul, (Z.abs_eq (2 ^ 1021)) by lia.
      assert (1 <= Z.abs (2 ^ 53 - c))%Z by (destruct (Z.eq_dec (2 ^ 53 - c) 0) as [E0|]; [rewrite E0 in HX0|]; lia).
      nia.
    - change (1020 + 53)%Z with 1073%Z in Hsmall. unfold X.
      assert (2 ^ 1021 <= 2 ^ 1073)%Z by (apply pow2_le; lia).
      assert (2 ^ 1074 = 2 * 2 ^ 1073)%Z by (rewrite <- Z.pow_succ_r by lia; reflexivity).
      lia. }
  assert (rnd (2 ^ 1021) = 2 ^ 1021)%Z as R1 by (vm_compute; reflexivity).
  assert (rnd (2 ^ 1074 + Vmax) = Vmax)%Z as R2 by (vm_compute; reflexivity).
  assert (Vmax < Vinf)%Z as HV by (vm_compute; reflexivity).
  pose proof (finiteb_le_Vmax t Ft) as Hb.
  assert (2 ^ 1021 <= Z.abs (rnd X) <= Vmax)%Z as Hr.
  { destruct (Z.le_gt_cases 0 X) as [Hpos|Hneg].
    - pose proof (rnd_mono (2 ^ 1021) X ltac:(lia)) as Hlo.
      pose proof (rnd_mono X (2 ^ 1074 + Vmax) ltac:(unfold X; lia)) as Hhi.
      rewrite R1 in Hlo. rewrite R2 in Hhi. lia.
    - pose proof (rnd_mono (2 ^ 1021) (- X) ltac:(lia)) as Hlo.
      pose proof (rnd_mono (- X) (2 ^ 1074 + Vmax) ltac:(unfold X; lia)) as Hhi.
      rewrite R1, rnd_opp in Hlo. rewrite R2, rnd_opp in Hhi. lia. }
  rewrite <- Hv in Hr.
  assert (finiteb (1 - t) = true) as Fy by (apply finiteb_of_val; [assumption|lia]).
  destruct (large_value_exponent (1 - t) 968 ltac:(lia) Fy ltac:(change (968 + 53)%Z with 1021%Z; lia))
    as (s & m & e & E & He & _).
  exists s, m, e. split; [exact E|lia].
Qed.

(** The term of the coefficient for a proportion of spikes of 1 on both
    sides: one half, unless the proportion of time is 1. *)
Lemma sttc_term_one (t : float) :
  finiteb t = true -> (t =? 1) = false -> 0.5 * (1 - t) / (1 - t * 1) = 0.5.
Proof.
  intros Ft Ht. rewrite mul_one_r.
  destruct (one_minus_exponent t Ft Ht) as (s & m & e & E & He).
  exact (div_half (1 - t) s m e E He).
Qed.

(** The count of a train, not empty and of fewer than 2^31 spikes, divided
    by itself. *)
Lemma double_of_nat_div_same (n : nat) :
  (1 <= Z.of_nat n < 2 ^ 31)%Z -> double_of_nat n / double_of_nat n = 1.
Proof.
  intros Hn.
  assert (2 ^ 31 < 2 ^ 32)%Z by (apply Z.pow_lt_mono_r; lia).
  assert (2 ^ 32 < 2 ^ 53)%Z by (apply Z.pow_lt_mono_r; lia).
  destruct (double_of_nat_val n ltac:(lia)) as [Hv _].
  destruct (Prim2SF_int (double_of_nat n) (Z.of_nat n) Hv ltac:(lia)) as (m & e & E & _).
  exact (div_same _ _ _ _ E).
Qed.

(** Every spike of a train of finite spikes is within a delta-t that is not
    below zero of a spike of the train: itself. *)
Lemma within_self (dt a : float) :
  (0 <=? dt) = true -> finiteb a = true -> within dt a a = true.
Proof.
  intros Hdt Fa. apply leb_true_iff in Hdt as (_ & Ndt & Hdt).
  change (F2Z 0) with 0%Z in Hdt.
  apply (within_finite dt a a Fa Fa). split; [assumption|].
  rewrite Z.sub_diag, rnd_0. cbn. lia.
Qed.

Lemma run_P_same_train (dt : float) (train : list float) :
  (0 <=? dt) = true -> dt <> infinity ->
  nondecreasing train = true -> forallb finiteb train = true ->
  run_P dt train train = double_of_nat (length train).
Proof.
  intros Hdt Hinf Hs Hf. unfold run_P.
  rewrite (run_P_loop_spec dt Hinf train train 0 Hs Hs). cbn [Nat.add].
  rewrite forallb_filter_id; [reflexivity|].
  rewrite forallb_forall in Hf |- *.
  intros a Ha. apply existsb_exists. exists a. split; [assumption|].
  apply within_self; auto.
Qed.

End SameTrain.

(** X7.  A train against itself: for a train of finite spikes in
    chronological order, not empty and of fewer than 2^31 spikes, a finite
    delta-t that is not below zero, and a proportion of time covered
    [run_T / T] that is finite and not 1, the coefficient is exactly 1.
    (Every spike matches itself, so both proportions of spikes are 1, and
    each term is one half.) *)
Theorem run_sttc_same_train (dt startv endv : float) (train : list float) (tA : float) :
  train <> [] -> (Z.of_nat (length train) < 2 ^ 31)%Z ->
  nondecreasing train = true -> forallb finiteb train = true ->
  (0 <=? dt) = true -> finiteb dt = true ->
  run_T dt startv endv train = Some tA ->
  finiteb (tA / (endv - startv)) = true ->
  (tA / (endv - startv) =? 1) = false ->
  run_sttc dt (startv, endv) train train = Some 1.
Proof.
  intros Hne Hlen Hs Hf Hdt Fdt ET FT HT.
  assert (dt <> infinity) as Hinf by (intros ->; vm_compute in Fdt; discriminate).
  rewrite (run_sttc_nonempty dt startv endv train train tA tA Hne Hne ET ET).
  rewrite (run_P_same_train dt train Hdt Hinf Hs Hf).
  rewrite double_of_nat_div_same by (destruct train; [contradiction|cbn [length] in *; lia]).
  unfold sttc_formula. rewrite (sttc_term_one _ FT HT). reflexivity.
Qed.

Lemma run_sttc_same_train_witness :
  run_sttc 0.001 (0, 10) [1; 5] [1; 5] = Some 1.
Proof.
  apply (run_sttc_same_train 0.001 0 10 [1; 5] 0.004);
    [discriminate | reflexivity | vm_compute; reflexivity ..].
Defined.

(** X19.  A train against itself when the proportion of time covered is
    exactly 1 (the coverage of the spikes, as [run_T] computes it, is the
    whole window): both denominators [1 - TA * PA] are zero, both terms are
    0/0, and the coefficient is NaN; no test is made for it. *)
Theorem run_sttc_same_train_full_cover (dt startv endv : float) (train : list float)
    (tA : float) :
  train <> [] -> (Z.of_nat (length train) < 2 ^ 31)%Z ->
  nondecreasing train = true -> forallb finiteb train = true ->
  (0 <=? dt) = true -> finiteb dt = true ->
  run_T dt startv endv train = Some tA ->
  tA / (endv - startv) = 1 ->
  run_sttc dt (startv, endv) train train = Some nan.
Proof.
  intros Hne Hlen Hs Hf Hdt Fdt ET HT.
  assert (dt <> infinity) as Hinf by (intros ->; vm_compute in Fdt; discriminate).
  rewrite (run_sttc_nonempty dt startv endv train train tA tA Hne Hne ET ET).
  rewrite (run_P_same_train dt train Hdt Hinf Hs Hf).
  rewrite double_of_nat_div_same by (destruct train; [contradiction|cbn [length] in *; lia]).
  rewrite HT. vm_compute. reflexivity.
Qed.

Lemma run_sttc_same_train_full_cover_witness :
  run_sttc 0.5 (0, 1) [0.25; 0.75] [0.25; 0.75] = Some nan.
Proof.
  apply (run_sttc_same_train_full_cover 0.5 0 1 [0.25; 0.75] 1);
    [discriminate | reflexivity | vm_compute; reflexivity ..].
Defined.

(** ** The proportions of spikes *)

Section Proportion.

Local Open Scope Z_scope.

(** A count divided by a larger count, both below 2^32: the quotient is not
    above 1. *)
Lemma div_int_lt_val (x y : float) (k1 k2 : Z) :
  F2Z x = k1 * 2 ^ 1074 -> F2Z y = k2 * 2 ^ 1074 -> 1 <= k1 < k2 -> k2 < 2 ^ 32 ->
  is_nanb (x / y)%float = false /\ 0 <= F2Z (x / y)%float <= 2 ^ 1074.
Proof.
  intros Hx Hy Hk1 Hk2.
  destruct (Prim2SF_int x k1 Hx ltac:(lia)) as (mx & ex & Ex & Hdx & Hex & Hvx).
  destruct (Prim2SF_int y k2 Hy ltac:(lia)) as (my & ey & Ey & Hdy & Hey & Hvy).
  unfold is_nanb, F2Z. rewrite FloatAxioms.div_spec, Ex, Ey.
  unfold SF64div. cbn [SFdiv xorb].
  unfold SFdiv_core_binary. cbn [Zdigits2]. rewrite Hdx, Hdy.
  replace (Z.min (fexp prec emax (53 + ex - (53 + ey))) (ex - ey)) with (ex - ey - 53)
    by (unfold fexp, SpecFloat.emin, prec, emax; lia).
  replace (ex - ey - (ex - ey - 53)) with 53 by lia.
  rewrite Z.shiftl_mul_pow2 by lia.
  pose proof (digits2_pos_bounds mx) as [Hlx Hux]. rewrite Hdx in Hlx, Hux.
  pose proof (digits2_pos_bounds my) as [Hly Huy]. rewrite Hdy in Hly, Huy.
  change (2 ^ (53 - 1)) with (2 ^ 52) in *.
  pose proof (pow2_pos 52 ltac:(lia)) as H52. pose proof (pow2_pos 53 ltac:(lia)) as H53.
  assert (2 ^ 53 = 2 * 2 ^ 52) as E53 by reflexivity.
  set (t := 53 + (ey - ex)).
  pose proof (pow2_pos t ltac:(unfold t; lia)) as Ht.
  (* the exact quotient is below 2^t *)
  assert (Zpos mx * 2 ^ 53 < Zpos my * 2 ^ t) as Hlt.
  { pose proof (pow2_pos (ex + 1074) ltac:(lia)) as Ha.
    apply (Z.mul_lt_mono_pos_r (2 ^ (ex + 1074))); [assumption|].
    replace (Zpos my * 2 ^ t * 2 ^ (ex + 1074)) with (Zpos my * 2 ^ (ey + 1074) * 2 ^ 53).
    - replace (Zpos mx * 2 ^ 53 * 2 ^ (ex + 1074)) with (Zpos mx * 2 ^ (ex + 1074) * 2 ^ 53) by lia.
      rewrite Hvx, Hvy. pose proof (pow2_pos 1074 ltac:(lia)). nia.
    - rewrite <- !Z.mul_assoc. f_equal. rewrite <- !pow2_split by (unfold t; lia).
      f_equal. unfold t. lia. }
  assert (Z.div_eucl (Zpos mx * 2 ^ 53) (Zpos my)
          = (Zpos mx * 2 ^ 53 / Zpos my, (Zpos mx * 2 ^ 53) mod Zpos my)) as ->
    by (unfold Z.div, Z.modulo; destruct (Z.div_eucl (Zpos mx * 2 ^ 53) (Zpos my)); reflexivity).
  set (lz := new_location (Zpos my) _).
  assert (2 ^ 52 <= Zpos mx * 2 ^ 53 / Zpos my < 2 ^ t) as [Hq1 Hq2].
  { split.
    - apply Z.div_le_lower_bound; [lia|]. nia.
    - apply Z.div_lt_upper_bound; [lia|]. lia. }
  assert (2 ^ t <= 2 ^ 84) as Ht84 by (apply pow2_le; unfold t; lia).
  destruct (Zpos mx * 2 ^ 53 / Zpos my) as [|q|q] eqn:Eq; [lia| |lia].
  pose proof (digits2_pos_bounds q) as [Hql Hqu].
  set (d := Zpos (digits2_pos q)) in *.
  assert (53 <= d) as Hd.
  { destruct (Z.le_gt_cases 53 d); [assumption|exfalso].
    pose proof (pow2_le d 52 ltac:(lia)). lia. }
  assert (d <= t) as Hdt.
  { destruct (Z.le_gt_cases d t); [assumption|exfalso].
    pose proof (pow2_le t (d - 1) ltac:(unfold t; lia)). lia. }
  destruct (binary_round_aux_shape false q (ex - ey - 53) lz) as [Hm1 [Hv Hn]];
    [lia | fold d; unfold fexp, SpecFloat.emin, prec, emax; lia |].
  fold d in Hm1, Hv.
  set (n := Z.max (d - 53) 0) in *.
  set (m1 := round_nearest_even _ _) in *.
  split; [exact Hn|]. rewrite Hv. cbn [cond_Zopp].
  pose proof (pow2_pos n ltac:(lia)) as Hpn.
  assert (0 <= Zpos q / 2 ^ n) by (apply Z.div_pos; lia).
  assert (Zpos q / 2 ^ n < 2 ^ (t - n)) as Hqn.
  { apply Z.div_lt_upper_bound; [lia|].
    rewrite <- pow2_split by (unfold n, t in *; lia).
    replace (n + (t - n)) with t by lia. lia. }
  set (U := 2 ^ (ex - ey - 53 + n + 1074)).
  assert (0 < U) as HU by (apply pow2_pos; lia).
  assert (2 ^ (t - n) * U = 2 ^ 1074) as EU.
  { unfold U. rewrite <- pow2_split by (unfold n, t in *; lia). f_equal. unfold t. lia. }
  assert (0 <= m1 * U <= 2 ^ 1074) as Hb.
  { split; [apply Z.mul_nonneg_nonneg; lia|].
    rewrite <- EU. apply Z.mul_le_mono_nonneg_r; lia. }
  assert (2 ^ 1074 < Vinf) by (apply Z.pow_lt_mono_r; lia).
  unfold cap. assert ((m1 * U <? Vinf) = true) as -> by (apply Z.ltb_lt; lia).
  exact Hb.
Qed.

(** A number divided by 1. *)
Lemma SFdiv_one (x : spec_float) :
  valid_binary x = true -> SF64div x (S754_finite false 4503599627370496 (-52)) = x.
Proof.
  intros Vx. unfold SF64div.
  destruct x as [s|s| |s m e]; cbn [SFdiv]; rewrite ?xorb_false_r; try reflexivity.
  cbn [valid_binary] in Vx. pose proof Vx as Hb. apply bounded_spec in Hb as [Hc He].
  assert (exists k, (k = 0 \/ k = 1) /\
          SFdiv_core_binary prec emax (Zpos m) e 4503599627370496 (-52) =
            (Zpos m * 2 ^ k, e - k, loc_Exact)) as (k & Hk & ->).
  { unfold SFdiv_core_binary. cbn [Zdigits2].
    change (Zpos (digits2_pos 4503599627370496)) with 53.
    assert (forall M, 0 <= M -> Z.div_eucl (M * 2 ^ 52) 4503599627370496 = (M, 0)) as Hdiv.
    { intros M HM. change 4503599627370496 with (2 ^ 52).
      pose proof (Z.div_mul M (2 ^ 52) ltac:(lia)) as Hq.
      pose proof (Z.mod_mul M (2 ^ 52) ltac:(lia)) as Hr.
      unfold Z.div, Z.modulo in Hq, Hr.
      destruct (Z.div_eucl (M * 2 ^ 52) (2 ^ 52)) as [q r]. congruence. }
    destruct (Z.eq_dec e (-1074)) as [E|E].
    - exists 0. split; [auto|].
      replace (Z.min (fexp prec emax (Zpos (digits2_pos m) + e - (53 + -52))) (e - -52))
        with e by (unfold fexp, SpecFloat.emin, prec, emax; lia).
      replace (e - -52 - e) with 52 by lia.
      rewrite Z.shiftl_mul_pow2, Hdiv by lia.
      change (2 ^ 0) with 1. rewrite Z.mul_1_r, Z.sub_0_r. reflexivity.
    - exists 1. split; [auto|].
      replace (Z.min (fexp prec emax (Zpos (digits2_pos m) + e - (53 + -52))) (e - -52))
        with (e - 1) by (unfold fexp, SpecFloat.emin, prec, emax; lia).
      replace (e - -52 - (e - 1)) with 53 by lia.
      rewrite Z.shiftl_mul_pow2 by lia.
      replace (Zpos m * 2 ^ 53) with (Zpos m * 2 ^ 1 * 2 ^ 52)
        by (rewrite <- Z.mul_assoc, <- pow2_split by lia; reflexivity).
      rewrite Hdiv by lia. reflexivity. }
  rewrite binary_round_aux_scale
    by (try lia; unfold fexp, SpecFloat.emin, prec, emax; lia).
  apply binary_round_aux_valid. exact Vx.
Qed.

Local Open Scope float_scope.

Lemma div_one_r (x : float) : x / 1 = x.
Proof.
  apply Prim2SF_inj. rewrite FloatAxioms.div_spec.
  change (Prim2SF 1) with (S754_finite false 4503599627370496 (-52)).
  apply SFdiv_one, Prim2SF_valid.
Qed.

Lemma sub_zero_r (x : float) : x - 0 = x.
Proof.
  apply Prim2SF_inj. rewrite FloatAxioms.sub_spec.
  change (Prim2SF 0) with (S754_zero false). unfold SF64sub.
  destruct (Prim2SF x) as [[|]|[|]| |s m e]; reflexivity.
Qed.

(** 1 less zero times a finite number. *)
Lemma one_minus_zero_mul (p : float) : finiteb p = true -> 1 - 0 * p = 1.
Proof.
  unfold finiteb. intros Fp. apply Prim2SF_inj.
  rewrite FloatAxioms.sub_spec, FloatAxioms.mul_spec.
  change (Prim2SF 0) with (S754_zero false).
  destruct (Prim2SF p) as [s|s| |s m e]; try discriminate;
    unfold SF64mul; cbn [SFmul]; vm_compute; reflexivity.
Qed.

(** The count of [run_P] over the length of train 1. *)
Lemma proportion_val (c n : nat) :
  (c <= n)%nat -> (1 <= Z.of_nat n < 2 ^ 31)%Z ->
  let P := double_of_nat c / double_of_nat n in
  is_nanb P = false /\ (0 <= F2Z P <= 2 ^ 1074)%Z.
Proof.
  intros Hc Hn P.
  assert (2 ^ 31 < 2 ^ 32)%Z by (apply Z.pow_lt_mono_r; lia).
  assert (2 ^ 32 < 2 ^ 53)%Z by (apply Z.pow_lt_mono_r; lia).
  pose proof (pow2_pos 1074 ltac:(lia)) as HU.
  destruct (double_of_nat_val n ltac:(lia)) as [Vn _].
  destruct (Nat.eq_dec c 0) as [->|Hc0]; [|destruct (Nat.eq_dec c n) as [->|Hcn]].
  - destruct (Prim2SF_int (double_of_nat n) (Z.of_nat n) Vn ltac:(lia)) as (m & e & E & _).
    assert (Prim2SF P = S754_zero false) as EP.
    { unfold P. rewrite FloatAxioms.div_spec, E. reflexivity. }
    unfold is_nanb, F2Z. rewrite EP. cbn. lia.
  - unfold P. rewrite double_of_nat_div_same by lia.
    destruct F2Z_one as [-> _]. split; [reflexivity|lia].
  - destruct (double_of_nat_val c ltac:(lia)) as [Vc _].
    apply (div_int_lt_val _ _ (Z.of_nat c) (Z.of_nat n)); auto; lia.
Qed.

End Proportion.

(** X8.  The proportion of spikes that [run_sttc] forms, the count of
    [run_P] divided by the length of train 1, is a number from 0 to 1,
    whatever the order of the spikes and whatever delta-t, for a train 1
    that is not empty and has fewer than 2^31 spikes. *)
Theorem run_P_proportion_in_unit (dt : float) (train1 train2 : list float) :
  train1 <> [] -> (Z.of_nat (length train1) < 2 ^ 31)%Z ->
  let PA := run_P dt train1 train2 / double_of_nat (length train1) in
  (0 <=? PA) = true /\ (PA <=? 1) = true.
Proof.
  intros Hne Hlen PA.
  pose proof (run_P_loop_le dt train2 train1 train2 [] 0 eq_refl) as [_ Hc].
  cbn [Nat.add] in Hc.
  pose proof (filter_length_le (fun a => existsb (within dt a) train2) train1) as Hf.
  destruct (proportion_val (run_P_loop dt train1 train2 0) (length train1)) as [HN HV];
    [lia | destruct train1; [contradiction | cbn [length] in *; lia] |].
  fold (run_P dt train1 train2) in HN, HV. fold PA in HN, HV.
  destruct F2Z_one as [V1 _].
  split; apply leb_true_iff; repeat split; auto.
  - change (F2Z 0) with 0%Z. lia.
  - rewrite V1. lia.
Qed.

Lemma run_P_proportion_in_unit_witness :
  let PA := run_P 0.001 [5; 1; 5] [1.001; 5.002] / double_of_nat (length [5; 1; 5]) in
  (0 <=? PA) = true /\ (PA <=? 1) = true.
Proof.
  apply (run_P_proportion_in_unit 0.001 [5; 1; 5] [1.001; 5.002]);
    [discriminate | reflexivity].
Defined.

(** ** The coefficient at a delta-t of zero *)

Section ZeroDtCoefficient.

Local Open Scope float_scope.

(** The upper bound [2 * N * dt] of [run_T] at a delta-t of zero. *)
Lemma two_n_zero (n : nat) :
  (1 <= Z.of_nat n < 2 ^ 32)%Z -> 2 * double_of_nat n * 0 = 0.
Proof.
  intros Hn.
  assert (2 ^ 32 < 2 ^ 53)%Z by (apply Z.pow_lt_mono_r; lia).
  destruct (double_of_nat_val n ltac:(lia)) as [Hv _].
  destruct (Prim2SF_int _ _ Hv Hn) as (m & e & E & Hd & He & _).
  apply Prim2SF_inj. rewrite !FloatAxioms.mul_spec, E.
  change (Prim2SF 2) with (S754_finite false 4503599627370496 (-51)).
  change (Prim2SF 0) with (S754_zero false).
  assert (SF64mul (S754_finite false 4503599627370496 (-51)) (S754_finite false m e)
          = S754_finite false m (e + 1)) as ->; [|reflexivity].
  unfold SF64mul. cbn [SFmul xorb].
  rewrite Pos2Z.inj_mul. change (Zpos 4503599627370496) with (2 ^ 52)%Z.
  rewrite (Z.mul_comm (2 ^ 52)). replace (-51 + e)%Z with (e + 1 - 52)%Z by lia.
  rewrite binary_round_aux_scale
    by (try lia; unfold fexp, SpecFloat.emin, prec, emax; lia).
  apply binary_round_aux_valid. apply bounded_spec. lia.
Qed.

(** The difference of two finite numbers in order is not below zero. *)
Lemma sub_not_neg (a b : float) :
  finiteb a = true -> finiteb b = true -> (a <=? b) = true -> (b - a <? 0) = false.
Proof.
  intros Fa Fb Hle. apply leb_true_iff in Hle as (_ & _ & Hle).
  destruct (b - a <? 0) eqn:E; [exfalso|reflexivity].
  apply ltb_true_iff in E as (_ & _ & E). change (F2Z 0) with 0%Z in E.
  destruct (sub_val b a Fb Fa) as [Hv _]. rewrite Hv in E.
  pose proof (rnd_mono 0 (F2Z b - F2Z a) ltac:(lia)) as Hm. rewrite rnd_0 in Hm. lia.
Qed.

Lemma finiteb_rnd (x : float) : finiteb x = true -> rnd (F2Z x) = F2Z x.
Proof.
  unfold finiteb, F2Z. intros Fx. apply rnd_valid; [apply Prim2SF_valid|assumption].
Qed.

(** A spike that is not after the window end, with zero added. *)
Lemma add_zero_not_after (t endv : float) :
  finiteb t = true -> (t <=? endv) = true -> (endv <? t + 0) = false.
Proof.
  intros Ft Hle. apply leb_true_iff in Hle as (_ & _ & Hle).
  destruct (endv <? t + 0) eqn:E; [exfalso|reflexivity].
  apply ltb_true_iff in E as (_ & _ & E).
  destruct (add_val t 0 Ft eq_refl) as [Hv _]. change (F2Z 0) with 0%Z in Hv.
  rewrite Z.add_0_r, finiteb_rnd in Hv by assumption. lia.
Qed.

Lemma last_in {A : Type} (a : A) (l : list A) (d : A) : In (last (a :: l) d) (a :: l).
Proof.
  revert a. induction l as [|b l IH]; intros a; [left; reflexivity|].
  right. change (last (a :: b :: l) d) with (last (b :: l) d). apply IH.
Qed.

(** At a delta-t of zero no two spikes in order overlap. *)
Lemma run_T_overlap_zero (s : list float) (time_A : float) :
  nondecreasing s = true -> forallb finiteb s = true ->
  run_T_overlap 0 s time_A = time_A.
Proof.
  revert time_A. induction s as [|a s IH]; intros time_A Hs Hf; [reflexivity|].
  destruct s as [|b s]; [reflexivity|].
  cbn [run_T_overlap]. change (2 * 0) with 0.
  pose proof Hf as Hf'. cbn [forallb] in Hf'.
  apply andb_true_iff in Hf' as [Fa Hf']. apply andb_true_iff in Hf' as [Fb _].
  pose proof Hs as Hs'. cbn [nondecreasing] in Hs'. apply andb_true_iff in Hs' as [Hab _].
  rewrite (sub_not_neg a b Fa Fb Hab).
  apply IH; [eapply nondecreasing_tail; eassumption|].
  cbn [forallb] in Hf. apply andb_true_iff in Hf as [_ Hf]. exact Hf.
Qed.

Variables (startv endv : float).
Hypothesis window : (startv <? endv) = true.
Hypothesis start_finite : finiteb startv = true.
Hypothesis end_finite : finiteb endv = true.

Lemma in_window_finite (t : float) :
  in_window startv endv t = true ->
  finiteb t = true /\ (startv <=? t) = true /\ (t <=? endv) = true.
Proof.
  unfold in_window. rewrite andb_true_iff. intros [H0 H1]. split; [|auto].
  pose proof H0 as H0'. pose proof H1 as H1'.
  apply leb_true_iff in H0' as (_ & Nt & H0'). apply leb_true_iff in H1' as (_ & _ & H1').
  apply (finiteb_between startv t endv); auto.
Qed.

(** At a delta-t of zero a train inside the window covers no time. *)
Lemma run_T_zero (s : list float) :
  s <> [] -> (Z.of_nat (length s) < 2 ^ 31)%Z ->
  nondecreasing s = true -> forallb (in_window startv endv) s = true ->
  run_T 0 startv endv s = Some 0.
Proof.
  intros Hne Hlen Hs Hw.
  assert (2 ^ 31 < 2 ^ 32)%Z by (apply Z.pow_lt_mono_r; lia).
  rewrite forallb_forall in Hw.
  assert (forall t, In t s -> finiteb t = true) as Hfin
    by (intros t Ht; apply in_window_finite; auto).
  destruct s as [|t0 rest]; [contradiction|].
  destruct (in_window_finite t0 (Hw t0 (or_introl eq_refl))) as (F0 & H0s & H0e).
  unfold run_T. rewrite two_n_zero by (cbn [length] in *; lia).
  rewrite (sub_not_neg startv t0 start_finite F0 H0s).
  destruct rest as [|t1 rest].
  - rewrite (add_zero_not_after t0 endv F0 H0e). reflexivity.
  - rewrite run_T_overlap_zero; [|assumption|apply forallb_forall; assumption].
    set (tN := last (t0 :: t1 :: rest) t0).
    pose proof (last_in t0 (t1 :: rest) t0) as HN. fold tN in HN.
    destruct (in_window_finite tN (Hw tN HN)) as (FN & _ & HNe).
    rewrite (sub_not_neg tN endv FN end_finite HNe). reflexivity.
Qed.

(** Zero over the length of the window. *)
Lemma zero_div_window : 0 / (endv - startv) = 0.
Proof.
  apply ltb_true_iff in window as (_ & _ & Hlt).
  destruct (sub_val endv startv end_finite start_finite) as [Hv Hn].
  pose proof (rnd_mono 1 (F2Z endv - F2Z startv) ltac:(lia)) as Hm.
  change (rnd 1) with 1%Z in Hm. rewrite <- Hv in Hm.
  apply Prim2SF_inj. rewrite FloatAxioms.div_spec.
  change (Prim2SF 0) with (S754_zero false).
  unfold F2Z, is_nanb in *. pose proof Vinf_pos.
  pose proof (Prim2SF_valid (endv - startv)) as VT.
  destruct (Prim2SF (endv - startv)) as [s|s| |s m e];
    cbn [SF2Z SFis_nan valid_binary] in *; try discriminate; try lia.
  - destruct s; cbn [cond_Zopp] in *; [lia|reflexivity].
  - pose proof (bounded_lt_Vinf _ _ VT).
    destruct s; cbn [cond_Zopp] in *; [lia|reflexivity].
Qed.

End ZeroDtCoefficient.

(** X9.  At a delta-t of zero, for two trains in chronological order
    inside a finite window, not empty and of fewer than 2^31 spikes each:
    [run_T] is 0 for both, and the coefficient is the mean of the two
    proportions of spikes, [0.5 * PA + 0.5 * PB]. *)
Theorem run_sttc_zero_dt (startv endv : float) (train1 train2 : list float) :
  (startv <? endv) = true -> finiteb startv = true -> finiteb endv = true ->
  train1 <> [] -> train2 <> [] ->
  (Z.of_nat (length train1) < 2 ^ 31)%Z -> (Z.of_nat (length train2) < 2 ^ 31)%Z ->
  nondecreasing train1 = true -> nondecreasing train2 = true ->
  forallb (in_window startv endv) train1 = true ->
  forallb (in_window startv endv) train2 = true ->
  run_T 0 startv endv train1 = Some 0 /\
  run_T 0 startv endv train2 = Some 0 /\
  run_sttc 0 (startv, endv) train1 train2 =
    Some (0.5 * (run_P 0 train1 train2 / double_of_nat (length train1))
          + 0.5 * (run_P 0 train2 train1 / double_of_nat (length train2))).
Proof.
  intros Hw Fs Fe Hne1 Hne2 Hl1 Hl2 Hs1 Hs2 Hw1 Hw2.
  pose proof (run_T_zero startv endv Fs Fe train1 Hne1 Hl1 Hs1 Hw1) as ET1.
  pose proof (run_T_zero startv endv Fs Fe train2 Hne2 Hl2 Hs2 Hw2) as ET2.
  split; [exact ET1|]. split; [exact ET2|].
  rewrite (run_sttc_nonempty 0 startv endv train1 train2 0 0 Hne1 Hne2 ET1 ET2).
  rewrite (zero_div_window startv endv Hw Fs Fe).
  assert (forall t1 t2, t1 <> [] -> (Z.of_nat (length t1) < 2 ^ 31)%Z ->
          finiteb (run_P 0 t1 t2 / double_of_nat (length t1)) = true) as HP.
  { intros t1 t2 Hne Hl.
    pose proof (run_P_loop_le 0 t2 t1 t2 [] 0 eq_refl) as [_ Hc]. cbn [Nat.add] in Hc.
    pose proof (filter_length_le (fun a => existsb (within 0 a) t2) t1) as Hf.
    destruct (proportion_val (run_P_loop 0 t1 t2 0) (length t1)) as [HN HV];
      [lia | destruct t1; [contradiction | cbn [length] in *; lia] |].
    apply finiteb_of_val; [exact HN|].
    assert (2 ^ 1074 < Vinf)%Z by (apply Z.pow_lt_mono_r; lia).
    pose proof Vinf_pos. fold (run_P 0 t1 t2) in HV. lia. }
  unfold sttc_formula.
  rewrite !sub_zero_r, !one_minus_zero_mul, !div_one_r by (apply HP; assumption).
  reflexivity.
Qed.

Lemma run_sttc_zero_dt_witness :
  run_T 0 0 10 [1; 5] = Some 0 /\
  run_T 0 0 10 [1; 5.002] = Some 0 /\
  run_sttc 0 (0, 10) [1; 5] [1; 5.002] =
    Some (0.5 * (run_P 0 [1; 5] [1; 5.002] / double_of_nat (length [1; 5]))
          + 0.5 * (run_P 0 [1; 5.002] [1; 5] / double_of_nat (length [1; 5.002]))).
Proof.
  apply (run_sttc_zero_dt 0 10 [1; 5] [1; 5.002]);
    try discriminate; vm_compute; reflexivity.
Defined.

(** ** Window clipping that stays inside the buffer *)

(** X10.  For a train in chronological order with a spike that is not before
    the window start, clipping returns the spikes [t] of the train with
    [win0 <= t <= win1], both ends included, in their order. *)
Theorem clip_keeps_window_spikes (win0 win1 : float) (A : list float) :
  (win0 <? win1) = true -> nondecreasing A = true ->
  forallb (fun a => a <? win0) A = false ->
  clip win0 win1 A = Some (filter (in_window win0 win1) A).
Proof.
  intros Hw Hs Hne.
  destruct (clip win0 win1 A) as [l|] eqn:E.
  - f_equal. eapply clip_in_window; eassumption.
  - apply clip_none_iff in E. congruence.
Qed.

Lemma clip_keeps_window_spikes_witness :
  clip 0 1 [-5; 0.5; 1; 5] = Some (filter (in_window 0 1) [-5; 0.5; 1; 5]) /\
  filter (in_window 0 1) [-5; 0.5; 1; 5] = [0.5; 1].
Proof.
  split; [|vm_compute; reflexivity].
  apply (clip_keeps_window_spikes 0 1 [-5; 0.5; 1; 5]); vm_compute; reflexivity.
Defined.

(** X11.  Whatever the order of the spikes, a clipping that returns gives
    back one stretch of the train, nothing dropped inside it and nothing
    moved: what comes before it is the longest run of leading spikes before
    the window start, the stretch is the longest run of spikes not after the
    window end that follows, and the train goes on, if at all, with a spike
    after the end. *)
Theorem clip_returns_a_stretch (win0 win1 : float) (A l : list float) :
  clip win0 win1 A = Some l ->
  exists pre post,
    A = pre ++ l ++ post /\
    forallb (fun a => a <? win0) pre = true /\
    forallb (fun a => a <=? win1) l = true /\
    match l ++ post with a :: _ => (a <? win0) = false | [] => False end /\
    match post with a :: _ => (a <=? win1) = false | [] => True end.
Proof. apply clip_some. Qed.

Lemma clip_returns_a_stretch_witness :
  exists pre post,
    [-1; 5; 1; 2; 20; 3] = pre ++ [5; 1; 2] ++ post /\
    forallb (fun a => a <? 3) pre = true /\
    forallb (fun a => a <=? 10) [5; 1; 2] = true /\
    match [5; 1; 2] ++ post with a :: _ => (a <? 3) = false | [] => False end /\
    match post with a :: _ => (a <=? 10) = false | [] => True end.
Proof.
  apply (clip_returns_a_stretch 3 10 [-1; 5; 1; 2; 20; 3] [5; 1; 2]).
  vm_compute. reflexivity.
Defined.

(** X12.  Clipping is idempotent on what it returns, the empty train apart:
    a clipped train that has a spike is given back unchanged by a second
    clipping to the same window. *)
Theorem clip_idempotent (win0 win1 : float) (A l : list float) :
  clip win0 win1 A = Some l -> l <> [] -> clip win0 win1 l = Some l.
Proof. apply clip_idempotent_nonempty. Qed.

Lemma clip_idempotent_witness :
  clip 0 1 [0.25; 0.5] = Some [0.25; 0.5].
Proof.
  apply (clip_idempotent 0 1 [-5; 0.25; 0.5; 5] [0.25; 0.5]);
    [vm_compute; reflexivity | discriminate].
Defined.

(** X13.  The second clipping loop tests [i < Na] before it reads [A[ i ]]:
    on a buffer of [Na] elements or more it never reads outside, and it
    stops at an [i] of [Na] at most with the first [i] spikes not after the
    window end. *)
Theorem last_within_in_bounds (win1 : float) (A : list float) (Na : nat) :
  (Na <= length A)%nat ->
  exists i,
    last_within win1 A Na 0 = Some i /\ (i <= Na)%nat /\
    forallb (fun a => a <=? win1) (firstn i A) = true /\
    ((i < Na)%nat -> exists a, nth_error A i = Some a /\ (a <=? win1) = false).
Proof.
  intros H.
  destruct (last_within_spec win1 A Na 0) as (k & E & Hk & Hm & Hf & Hn); [lia|].
  cbn [Nat.add] in *. exists k. split; [exact E|]. split; [lia|]. split; [exact Hf|].
  intros Hlt. destruct (nth_error A k) as [a|] eqn:Ea.
  - exists a. split; [reflexivity|]. destruct Hn as [Hn|Hn]; [|exact Hn].
    apply Nat.ltb_ge in Hn. lia.
  - apply nth_error_None in Ea. lia.
Qed.

Lemma last_within_in_bounds_witness :
  exists i,
    last_within 1 [0.25; 0.5; 5] 3 0 = Some i /\ (i <= 3)%nat /\
    forallb (fun a => a <=? 1) (firstn i [0.25; 0.5; 5]) = true /\
    ((i < 3)%nat -> exists a, nth_error [0.25; 0.5; 5] i = Some a /\ (a <=? 1) = false).
Proof.
  apply (last_within_in_bounds 1 [0.25; 0.5; 5] 3). cbn. lia.
Defined.

(** ** The gateway *)

Lemma run_sttc_swap (dt : float) (win : float * float) (s1 s2 : list float) :
  run_sttc dt win s1 s2 = run_sttc dt win s2 s1.
Proof.
  destruct win as [startv endv].
  destruct s1 as [|a s1].
  { rewrite !run_sttc_empty by auto. reflexivity. }
  destruct s2 as [|b s2].
  { rewrite !run_sttc_empty by auto. reflexivity. }
  destruct (run_T_defined dt startv endv a s1) as [tA EA].
  destruct (run_T_defined dt startv endv b s2) as [tB EB].
  rewrite (run_sttc_nonempty dt startv endv _ _ tA tB) by (assumption || discriminate).
  rewrite (run_sttc_nonempty dt startv endv _ _ tB tA) by (assumption || discriminate).
  unfold sttc_formula. f_equal. apply float_add_comm.
Qed.

Lemma sweep_swap (win : float * float) (A B : list float) (i n : nat) :
  sweep win A B i n = sweep win B A i n.
Proof.
  revert i. induction n as [|n IH]; intros i; [reflexivity|].
  cbn [sweep]. rewrite run_sttc_swap, IH. reflexivity.
Qed.

(** X14.  A call with the trains A and B exchanged comes to the same thing:
    the same error, the same undefined behaviour, or the same two outputs. *)
Theorem mexFunction_swap_trains (nlhs : nat) (pWIN pDT pA pB : mxArray) :
  mexFunction nlhs [pWIN; pDT; pA; pB] = mexFunction nlhs [pWIN; pDT; pB; pA].
Proof.
  unfold mexFunction.
  destruct (NARGOUT <? nlhs)%nat; [reflexivity|].
  destruct (negb (mxIsDouble pWIN) || _); [reflexivity|].
  destruct (negb (mxIsDouble pDT) || _); [reflexivity|].
  rewrite (orb_comm (negb (mxIsDouble pB))).
  destruct (negb (mxIsDouble pA) || _); [reflexivity|].
  destruct (mxPr pDT) as [|dtv ?]; [reflexivity|].
  destruct (mxPr pWIN) as [|win0 [|win1 [|? ?]]]; try reflexivity.
  destruct (dtv <? 0); [reflexivity|].
  destruct (uint_of_double _) as [dtn|]; [|reflexivity].
  destruct (win1 <=? win0); [reflexivity|].
  destruct (clip win0 win1 (mxPr pA)) as [A|], (clip win0 win1 (mxPr pB)) as [B|];
    try reflexivity.
  rewrite sweep_swap. reflexivity.
Qed.

(** X15.  The spikes outside the window do not count: when the clipped
    trains have a spike each, a call on the clipped trains comes to the same
    thing as the call on the full trains. *)
Theorem mexFunction_on_clipped_trains (nlhs : nat) (pWIN pDT pA pB : mxArray)
    (win0 win1 : float) (A B : list float) :
  mxPr pWIN = [win0; win1] ->
  mxIsDouble pA = true -> mxIsDouble pB = true ->
  clip win0 win1 (mxPr pA) = Some A -> clip win0 win1 (mxPr pB) = Some B ->
  A <> [] -> B <> [] ->
  mexFunction nlhs [pWIN; pDT; double_array A; double_array B] =
  mexFunction nlhs [pWIN; pDT; pA; pB].
Proof.
  intros EW DA DB EA EB HA HB.
  pose proof (clip_idempotent_nonempty _ _ _ _ EA HA) as EA'.
  pose proof (clip_idempotent_nonempty _ _ _ _ EB HB) as EB'.
  unfold mexFunction. rewrite DA, DB, EW.
  change (mxIsDouble (double_array A)) with true.
  change (mxIsDouble (double_array B)) with true.
  change (mxPr (double_array A)) with A. change (mxPr (double_array B)) with B.
  rewrite EA, EB, EA', EB'. reflexivity.
Qed.

Lemma mexFunction_on_clipped_trains_witness :
  mexFunction 2 [double_array [0; 1]; double_array [0.002];
                 double_array [0.25; 0.5]; double_array [0.5]] =
  mexFunction 2 [double_array [0; 1]; double_array [0.002];
                 double_array [-5; 0.25; 0.5; 5]; double_array [0.5; 7]].
Proof.
  apply (mexFunction_on_clipped_trains 2 (double_array [0; 1]) (double_array [0.002])
           (double_array [-5; 0.25; 0.5; 5]) (double_array [0.5; 7]) 0 1);
    try reflexivity; try discriminate; vm_compute; reflexivity.
Defined.




(** X17.  Where the behaviour of a call is undefined.  For a call that
    passes the tests of its arguments, with a delta-t that is not below zero:
    the behaviour is undefined exactly when the number of steps cannot be
    converted (delta-t is NaN or infinite, or ceil(dt / 0.001) + 1 does not
    fit [unsigned int]), whatever the window is, or when the window is
    accepted and the first clipping loop runs off the end of A or of B (no
    spike at or after the window start).  Nothing else in the call reads
    outside a buffer. *)
Theorem mexFunction_undefined_iff (nlhs : nat) (pWIN pDT pA pB : mxArray)
    (win0 win1 dtv : float) :
  (nlhs <= 2)%nat ->
  mxIsDouble pWIN = true -> mxIsDouble pDT = true ->
  mxIsDouble pA = true -> mxIsDouble pB = true ->
  mxPr pWIN = [win0; win1] -> mxPr pDT = [dtv] ->
  (dtv <? 0) = false ->
  mexFunction nlhs [pWIN; pDT; pA; pB] = Undefined <->
    (finiteb (dtv / 0.001) = false \/ (2 ^ 32 <= Zceil (dtv / 0.001) + 1)%Z) \/
    ((win1 <=? win0) = false /\
     (forallb (fun a => a <? win0) (mxPr pA) = true \/
      forallb (fun b => b <? win0) (mxPr pB) = true)).
Proof.
  intros Hn DW DD DA DB EW ED Hdt.
  unfold mexFunction, NARGOUT, mxIsScalar, mxGetNumberOfElements.
  assert ((2 <? nlhs)%nat = false) as -> by (apply Nat.ltb_ge; lia).
  rewrite DW, DD, DA, DB, EW, ED. cbn [negb orb length Nat.eqb]. rewrite Hdt.
  set (q := dtv / 0.001).
  destruct (uint_of_double (ceil q + 1)) as [n|] eqn:E.
  - apply steps_spec in E as (Fq & -> & Hr).
    destruct (win1 <=? win0) eqn:Hwin.
    + split; [discriminate|]. intros [[H|H]|[H _]]; [congruence|lia|discriminate].
    + rewrite <- !clip_none_iff with (win1 := win1).
      destruct (clip win0 win1 (mxPr pA)) as [A|] eqn:EA.
      * destruct (clip win0 win1 (mxPr pB)) as [B|] eqn:EB.
        -- destruct (sweep_defined (win0, win1) A B 0 (Z.to_nat (Zceil q + 1))) as [cs ->].
           split; [discriminate|].
           intros [[H|H]|[_ [H|H]]]; [congruence|lia|discriminate|discriminate].
        -- split; [intros _|reflexivity]. right. auto.
      * split; [intros _|reflexivity]. right. auto.
  - split; [intros _|reflexivity]. left.
    destruct (finiteb q) eqn:Fq; [right|left; reflexivity].
    destruct (Z.le_gt_cases (2 ^ 32) (Zceil q + 1)) as [|Hlt]; [assumption|exfalso].
    assert (0 <= Zceil q)%Z as Hc0.
    { assert (is_nanb dtv = false) as Ndt.
      { destruct (is_nanb dtv) eqn:N; [|reflexivity].
        unfold is_nanb, finiteb, q in *. rewrite FloatAxioms.div_spec in Fq.
        destruct (Prim2SF dtv); discriminate. }
      assert (0 <= F2Z dtv)%Z as Hpos.
      { destruct (Z.le_gt_cases 0 (F2Z dtv)); [assumption|].
        assert ((dtv <? 0) = true); [|congruence].
        apply ltb_true_iff. repeat split; auto. }
      destruct (div_nonneg_val dtv 0.001 4611686018427388 (-62) Ndt Hpos
                  ltac:(vm_compute; reflexivity)) as [_ Hq].
      fold q in Hq. unfold Zceil.
      pose proof (Z.div_le_upper_bound (- F2Z q) (2 ^ 1074) 0 (pow2_pos 1074 ltac:(lia)) ltac:(lia)).
      lia. }
    assert (uint_of_double (ceil q + 1) = Some (Zceil q + 1)%Z) as E'
      by (apply steps_spec; repeat split; auto; lia).
    congruence.
Qed.

Lemma mexFunction_undefined_iff_witness :
  mexFunction 1 [double_array [1; 0]; double_array [nan];
                 double_array [0.5]; double_array [0.5]] = Undefined /\
  mexFunction 1 [double_array [2; 3]; double_array [0.002];
                 double_array [1]; double_array [2.5]] = Undefined.
Proof.
  split.
  - apply (mexFunction_undefined_iff 1 (double_array [1; 0]) (double_array [nan])
             (double_array [0.5]) (double_array [0.5]) 1 0 nan);
      [lia | reflexivity .. | left; left; vm_compute; reflexivity].
  - apply (mexFunction_undefined_iff 1 (double_array [2; 3]) (double_array [0.002])
             (double_array [1]) (double_array [2.5]) 2 3 0.002);
      [lia | reflexivity .. | right; split; [|left]; vm_compute; reflexivity].
Defined.

(** ** A window bound that is NaN *)

Section NanWindow.

Local Open Scope float_scope.










End NanWindow.


